(* ===== verification/_CoqProject ===== *)
-Q . S2P
Prelude.v
JsValue.v
Promise.v
Base64.v
Options.v
Merge.v
World.v
Registry.v
Envelope.v
Transport.v
Invoker.v
Session.v
Scenarios.v
Refinement.v
Liveness.v
Bootstrap.v
BootProgress.v
