(* ===== verification/Prelude.v ===== *)
(** * A verification development of node-naiton (src/index.js)

    node-naiton is a client library for the Naiton web service.  The whole
    program is one file, [src/index.js]; this development models it part by
    part, one Rocq file per part.

    ** The program and how its parts interact

    - [Client] (index.js 31-80) merges the caller's options over the
      defaults with lodash's [_.merge], picks the service URL from
      [options.env], and runs the capability registry: for every name of
      the fixed list [components] (line 17) it [require]s
      ['./components/' + name.toLowerCase()], stores the exported
      constructor in [exports[name]] and the instance [new C(self)] under
      [self[name.toLowerCase()]]; a failure of any of these steps is
      caught and logged ("Cant find file: ...").
    - [Client.prototype.post] (104-149) sends one HTTP POST to
      [this.url + this.options.action] and, in the response callback,
      rejects on a transport error (without returning), logs, decodes the
      body according to [options.returnType] (xml2js for ['xml'],
      [JSON.parse] for ['object']), and, when the *current* action is
      ['/service/initializesession'], stores [json.success.token] in
      [options.token] or rejects with the [nosuccessontoken] message;
      finally it resolves with the raw body.
    - [Client.prototype.authenticate] (161-195) sets the action, builds the
      [InitializeSession] XML envelope with the [base64] capability and
      returns a Promise whose executor calls [post].
    - [Client.prototype.verifyAPIUsage] (207-217) is the guard the
      capabilities call before issuing a request.
    - Lines 225-297 are a debug bootstrap that runs when the module is
      loaded ([debugMode] is [true], line 16): it creates a client, logs
      in, and in an [async.waterfall] asks the [Clientmanager] capability
      for the country list and then adds a sample client built from a
      mongoose model.

    ** The files (in dependency order)

    - [Prelude] (this file): the [naiton_scope] notations, the
      state-and-exception monad [stM] in which the JavaScript code is
      written, its laws, relations it preserves ([preserves]) and triples
      on its normal returns ([hoare]), the [naiton] hint database and
      the shared lemmas on strings.
    - [JsValue]: JavaScript values ([jsval]), [typeof], property access
      that throws a [TypeError] on [undefined]/[null], [ToString], and the
      exceptions the code can raise.
    - [Promise]: promise states and the settle-once rule of [resolve] and
      [reject] (a promise is settled by the first call only).
    - [Base64]: the [Base64] capability (its file is not under src/; it is
      modelled from the spec as the usual JavaScript codec: UTF-8 of the
      string, then base64 with [=] padding) with its decoder, the round
      trip and the length of the encoding; its [Utf8] module is also
      [Buffer.byteLength] for the [Content-Length] header (on 8-bit
      characters only: characters above U+00FF, which Node encodes in 2
      to 4 bytes, are outside the model).
    - [Options]: the option record, [defaults] (33-54), the deep merge
      of the caller's overrides (59) on the typed record and the URL
      choice (61-65).
    - [Merge]: lodash's [_.merge] on JavaScript values as a reference
      ([merge_value], [merge_fields], [js_merge]), the option record as an
      object, and the equivalence of the record merge with it.
    - [Envelope]: the [InitializeSession] body (169-188) and a reader of its
      arguments; the round trip for the encoded fields and the injection
      through the unencoded password.
    - [Registry]: the component loop (67-77) against a [ModuleLoader]
      interface (a [Class] for Node's [require] and [new]).
    - [Invoker]: [verifyAPIUsage] (207-217), and the capability
      operations of ./components/* (not under src/, modelled from spec
      4.5 as [capability_request] guarded by [verifyAPIUsage]).
    - [Transport]: the request record, [post] (104-116) and the response
      callback (117-147) against a [Parsers] interface (a [Class] for
      xml2js and [JSON.parse]).
    - [Session]: [authenticate] (161-195), the world of one client with its
      promise store and in-flight requests, the step relation of the
      system ([step]: [authenticate], a capability call, or the answer to
      any pending request, in any order), the reachability invariants
      (the single writer of the token, every fulfilled value a string).
    - [Scenarios]: the scenarios of spec section 8 (login accepted,
      refused) and the two interleavings the shared
      [options.action] gets wrong.
    - [Refinement]: the spec's authentication state machine
      ([Unauthenticated], [Authenticating], [Authenticated]) as an
      abstract step relation, the view of a concrete world as one of its
      states, and the refinement theorem for callers that wait for each
      answer before the next call: the views along a concrete run form a
      run of the abstract machine.
    - [Liveness]: no promise is left pending: in every reachable world a
      pending promise has its request in flight, and answering the
      requests ([answer_all], whatever the answers) settles every promise
      or crashes the process.
    - [Bootstrap]: the debug script (226-296) as a step relation
      [boot_step] over a [phase] (loading, waiting for the login, for the
      country list, for [addclient], finished, idle, failed) and the
      world; the waterfall's tasks and continuations are [Definition]s in
      the monad, the [Clientmanager] service and mongoose are the
      interfaces [ClientmanagerApi] and [Persistence].
    - [BootProgress]: the bootstrap never gets stuck before its end: the
      promise each phase waits for is served (settled, or
      a request in flight for it), proved with triples ([hoare], this
      file) on the handlers.

    The components talk through interfaces: [ModuleLoader] (what the
    registry needs from Node's [require] and [new]), [Parsers] (what the
    callback needs from xml2js and [JSON.parse]), and, for the bootstrap,
    [ClientmanagerApi] and [Persistence].  The theorems are
    proved against the classes; the witnesses instantiate them with
    [Registry.DemoLoader] (only [Base64] resolves) and
    [Transport.DemoParsers] (a stub parser that knows a success body, a
    refusal, a body with [success: null] and [null]), the stub transport
    spec 8 states its properties against.

    ** What the theorems show (by group)

    - functional behaviour of the response callback on every branch
      (transport error, JSON and XML decode errors, missing or [null]
      [success], success, another action), that it settles its promise
      unless it throws, and the requests [authenticate] and a guarded
      capability call issue (URL, method, headers, body, promise);
    - the invariants of reachable worlds: the token is written only by
      a response handled while the action is the initialize-session path,
      and every fulfilled promise holds the raw body;
    - the envelope: every argument read back as sent and the credentials
      decoded back when the password has no [<]; any password carrying
      [</password><timeout>t</timeout>] overrides the timeout;
    - bounds: the length of a base64 encoding;
    - the refinement of the spec's authentication state machine under
      sequential use (trace inclusion), and what breaks it with two
      requests in flight (the login token lost, a capability reply taken
      for a refused login);
    - the registry never aborts construction and accounts for every
      component exactly once;
    - equivalence: the typed record merge computes the object lodash's
      [_.merge({}, defaults, options)] builds, key order and the nested
      [errors] table included ([Merge.client_options_lodash]);
    - a type invariant: every fulfilled promise of a reachable world holds
      a string ([Session.reachable_fulfilled_strings]);
    - termination: the bootstrap admits no infinite run, by the measure
      twice the phase's rank plus the number of requests in flight
      ([Bootstrap.boot_terminates]);
    - liveness of the client: answering the requests in flight settles
      every promise unless a callback crashes the process
      ([Liveness.reachable_all_settled]);
    - liveness of the bootstrap: no reachable state is stuck before its
      end ([BootProgress.boot_stuck_final]); with termination, every
      maximal run ends in a final state;
    - the bootstrap's findings: [cb(result)] sends any truthy country
      list to the waterfall's final callback, so [addclient] is dead code
      from the module load; when the second task does run, [cb] is
      undefined and [cb()] throws; a missing [Clientmanager] makes the
      login handler throw;
    - the findings: the shared [options.action] race, the crash (uncaught
      exception, promise never settled) on a malformed body, the
      password injection into the envelope, the same URL for both
      environments.

    ** Modelling choices, bounds and what is left out

    - JavaScript numbers are modelled as [Z] (only lengths and small
      constants occur).  Strings are [String.string] (8-bit characters);
      UTF-8 of a character above 127 is two bytes, which is what Node
      produces for code points 128-255.
    - Options are a typed record: an override of a field by a value of
      another JavaScript type is not modelled.
    - The only fuel is [Liveness.answer_all]'s, the number of requests in
      flight, which each answer lowers by one ([deliver_inflight]), so it
      is always enough.  Otherwise every function is structural, and the
      loops of the program (the component loop, the base64 loops, the
      nested values [_.merge] walks) are structural recursions on their
      lists, strings or values.  The bootstrap is a relation; its
      termination is a theorem (well-foundedness of the converse of
      [boot_step]), not a bound.
    - [_.merge] is modelled for the values the options take: plain
      objects, arrays and primitives (no prototypes, no class instances,
      no cycles).  The caller's keys that [defaults] does not have are
      not modelled.
    - The system is a relation, not a scheduler: any pending request may
      be answered at any time, which covers every order the HTTP library
      can produce.  An exception thrown inside a response callback is
      uncaught in Node and ends the process ([w_alive] becomes false).
    - Not modelled: the HTTP library (a request is recorded as an
      in-flight value and its answer is an input of the step relation),
      xml2js and [JSON.parse] themselves (an interface with laws), the
      capability files other than [Base64] (the [Clientmanager]
      operations the bootstrap calls are an interface), mongoose (the
      model and the document are values of the [Persistence] interface),
      [new Date()] (a placeholder object), and the timing of the
      asynchronous calls beyond their order.  What the map leaves of
      src/index.js is comments, blank lines and the [require]s of lines
      4-10 (the libraries, modelled by the interfaces above); the parts
      listed as partly modelled are so because their code (the
      capability files, the libraries) is not in the repository. *)

From stdpp Require Export base list strings gmap.
From Stdlib Require Export Ascii ZArith Lia.
From Stdlib Require String.

Declare Scope naiton_scope.
Delimit Scope naiton_scope with naiton.
Open Scope naiton_scope.

(** ** The state-and-exception monad

    A JavaScript statement sequence that reads and writes shared objects
    and may throw is a function from a store to an outcome and the store
    after it: a throw keeps the writes done before it. *)

Inductive outcome (E A : Type) : Type :=
| Normal (a : A)
| Thrown (e : E).
Arguments Normal {E A} a.
Arguments Thrown {E A} e.

Definition stM (S E A : Type) : Type := S -> outcome E A * S.

Section StMonad.
Context {S E : Type}.

Definition st_ret {A} (a : A) : stM S E A := fun s => (Normal a, s).

Definition st_bind {A B} (f : A -> stM S E B) (m : stM S E A) : stM S E B :=
  fun s =>
    match m s with
    | (Normal a, s') => f a s'
    | (Thrown e, s') => (Thrown e, s')
    end.

Definition st_get : stM S E S := fun s => (Normal s, s).
Definition st_modify (f : S -> S) : stM S E unit := fun s => (Normal tt, f s).
Definition st_throw {A} (e : E) : stM S E A := fun s => (Thrown e, s).
(** A pure computation that may throw, run without touching the store. *)
Definition st_lift {A} (o : outcome E A) : stM S E A := fun s => (o, s).

(** [try { m } catch (e) { h(e) }]: the writes of [m] before the throw
    are kept. *)
Definition st_catch {A} (m : stM S E A) (h : E -> stM S E A) : stM S E A :=
  fun s => match m s with
           | (Normal a, s') => (Normal a, s')
           | (Thrown e, s') => h e s'
           end.

(** [l.forEach(f)]: the calls in list order; a throw stops the loop. *)
Fixpoint st_for_each {A} (f : A -> stM S E unit) (l : list A) : stM S E unit :=
  match l with
  | [] => st_ret tt
  | x :: l' => st_bind (fun _ => st_for_each f l') (f x)
  end.
End StMonad.

#[export] Instance stM_ret {S E} : MRet (stM S E) := fun A => @st_ret S E A.
#[export] Instance stM_bind {S E} : MBind (stM S E) := fun A B => @st_bind S E A B.

(** Running a program: [run m s] is the outcome and the final store. *)
Definition run {S E A} (m : stM S E A) (s : S) : outcome E A * S := m s.

Create HintDb naiton discriminated.
Create Rewrite HintDb naiton_run.
Create Rewrite HintDb naiton_str.
Create Rewrite HintDb naiton_world.

Section StLaws.
Context {S E : Type}.

Lemma run_ret {A} (a : A) (s : S) : run (mret a : stM S E A) s = (Normal a, s).
Proof. reflexivity. Qed.

Lemma run_bind {A B} (m : stM S E A) (f : A -> stM S E B) (s : S) :
  run (m ≫= f) s =
    match run m s with
    | (Normal a, s') => run (f a) s'
    | (Thrown e, s') => (Thrown e, s')
    end.
Proof. reflexivity. Qed.

Lemma run_get (s : S) : run (st_get : stM S E S) s = (Normal s, s).
Proof. reflexivity. Qed.

Lemma run_modify (f : S -> S) (s : S) :
  run (st_modify f : stM S E unit) s = (Normal tt, f s).
Proof. reflexivity. Qed.

Lemma run_throw {A} (e : E) (s : S) : run (st_throw e : stM S E A) s = (Thrown e, s).
Proof. reflexivity. Qed.

Lemma run_lift {A} (o : outcome E A) (s : S) : run (st_lift o : stM S E A) s = (o, s).
Proof. reflexivity. Qed.

Lemma run_catch {A} (m : stM S E A) (h : E -> stM S E A) (s : S) :
  run (st_catch m h) s = match run m s with
                         | (Normal a, s') => (Normal a, s')
                         | (Thrown e, s') => run (h e) s'
                         end.
Proof. reflexivity. Qed.

Lemma run_for_each_cons {A} (f : A -> stM S E unit) x l (s : S) :
  run (st_for_each f (x :: l)) s =
    match run (f x) s with
    | (Normal _, s') => run (st_for_each f l) s'
    | (Thrown e, s') => (Thrown e, s')
    end.
Proof. reflexivity. Qed.

Lemma bind_ret_l {A B} (a : A) (f : A -> stM S E B) (s : S) :
  run (mret a ≫= f) s = run (f a) s.
Proof. reflexivity. Qed.

Lemma bind_assoc {A B C} (m : stM S E A) (f : A -> stM S E B) (g : B -> stM S E C) (s : S) :
  run ((m ≫= f) ≫= g) s = run (m ≫= (fun a => f a ≫= g)) s.
Proof. unfold run, mbind, stM_bind, st_bind. by destruct (m s) as [[a|e] s']. Qed.
End StLaws.

#[export] Hint Rewrite @run_ret @run_bind @run_get @run_modify @run_throw @run_lift @run_catch @run_for_each_cons : naiton_run.

(** ** Relations preserved by a program

    [preserves R m]: from every store, [m] ends in a store related to the
    start by [R], whether it returns or throws.  For a preorder [R] this
    is closed under the monad's operations, so a property of the store
    that every primitive statement keeps is kept by the whole method. *)

Definition preserves {S E A} (R : S -> S -> Prop) (m : stM S E A) : Prop :=
  forall s, R s (snd (run m s)).

Section Preserves.
Context {S E : Type} (R : S -> S -> Prop) `{!PreOrder R}.

Lemma preserves_ret {A} (a : A) : preserves R (mret a : stM S E A).
Proof. intros s. cbn. reflexivity. Qed.

Lemma preserves_get : preserves R (st_get : stM S E S).
Proof. intros s. cbn. reflexivity. Qed.

Lemma preserves_lift {A} (o : outcome E A) : preserves R (st_lift o : stM S E A).
Proof. intros s. cbn. reflexivity. Qed.

Lemma preserves_throw {A} (e : E) : preserves R (st_throw e : stM S E A).
Proof. intros s. cbn. reflexivity. Qed.

Lemma preserves_modify (f : S -> S) :
  (forall s, R s (f s)) -> preserves R (st_modify f : stM S E unit).
Proof. intros Hf s. apply Hf. Qed.

Lemma preserves_bind {A B} (m : stM S E A) (f : A -> stM S E B) :
  preserves R m -> (forall a, preserves R (f a)) -> preserves R (m ≫= f).
Proof.
  intros Hm Hf s. pose proof (Hm s) as Hs. unfold preserves, run, mbind, stM_bind, st_bind in *.
  destruct (m s) as [[a|e] s']; cbn in *; [| exact Hs].
  etrans; [exact Hs | apply Hf].
Qed.

Lemma preserves_catch {A} (m : stM S E A) (h : E -> stM S E A) :
  preserves R m -> (forall e, preserves R (h e)) -> preserves R (st_catch m h).
Proof.
  intros Hm Hh s. pose proof (Hm s) as Hs. unfold preserves, run, st_catch in *.
  destruct (m s) as [[a|e] s']; cbn in *; [exact Hs |].
  etrans; [exact Hs | apply Hh].
Qed.

Lemma preserves_for_each {A} (f : A -> stM S E unit) (l : list A) :
  (forall x, preserves R (f x)) -> preserves R (st_for_each f l).
Proof.
  intros Hf. induction l as [|x l IH]; [apply preserves_ret |].
  apply (preserves_bind (f x) (fun _ => st_for_each f l)); [apply Hf | intros _; exact IH].
Qed.
End Preserves.

(** [preserves_tac] splits a program into its statements; what is left
    are the primitive updates, and the branches of [if]/[match]. *)
Ltac preserves_tac :=
  repeat match goal with
  | |- PreOrder _ => typeclasses eauto
  | |- forall _, preserves _ _ => intro
  | |- preserves _ (_ ≫= _) => apply preserves_bind
  | |- preserves _ (mret _) => apply preserves_ret
  | |- preserves _ st_get => apply preserves_get
  | |- preserves _ (st_lift _) => apply preserves_lift
  | |- preserves _ (st_throw _) => apply preserves_throw
  | |- preserves _ (st_catch _ _) => apply preserves_catch
  | |- preserves _ (st_for_each _ _) => apply preserves_for_each
  | |- forall _, _ => intro
  | |- preserves _ (st_modify _) => apply preserves_modify
  | |- preserves _ (if ?b then _ else _) => destruct b
  | |- preserves _ (match ?x with _ => _ end) => destruct x
  end.

(** ** Triples on normal returns

    [hoare P m Q]: from a store satisfying [P], if [m] returns normally
    with [a], the store it leaves satisfies [Q a].  A throw is not
    constrained (the callers treat it separately); this is the partial,
    exception-free half of a pre/post specification. *)

Definition hoare {S E A} (P : S -> Prop) (m : stM S E A) (Q : A -> S -> Prop) : Prop :=
  forall s a s', P s -> run m s = (Normal a, s') -> Q a s'.

Section Hoare.
Context {S E : Type}.

Lemma hoare_ret {A} (P : S -> Prop) (a : A) (Q : A -> S -> Prop) :
  (forall s, P s -> Q a s) -> hoare P (mret a : stM S E A) Q.
Proof. intros H s a' s' Hs Hr. injection Hr as <- <-. auto. Qed.

Lemma hoare_bind {A B} P (m : stM S E A) (f : A -> stM S E B) R Q :
  hoare P m R -> (forall a, hoare (R a) (f a) Q) -> hoare P (m ≫= f) Q.
Proof.
  intros Hm Hf s b s' Hs. rewrite run_bind.
  destruct (run m s) as [[a|e] s1] eqn:Hrun; [| discriminate].
  intros Hr. eapply Hf; [eapply Hm; [exact Hs | exact Hrun] | exact Hr].
Qed.

Lemma hoare_throw {A} P (e : E) (Q : A -> S -> Prop) : hoare P (st_throw e : stM S E A) Q.
Proof. intros s a s' _ Hr. discriminate. Qed.

Lemma hoare_modify P (f : S -> S) (Q : unit -> S -> Prop) :
  (forall s, P s -> Q tt (f s)) -> hoare P (st_modify f : stM S E unit) Q.
Proof. intros H s a s' Hs Hr. injection Hr as <- <-. auto. Qed.

Lemma hoare_lift {A} P (o : outcome E A) (Q : A -> S -> Prop) :
  (forall s a, P s -> o = Normal a -> Q a s) -> hoare P (st_lift o : stM S E A) Q.
Proof. intros H s a s' Hs Hr. injection Hr as -> ->. auto. Qed.

Lemma hoare_weaken {A} (P P' : S -> Prop) (m : stM S E A) (Q Q' : A -> S -> Prop) :
  hoare P m Q -> (forall s, P' s -> P s) -> (forall a s, Q a s -> Q' a s) -> hoare P' m Q'.
Proof. intros H HP HQ s a s' Hs Hr. eauto. Qed.

(** A program that leaves nothing to prove of its result. *)
Lemma hoare_true {A} P (m : stM S E A) (Q : A -> S -> Prop) :
  (forall a s, Q a s) -> hoare P m Q.
Proof. intros H s a s' _ _. apply H. Qed.
End Hoare.

(** ** Lists *)

(** Removing the element at [i] keeps every other element. *)
Lemma elem_of_delete_ne {A} (l : list A) i x y :
  l !! i = Some y -> x ∈ l -> x <> y -> x ∈ delete i l.
Proof.
  intros Hi Hx Hne. rewrite <- (take_drop_middle l i y Hi) in Hx. rewrite delete_take_drop.
  apply elem_of_app in Hx as [Hx | [-> | Hx]%elem_of_cons]; apply elem_of_app; tauto.
Qed.

(** [zlia]: [lia] after turning every [/] and [mod] of the goal and
    the context into its Euclidean equations. *)
Ltac zlia := Z.to_euclidean_division_equations; lia.

(** [st_simpl] evaluates a monadic program on a store as far as the
    branches allow. *)
Ltac st_simpl :=
  unfold run, mbind, mret, stM_bind, stM_ret, st_bind, st_ret, st_get, st_modify,
    st_throw, st_lift, st_catch in *;
  cbn beta iota zeta in *.

(** ** Strings

    Strings are concatenated with stdpp's [+:+]; stdpp makes
    [String.append] opaque to [simpl], so its two equations are lemmas of
    the rewrite database. *)

Lemma append_nil_s (b : string) : "" +:+ b = b.
Proof. reflexivity. Qed.

Lemma append_cons_s (x : ascii) (a b : string) : String x a +:+ b = String x (a +:+ b).
Proof. reflexivity. Qed.

#[export] Hint Rewrite append_nil_s append_cons_s : naiton_str.

Lemma append_assoc_s (a b c : string) : (a +:+ b) +:+ c = a +:+ (b +:+ c).
Proof. induction a as [|x a IH]; rewrite ?append_cons_s; [done | by rewrite IH]. Qed.

Lemma append_nil_r_s (a : string) : a +:+ "" = a.
Proof. induction a as [|x a IH]; rewrite ?append_cons_s; [done | by rewrite IH]. Qed.

Lemma length_append_s (a b : string) :
  String.length (a +:+ b) = String.length a + String.length b.
Proof. induction a as [|x a IH]; rewrite ?append_cons_s; cbn; [done | by rewrite IH]. Qed.

#[export] Hint Rewrite append_assoc_s append_nil_r_s : naiton_str.

(** A boolean test over all the characters of a string. *)
Fixpoint str_forallb (p : ascii -> bool) (s : string) : bool :=
  match s with
  | EmptyString => true
  | String c s' => p c && str_forallb p s'
  end.

Lemma str_forallb_app p (a b : string) :
  str_forallb p (a +:+ b) = str_forallb p a && str_forallb p b.
Proof.
  induction a as [|x a IH]; rewrite ?append_cons_s; cbn; [done |].
  by rewrite IH, andb_assoc.
Qed.

#[export] Hint Rewrite str_forallb_app : naiton_str.

Lemma string_eqb_refl (s : string) : String.eqb s s = true.
Proof. apply String.eqb_refl. Qed.

Lemma string_eqb_neq (s t : string) : s <> t -> String.eqb s t = false.
Proof. intros H. by apply String.eqb_neq. Qed.

#[export] Hint Resolve string_eqb_refl string_eqb_neq : naiton.
