(* ===== verification/JsValue.v ===== *)
(** * JavaScript values as src/index.js uses them

    The values the client reads and writes: the decoded response [json],
    the raw body [data], the transport error [err], the rejection reasons
    and the continuations passed to [verifyAPIUsage].  The operations are
    the three the code applies to them: [typeof], property access
    ([json.success], [json.success.token]; reading a property of
    [undefined] or [null] throws a [TypeError]) and string conversion
    (["..." + e], [JSON.parse(undefined)] parses the text ["undefined"]). *)

From S2P Require Import Prelude.
From stdpp Require Import pretty.
#[local] Set Warnings "-register-all".


(** ** Values *)

Inductive jsval : Type :=
| JUndefined
| JNull
| JBool (b : bool)
| JNum (n : Z)
| JStr (s : string)
| JArr (xs : list jsval)
| JObj (fields : list (string * jsval))
| JFun (id : nat)
| JError (name message : string).

(** Decidable equality, by the nested recursion stdpp uses for its own
    trees (the instance for lists is taken from the recursive call). *)
#[export] Instance jsval_eq_dec : EqDecision jsval.
Proof.
  refine (
    fix go v1 v2 := let _ : EqDecision jsval := @go in
    match v1, v2 with
    | JUndefined, JUndefined => left _
    | JNull, JNull => left _
    | JBool b1, JBool b2 => cast_if (decide (b1 = b2))
    | JNum n1, JNum n2 => cast_if (decide (n1 = n2))
    | JStr s1, JStr s2 => cast_if (decide (s1 = s2))
    | JArr l1, JArr l2 => cast_if (decide (l1 = l2))
    | JObj f1, JObj f2 => cast_if (decide (f1 = f2))
    | JFun i1, JFun i2 => cast_if (decide (i1 = i2))
    | JError n1 m1, JError n2 m2 => cast_if_and (decide (n1 = n2)) (decide (m1 = m2))
    | _, _ => right _
    end); abstract congruence.
Defined.

(** An [Error] object: a thrown value of the code (a [TypeError] of a
    property read, a [SyntaxError] of [JSON.parse], the transport error of
    the request library, a failed [require]). *)
Definition type_error (msg : string) : jsval := JError "TypeError" msg.
Definition syntax_error (msg : string) : jsval := JError "SyntaxError" msg.

Definition typeof (v : jsval) : string :=
  match v with
  | JUndefined => "undefined"
  | JNull => "object"
  | JBool _ => "boolean"
  | JNum _ => "number"
  | JStr _ => "string"
  | JArr _ | JObj _ | JError _ _ => "object"
  | JFun _ => "function"
  end.

(** Own properties of an object literal: the first field of that name. *)
Fixpoint assoc_lookup (k : string) (fs : list (string * jsval)) : option jsval :=
  match fs with
  | [] => None
  | (k', v) :: fs' => if String.eqb k k' then Some v else assoc_lookup k fs'
  end.

(** [v[k]]: reading a property of [undefined] or [null] throws; every
    other value answers with its own property or [undefined].  Inherited
    properties of the built-in prototypes are not modelled: none of them is
    called [success] or [token], the two names the code reads. *)
Definition get_prop (v : jsval) (k : string) : outcome jsval jsval :=
  match v with
  | JUndefined =>
      Thrown (type_error ("Cannot read properties of undefined (reading '" +:+ k +:+ "')"))
  | JNull =>
      Thrown (type_error ("Cannot read properties of null (reading '" +:+ k +:+ "')"))
  | JObj fs => Normal (default JUndefined (assoc_lookup k fs))
  | JStr s => Normal (if String.eqb k "length" then JNum (Z.of_nat (String.length s)) else JUndefined)
  | JArr xs => Normal (if String.eqb k "length" then JNum (Z.of_nat (length xs)) else JUndefined)
  | JError n m =>
      Normal (if String.eqb k "name" then JStr n
              else if String.eqb k "message" then JStr m else JUndefined)
  | _ => Normal JUndefined
  end.

Notation "v '.[' k ']'" := (get_prop v k) (at level 1, format "v .[ k ]") : naiton_scope.

(** [ToString] of a value, as [+] on strings and [JSON.parse] apply it. *)
Fixpoint to_str (v : jsval) : string :=
  match v with
  | JUndefined => "undefined"
  | JNull => "null"
  | JBool true => "true"
  | JBool false => "false"
  | JNum n => if decide (n < 0)%Z then "-" +:+ pretty (Z.to_N (- n)) else pretty (Z.to_N n)
  | JStr s => s
  | JArr xs =>
      (fix join (l : list jsval) : string :=
         match l with
         | [] => ""
         | [x] => to_str x
         | x :: l' => to_str x +:+ "," +:+ join l'
         end) xs
  | JObj _ => "[object Object]"
  | JFun _ => "function"
  | JError n m => n +:+ ": " +:+ m
  end.

(** The value of [data] in the request callback: the body, or [undefined]
    when the request failed. *)
Definition data_val (d : option string) : jsval :=
  match d with Some s => JStr s | None => JUndefined end.

(** [ToBoolean]: the falsy values are [undefined], [null], [false], [0]
    and the empty string ([NaN] is not a value of the model). *)
Definition truthy (v : jsval) : bool :=
  match v with
  | JUndefined | JNull => false
  | JBool b => b
  | JNum n => negb (Z.eqb n 0)
  | JStr s => negb (String.eqb s "")
  | _ => true
  end.

(** ** Lemmas *)

Lemma get_prop_undefined k : JUndefined.[k] = Thrown (type_error ("Cannot read properties of undefined (reading '" +:+ k +:+ "')")).
Proof. reflexivity. Qed.

Lemma get_prop_obj k fs : (JObj fs).[k] = Normal (default JUndefined (assoc_lookup k fs)).
Proof. reflexivity. Qed.

Lemma assoc_lookup_head k v fs : assoc_lookup k ((k, v) :: fs) = Some v.
Proof. cbn. by rewrite String.eqb_refl. Qed.

#[export] Hint Rewrite get_prop_undefined get_prop_obj assoc_lookup_head : naiton_run.

(** Property access throws exactly on [undefined] and [null]. *)
Lemma get_prop_throws v k e :
  v.[k] = Thrown e -> v = JUndefined \/ v = JNull.
Proof. destruct v; cbn; try discriminate; auto. Qed.

Lemma get_prop_normal v k :
  v <> JUndefined -> v <> JNull -> exists r, v.[k] = Normal r.
Proof. destruct v; cbn; try congruence; eauto. Qed.

(** [typeof] is ["undefined"] only for [undefined]. *)
Lemma typeof_undefined_iff v : typeof v = "undefined" <-> v = JUndefined.
Proof. destruct v; cbn; split; congruence. Qed.

Lemma to_str_data_val_none : to_str (data_val None) = "undefined".
Proof. reflexivity. Qed.
