(* ===== verification/Promise.v ===== *)
(** * Promises as the client uses them

    [authenticate] (src/index.js 191-193) returns [new Promise(executor)]
    and hands the promise's [resolve] and [reject] to [post], whose
    callback may call both (lines 143 and 146) or [reject] and then
    [resolve] (lines 120 and 146).  A promise is settled by the first of
    these calls; later calls do nothing.  The store of all promises of a
    client is a [gmap] from promise ids to states. *)

From S2P Require Import Prelude JsValue.

Inductive pstate : Type :=
| Pending
| Fulfilled (v : jsval)
| Rejected (r : jsval).

Definition settled (p : pstate) : bool :=
  match p with Pending => false | _ => true end.

(** [resolve(v)] and [reject(r)] of the promise: only a pending promise
    changes.  ([resolve] is only ever given the raw body, a string, so the
    adoption of a thenable never happens.) *)
Definition p_resolve (v : jsval) (p : pstate) : pstate :=
  match p with Pending => Fulfilled v | _ => p end.

Definition p_reject (r : jsval) (p : pstate) : pstate :=
  match p with Pending => Rejected r | _ => p end.

Abbreviation promise_store := (gmap nat pstate).

(** The order in which a promise's state can evolve: from pending to
    anything, and a settled state only to itself. *)
Definition evolves (p q : pstate) : Prop := p = Pending \/ p = q.

#[export] Instance evolves_preorder : PreOrder evolves.
Proof.
  split.
  - intros p. by right.
  - intros p q r [-> | ->] Hqr; [by left | exact Hqr].
Qed.

(** The store order: every promise of the first store is still there and
    has only evolved. *)
Definition store_evolves (ps ps' : promise_store) : Prop :=
  forall id p, ps !! id = Some p -> exists q, ps' !! id = Some q /\ evolves p q.

#[export] Instance store_evolves_preorder : PreOrder store_evolves.
Proof.
  split.
  - intros ps id p Hp. exists p. split; [done | reflexivity].
  - intros ps1 ps2 ps3 H12 H23 id p Hp.
    destruct (H12 id p Hp) as (q & Hq & Hpq).
    destruct (H23 id q Hq) as (r & Hr & Hqr).
    exists r. split; [done | by transitivity q].
Qed.

Lemma evolves_resolve v p : evolves p (p_resolve v p).
Proof. destruct p; cbn; [by left | by right | by right]. Qed.

Lemma evolves_reject r p : evolves p (p_reject r p).
Proof. destruct p; cbn; [by left | by right | by right]. Qed.

Lemma settled_evolves p q : settled p = true -> evolves p q -> q = p.
Proof. intros Hs [-> | ->]; [discriminate | done]. Qed.

#[export] Hint Resolve evolves_resolve evolves_reject : naiton.

(** Settling a promise of the store with [f] (an [alter]: an unknown id
    is left alone). *)
Definition settle (f : pstate -> pstate) (id : nat) (ps : promise_store) : promise_store :=
  alter f id ps.

Lemma settle_evolves f id ps :
  (forall p, evolves p (f p)) -> store_evolves ps (settle f id ps).
Proof.
  intros Hf j p Hp. unfold settle. destruct (decide (id = j)) as [->|Hne].
  - rewrite lookup_alter_eq, Hp. eauto.
  - rewrite lookup_alter_ne by done. exists p. split; [done | reflexivity].
Qed.

Lemma store_evolves_insert_fresh ps id p :
  ps !! id = None -> store_evolves ps (<[id := p]> ps).
Proof.
  intros Hn j q Hq. exists q. split; [| reflexivity].
  rewrite lookup_insert_ne; [done | congruence].
Qed.

(** ** Which values the fulfilled promises hold *)

(** Every fulfilled promise of the store holds a value satisfying [Q]. *)
Definition fulfilled_all (Q : jsval -> Prop) (ps : promise_store) : Prop :=
  forall id v, ps !! id = Some (Fulfilled v) -> Q v.

(** Every fulfilled promise holds a value of type [t]. *)
Definition fulfilled_with (t : string) : promise_store -> Prop :=
  fulfilled_all (fun v => typeof v = t).

Section FulfilledAll.
Variable Q : jsval -> Prop.

Lemma fulfilled_all_insert_pending ps id :
  fulfilled_all Q ps -> fulfilled_all Q (<[id := Pending]> ps).
Proof.
  intros H j v. destruct (decide (id = j)) as [->|Hne].
  - by rewrite lookup_insert_eq.
  - rewrite lookup_insert_ne by done. apply H.
Qed.

Lemma fulfilled_all_reject r id ps :
  fulfilled_all Q ps -> fulfilled_all Q (settle (p_reject r) id ps).
Proof.
  intros H j v. unfold settle. destruct (decide (id = j)) as [->|Hne].
  - rewrite lookup_alter_eq. destruct (ps !! j) as [[]|] eqn:E; cbn; try discriminate.
    intros [= <-]. by apply (H j).
  - rewrite lookup_alter_ne by done. apply H.
Qed.

Lemma fulfilled_all_resolve v id ps :
  Q v -> fulfilled_all Q ps -> fulfilled_all Q (settle (p_resolve v) id ps).
Proof.
  intros Hv H j v'. unfold settle. destruct (decide (id = j)) as [->|Hne].
  - rewrite lookup_alter_eq. destruct (ps !! j) as [[]|] eqn:E; cbn; try discriminate.
    + by intros [= <-].
    + intros [= <-]. by apply (H j).
  - rewrite lookup_alter_ne by done. apply H.
Qed.
End FulfilledAll.

(** Settling a promise that is not pending changes nothing. *)
Lemma settle_not_pending f id ps :
  (forall p, settled p = true -> f p = p) -> ps !! id <> Some Pending -> settle f id ps = ps.
Proof.
  intros Hf Hp. unfold settle. apply alter_id. intros [] Hx; [done | |]; apply Hf; done.
Qed.

#[export] Hint Resolve fulfilled_all_insert_pending fulfilled_all_reject : naiton.
