(* ===== verification/Base64.v ===== *)
(** * The [Base64] capability (./components/base64, not under src/)

    [authenticate] encodes [username], [ipaddress] and [connectionstring]
    with [this.base64.encode] (src/index.js 174, 176, 178).  The component's
    file is not part of the sources; it is modelled from the spec ("base64
    encoded", spec 4.3 and 6) in the usual JavaScript formulation: the
    string is first encoded as UTF-8, then every three bytes [c1 c2 c3]
    give four sextets [c1 >> 2], [((c1 & 3) << 4) | (c2 >> 4)],
    [((c2 & 15) << 2) | (c3 >> 6)], [c3 & 63], a missing byte giving the
    padding index 64 (the character ['=']).  The decoder reverses the
    sextet arithmetic, and the round trip is proved for every byte list.
    [Utf8.byte_length] is also [Buffer.byteLength], the [Content-Length] of
    [post]. *)

From S2P Require Import Prelude.
Local Open Scope Z_scope.

(** ** Bit-level lemmas: the sextet arithmetic as division and modulo *)

Lemma lor_shiftl_disjoint (a b k : Z) :
  0 <= k -> 0 <= b < 2 ^ k -> Z.lor (Z.shiftl a k) b = a * 2 ^ k + b.
Proof.
  intros Hk Hb.
  assert (Hland : Z.land (Z.shiftl a k) b = 0).
  { apply Z.bits_inj'. intros i Hi. rewrite Z.land_spec, Z.bits_0.
    destruct (Z.lt_ge_cases i k) as [Hlt|Hge].
    - by rewrite Z.shiftl_spec_low.
    - rewrite <- (Z.mod_small b (2 ^ k)) by lia.
      rewrite Z.mod_pow2_bits_high by lia. apply andb_false_r. }
  rewrite <- Z.lxor_lor by done. rewrite <- Z.add_nocarry_lxor by done.
  by rewrite Z.shiftl_mul_pow2.
Qed.

Lemma land_low_bits (a : Z) (k : Z) : 0 <= k -> Z.land a (2 ^ k - 1) = a mod 2 ^ k.
Proof. intros Hk. rewrite <- Z.land_ones by done. f_equal. by rewrite Z.ones_equiv. Qed.

(** The shift-and-or forms the sextet formulas use, as arithmetic. *)
Lemma lor_shl (a b k m : Z) : 0 <= k -> m = 2 ^ k -> 0 <= b < m -> Z.lor (Z.shiftl a k) b = a * m + b.
Proof. intros Hk -> Hb. by apply lor_shiftl_disjoint. Qed.

Lemma lor_mul (a b k m : Z) : 0 <= k -> m = 2 ^ k -> 0 <= b < m -> Z.lor (a * m) b = a * m + b.
Proof. intros Hk -> Hb. rewrite <- Z.shiftl_mul_pow2 by done. rewrite lor_shiftl_disjoint by done. by rewrite Z.shiftl_mul_pow2. Qed.

Lemma shl_arith (a k m : Z) : 0 <= k -> m = 2 ^ k -> Z.shiftl a k = a * m.
Proof. intros Hk ->. by apply Z.shiftl_mul_pow2. Qed.

Lemma shr_arith (a k m : Z) : 0 <= k -> m = 2 ^ k -> Z.shiftr a k = a / m.
Proof. intros Hk ->. by apply Z.shiftr_div_pow2. Qed.

Lemma land_arith (a k m m1 : Z) :
  0 <= k -> m1 = 2 ^ k -> m = m1 - 1 -> Z.land a m = a mod m1.
Proof. intros Hk -> ->. by apply land_low_bits. Qed.

(** [bits_to_arith] rewrites the masks and shifts by the constants the
    codec uses (1..6 bits) into [*], [/] and [mod], leaving the bounds of
    each [|] to [lia]. *)
Ltac bits_to_arith :=
  repeat first
    [ rewrite (land_arith _ 2 3 4) by (reflexivity || zlia)
    | rewrite (land_arith _ 4 15 16) by (reflexivity || zlia)
    | rewrite (land_arith _ 6 63 64) by (reflexivity || zlia)
    | rewrite (shr_arith _ 2 4) by (reflexivity || zlia)
    | rewrite (shr_arith _ 4 16) by (reflexivity || zlia)
    | rewrite (shr_arith _ 6 64) by (reflexivity || zlia)
    | rewrite (lor_shl _ _ 2 4) by (reflexivity || zlia)
    | rewrite (lor_shl _ _ 4 16) by (reflexivity || zlia)
    | rewrite (lor_shl _ _ 6 64) by (reflexivity || zlia)
    | rewrite (shl_arith _ 2 4) by (reflexivity || zlia)
    | rewrite (shl_arith _ 4 16) by (reflexivity || zlia)
    | rewrite (shl_arith _ 6 64) by (reflexivity || zlia)
    | rewrite (lor_mul _ _ 2 4) by (reflexivity || zlia)
    | rewrite (lor_mul _ _ 4 16) by (reflexivity || zlia)
    | rewrite (lor_mul _ _ 6 64) by (reflexivity || zlia) ].

Module Utf8.

(** ** UTF-8 of a string of 8-bit characters *)

Definition char_bytes (c : ascii) : list Z :=
  let n := Z.of_nat (nat_of_ascii c) in
  if n <? 128 then [n]
  else [Z.lor 192 (Z.shiftr n 6); Z.lor 128 (Z.land n 63)].

Fixpoint utf8_encode (s : string) : list Z :=
  match s with
  | EmptyString => []
  | String c s' => char_bytes c ++ utf8_encode s'
  end.

Fixpoint utf8_decode (bs : list Z) : option string :=
  match bs with
  | [] => Some ""
  | b :: rest =>
      if b <? 128 then String (ascii_of_nat (Z.to_nat b)) <$> utf8_decode rest
      else match rest with
           | b2 :: rest' =>
               String (ascii_of_nat (Z.to_nat (Z.lor (Z.shiftl (Z.land b 31) 6) (Z.land b2 63))))
                 <$> utf8_decode rest'
           | [] => None
           end
  end.

(** [Buffer.byteLength(s)] for a string argument (UTF-8 by default). *)
Definition byte_length (s : string) : Z := Z.of_nat (length (utf8_encode s)).

Lemma encode_app (a b : string) : utf8_encode (a +:+ b) = utf8_encode a ++ utf8_encode b.
Proof. induction a as [|c a IH]; [done |]. rewrite append_cons_s. cbn. by rewrite IH, app_assoc. Qed.

(** A character is one byte below 128 and two bytes [192 + n/64],
    [128 + n mod 64] above. *)
Lemma char_bytes_arith c :
  let n := Z.of_nat (nat_of_ascii c) in
  char_bytes c = if n <? 128 then [n] else [192 + n / 64; 128 + n mod 64].
Proof.
  cbn zeta. unfold char_bytes. pose proof (nat_ascii_bounded c).
  destruct (_ <? 128) eqn:E; [done |]. apply Z.ltb_ge in E.
  rewrite (land_arith _ 6 63 64), (shr_arith _ 6 64) by (reflexivity || zlia).
  rewrite (lor_shl 3 _ 6 64 ltac:(lia) eq_refl), (lor_shl 2 _ 6 64 ltac:(lia) eq_refl) by zlia.
  done.
Qed.

Lemma char_bytes_range c : Forall (fun b => 0 <= b < 256) (char_bytes c).
Proof.
  rewrite char_bytes_arith. pose proof (nat_ascii_bounded c).
  destruct (_ <? 128) eqn:E; repeat constructor; zlia.
Qed.

Lemma encode_range s : Forall (fun b => 0 <= b < 256) (utf8_encode s).
Proof.
  induction s as [|c s IH]; cbn; [constructor |].
  apply Forall_app. split; [apply char_bytes_range | done].
Qed.

(** Decoding the bytes of one character gives the character back. *)
Lemma decode_char_bytes c rest :
  utf8_decode (char_bytes c ++ rest) = String c <$> utf8_decode rest.
Proof.
  rewrite char_bytes_arith. pose proof (nat_ascii_bounded c) as Hc.
  destruct (Z.of_nat (nat_of_ascii c) <? 128) eqn:E; cbn [app utf8_decode].
  - rewrite E, Nat2Z.id, ascii_nat_embedding. done.
  - apply Z.ltb_ge in E.
    replace (192 + _ <? 128) with false by (symmetry; apply Z.ltb_ge; zlia).
    replace (Z.lor _ _) with (Z.of_nat (nat_of_ascii c)).
    { by rewrite Nat2Z.id, ascii_nat_embedding. }
    rewrite (land_arith _ 5 31 32), (land_arith _ 6 63 64), (lor_shl _ _ 6 64) by (reflexivity || zlia).
    zlia.
Qed.

(** UTF-8 round trip. *)
Lemma utf8_decode_encode s : utf8_decode (utf8_encode s) = Some s.
Proof.
  induction s as [|c s IH]; [done |]. cbn [utf8_encode].
  rewrite decode_char_bytes, IH. done.
Qed.

End Utf8.

(** ** The base64 alphabet *)

Definition keyStr : string :=
  "ABCDEFGHIJKLMNOPQRSTUVWXYZabcdefghijklmnopqrstuvwxyz0123456789+/=".

(** [_keyStr.charAt(i)]; the index is always in [0, 64]. *)
Definition key_char (i : Z) : ascii := default "="%char (String.get (Z.to_nat i) keyStr).

Fixpoint index_from (c : ascii) (s : string) (i : Z) : option Z :=
  match s with
  | EmptyString => None
  | String c' s' => if Ascii.eqb c c' then Some i else index_from c s' (i + 1)
  end.

(** [_keyStr.indexOf(c)], [None] for a character outside the alphabet. *)
Definition key_index (c : ascii) : option Z := index_from c keyStr 0.

Definition quad (e1 e2 e3 e4 : Z) : string :=
  String (key_char e1) (String (key_char e2) (String (key_char e3) (String (key_char e4) EmptyString))).

(** ** Encoding: three bytes to four characters *)

Fixpoint encode_bytes (bs : list Z) : string :=
  match bs with
  | [] => EmptyString
  | [c1] => quad (Z.shiftr c1 2) (Z.shiftl (Z.land c1 3) 4) 64 64
  | [c1; c2] =>
      quad (Z.shiftr c1 2) (Z.lor (Z.shiftl (Z.land c1 3) 4) (Z.shiftr c2 4))
           (Z.shiftl (Z.land c2 15) 2) 64
  | c1 :: c2 :: c3 :: rest =>
      quad (Z.shiftr c1 2) (Z.lor (Z.shiftl (Z.land c1 3) 4) (Z.shiftr c2 4))
           (Z.lor (Z.shiftl (Z.land c2 15) 2) (Z.shiftr c3 6)) (Z.land c3 63)
        +:+ encode_bytes rest
  end.

(** [Base64.encode(s)]: UTF-8, then base64. *)
Definition encode (s : string) : string := encode_bytes (Utf8.utf8_encode s).

(** ** Decoding: four characters to up to three bytes *)

Fixpoint decode_chars (s : string) : option (list Z) :=
  match s with
  | EmptyString => Some []
  | String a (String b (String c (String d rest))) =>
      e1 ← key_index a; e2 ← key_index b; e3 ← key_index c; e4 ← key_index d;
      tl ← decode_chars rest;
      let chr1 := Z.lor (Z.shiftl e1 2) (Z.shiftr e2 4) in
      let chr2 := Z.lor (Z.shiftl (Z.land e2 15) 4) (Z.shiftr e3 2) in
      let chr3 := Z.lor (Z.shiftl (Z.land e3 3) 6) e4 in
      Some (chr1 :: (if e3 =? 64 then [] else [chr2]) ++ (if e4 =? 64 then [] else [chr3]) ++ tl)
  | _ => None
  end.

Definition decode (s : string) : option string := decode_chars s ≫= Utf8.utf8_decode.

(** ** The round trip *)

Definition is_byte (b : Z) : Prop := 0 <= b < 256.

(** Every index of the alphabet is found back by [indexOf]. *)
Lemma key_index_key_char i : 0 <= i <= 64 -> key_index (key_char i) = Some i.
Proof.
  intros Hi.
  assert (Hall : forallb (fun j => bool_decide (key_index (key_char (Z.of_nat j)) = Some (Z.of_nat j)))
                   (seq 0 65) = true) by (vm_compute; reflexivity).
  rewrite forallb_forall in Hall. specialize (Hall (Z.to_nat i)).
  rewrite Z2Nat.id in Hall by lia. apply bool_decide_eq_true in Hall; [done |].
  apply in_seq. lia.
Qed.

Lemma quad_app e1 e2 e3 e4 r :
  quad e1 e2 e3 e4 +:+ r =
    String (key_char e1) (String (key_char e2) (String (key_char e3) (String (key_char e4) r))).
Proof. reflexivity. Qed.

(** [key_ok] closes the [indexOf] of every sextet the encoder produced. *)
Ltac key_ok := rewrite key_index_key_char by (bits_to_arith; zlia); cbn [mbind option_bind].

Lemma decode_encode_bytes_lt (n : nat) (bs : list Z) :
  (length bs < n)%nat -> Forall is_byte bs -> decode_chars (encode_bytes bs) = Some bs.
Proof.
  revert bs. induction n as [|n IH]; intros bs Hlen Hb; [lia |].
  destruct bs as [|c1 [|c2 [|c3 rest]]]; [done | | |].
  - apply Forall_cons in Hb as [H1 _]. unfold is_byte in *.
    cbn [encode_bytes quad decode_chars]. repeat key_ok. cbn.
    f_equal. f_equal. bits_to_arith. zlia.
  - apply Forall_cons in Hb as [H1 Hb]. apply Forall_cons in Hb as [H2 _].
    unfold is_byte in *.
    cbn [encode_bytes quad decode_chars]. repeat key_ok. cbn.
    replace (_ =? 64) with false by (symmetry; apply Z.eqb_neq; bits_to_arith; zlia).
    cbn. bits_to_arith. repeat f_equal; zlia.
  - apply Forall_cons in Hb as [H1 Hb]. apply Forall_cons in Hb as [H2 Hb].
    apply Forall_cons in Hb as [H3 Hb]. unfold is_byte in H1, H2, H3.
    cbn [encode_bytes]. rewrite quad_app. cbn [decode_chars]. repeat key_ok.
    rewrite (IH rest) by (cbn in Hlen; lia || done). cbn.
    replace (_ =? 64) with false by (symmetry; apply Z.eqb_neq; bits_to_arith; zlia).
    replace (Z.land c3 63 =? 64) with false by (symmetry; apply Z.eqb_neq; bits_to_arith; zlia).
    cbn. bits_to_arith. repeat f_equal; zlia.
Qed.

Lemma decode_encode_bytes (bs : list Z) :
  Forall is_byte bs -> decode_chars (encode_bytes bs) = Some bs.
Proof. apply (decode_encode_bytes_lt (S (length bs))). lia. Qed.

(** ** Properties of the encoder *)

(** A character of the alphabet ([A-Za-z0-9+/=]). *)
Definition b64_char (c : ascii) : bool := bool_decide (is_Some (key_index c)).

Lemma key_char_b64 i : b64_char (key_char i) = true.
Proof.
  unfold b64_char, key_char. apply bool_decide_eq_true.
  set (n := Z.to_nat i). clearbody n.
  destruct (decide (n < 65)%nat) as [Hn|Hn].
  - assert (Hall : forallb (fun j => bool_decide (is_Some (key_index (default "="%char (String.get j keyStr)))))
                     (seq 0 65) = true) by (vm_compute; reflexivity).
    rewrite forallb_forall in Hall. specialize (Hall n).
    apply bool_decide_eq_true in Hall; [done |]. apply in_seq. lia.
  - replace n with (65 + (n - 65))%nat by lia. cbn. by exists 64.
Qed.

Lemma quad_b64 e1 e2 e3 e4 : str_forallb b64_char (quad e1 e2 e3 e4) = true.
Proof. cbn [quad str_forallb]. by rewrite !key_char_b64. Qed.

Lemma encode_bytes_b64_lt (n : nat) (bs : list Z) :
  (length bs < n)%nat -> str_forallb b64_char (encode_bytes bs) = true.
Proof.
  revert bs. induction n as [|n IH]; intros bs Hlen; [lia |].
  destruct bs as [|c1 [|c2 [|c3 rest]]]; try apply quad_b64; [done |].
  cbn [encode_bytes]. rewrite str_forallb_app, quad_b64, IH; [done |]. cbn in Hlen; lia.
Qed.

Lemma encode_bytes_length_lt (n : nat) (bs : list Z) :
  (length bs < n)%nat -> String.length (encode_bytes bs) = (4 * ((length bs + 2) / 3))%nat.
Proof.
  revert bs. induction n as [|n IH]; intros bs Hlen; [lia |].
  destruct bs as [|c1 [|c2 [|c3 rest]]]; [done | done | done |].
  cbn [encode_bytes]. rewrite length_append_s, IH by (cbn in Hlen; lia).
  cbn [length String.length quad].
  replace (S (S (S (length rest))) + 2)%nat with (length rest + 2 + 1 * 3)%nat by lia.
  rewrite Nat.div_add by lia. lia.
Qed.

(** ** The capability's contract *)

(** Decoding what [Base64.encode] produced gives the string back:
    UTF-8, then the sextets and the padding of the alphabet, are undone
    by the decoder. *)
Theorem decode_encode (s : string) : decode (encode s) = Some s.
Proof.
  unfold decode, encode. rewrite decode_encode_bytes; [| apply Utf8.encode_range].
  apply Utf8.utf8_decode_encode.
Qed.

(** The encoding of any string is made of the 65 characters of the
    alphabet only (in particular no [<], [>] or [&]). *)
Lemma encode_alphabet (s : string) : str_forallb b64_char (encode s) = true.
Proof. apply (encode_bytes_b64_lt (S (length (Utf8.utf8_encode s)))). lia. Qed.

(** C28: Four characters for every started group of three UTF-8 bytes. *)
Theorem encode_length (s : string) :
  String.length (encode s) = (4 * ((Z.to_nat (Utf8.byte_length s) + 2) / 3))%nat.
Proof.
  unfold encode, Utf8.byte_length. rewrite Nat2Z.id.
  apply (encode_bytes_length_lt (S (length (Utf8.utf8_encode s)))). lia.
Qed.
