(* ===== verification/Options.v ===== *)
(** * Client options (src/index.js 31-65)

    [new Client(options)] merges the caller's options over [defaults] with
    lodash's [_.merge({}, defaults, options)] and chooses [this.url] from
    [options.env].  The merge is deep: a partial [errors] table given by
    the caller keeps the default messages it does not mention, and an
    option the caller sets to [undefined] keeps its default.

    The options are a typed record (the type each default has); the
    caller's options are a record of [option]s, [None] standing for an
    absent key or a key set to [undefined]. *)

From S2P Require Import Prelude JsValue.

Module Options.

(** ** The error-message table ([defaults.errors], lines 46-51) *)

Record errors_t : Type := mk_errors {
  noresolve : string;
  noreject : string;
  notoken : string;
  nosuccessontoken : string
  }.

(** ** The options (lines 33-54); [token] is the only option whose value
    changes type at run time ([null], then whatever [json.success.token]
    held). *)
Record options : Type := mk_options {
  action : string;
  account : string;
  site_id : string;
  token : jsval;
  site_secure_code : string;
  env : string;
  returnType : string;
  userAgent : string;
  username : string;
  password : string;
  ipaddress : string;
  connectionstring : string;
  errors : errors_t;
  compression : string;
  responseType : string
  }.

Definition default_errors : errors_t := {|
  noresolve := "There is no resolve defined, please define a resolve function.";
  noreject := "There is no reject defined, please define a reject function.";
  notoken := "There is no refresh token set, please authenticate using the function authenticate";
  nosuccessontoken := "The credentials used to initialize the session are not correct."
|}.

Definition defaults : options := {|
  action := "";
  account := "";
  site_id := "";
  token := JNull;
  site_secure_code := "";
  env := "production";
  returnType := "object";
  userAgent := "node-naiton-0.0.1";
  username := "";
  password := "";
  ipaddress := "";
  connectionstring := "";
  errors := default_errors;
  compression := "0";
  responseType := "json"
|}.

(** ** The caller's options *)

Record errors_over : Type := mk_errors_over {
  ov_noresolve : option string;
  ov_noreject : option string;
  ov_notoken : option string;
  ov_nosuccessontoken : option string
  }.

Record overrides : Type := mk_overrides {
  ov_action : option string;
  ov_account : option string;
  ov_site_id : option string;
  ov_token : option jsval;
  ov_site_secure_code : option string;
  ov_env : option string;
  ov_returnType : option string;
  ov_userAgent : option string;
  ov_username : option string;
  ov_password : option string;
  ov_ipaddress : option string;
  ov_connectionstring : option string;
  ov_errors : option errors_over;
  ov_compression : option string;
  ov_responseType : option string
  }.

Definition no_errors_over : errors_over := mk_errors_over None None None None.

Definition no_overrides : overrides :=
  mk_overrides None None None None None None None None None None None None None None None.

(** ** lodash's [_.merge] on these shapes

    A source value [undefined] is skipped when the destination has the key
    (every key of [defaults] is there); any other source value replaces a
    primitive destination value; a plain-object source is merged into a
    plain-object destination key by key. *)

Definition merge_prim {A} (d : A) (o : option A) : A := default d o.

Definition merge_val (d : jsval) (o : option jsval) : jsval :=
  match o with
  | None | Some JUndefined => d
  | Some v => v
  end.

Definition merge_errors (d : errors_t) (o : errors_over) : errors_t := {|
  noresolve := merge_prim (noresolve d) (ov_noresolve o);
  noreject := merge_prim (noreject d) (ov_noreject o);
  notoken := merge_prim (notoken d) (ov_notoken o);
  nosuccessontoken := merge_prim (nosuccessontoken d) (ov_nosuccessontoken o)
|}.

Definition merge (d : options) (o : overrides) : options := {|
  action := merge_prim (action d) (ov_action o);
  account := merge_prim (account d) (ov_account o);
  site_id := merge_prim (site_id d) (ov_site_id o);
  token := merge_val (token d) (ov_token o);
  site_secure_code := merge_prim (site_secure_code d) (ov_site_secure_code o);
  env := merge_prim (env d) (ov_env o);
  returnType := merge_prim (returnType d) (ov_returnType o);
  userAgent := merge_prim (userAgent d) (ov_userAgent o);
  username := merge_prim (username d) (ov_username o);
  password := merge_prim (password d) (ov_password o);
  ipaddress := merge_prim (ipaddress d) (ov_ipaddress o);
  connectionstring := merge_prim (connectionstring d) (ov_connectionstring o);
  errors := merge_errors (errors d) (default no_errors_over (ov_errors o));
  compression := merge_prim (compression d) (ov_compression o);
  responseType := merge_prim (responseType d) (ov_responseType o)
|}.

(** [this.options = _.merge({}, defaults, options)] (line 59). *)
Definition client_options (o : overrides) : options := merge defaults o.

(** [this.url] (lines 61-65). *)
Definition service_url (env : string) : string :=
  if String.eqb env "test" then "http://webservice.naiton.com"
  else "http://webservice.naiton.com".

(** The options with one field replaced, as the code's assignments
    [this.options.action = ...] and [self.options.token = ...] do. *)
Definition set_action (a : string) (o : options) : options :=
  {| action := a; account := account o; site_id := site_id o; token := token o;
     site_secure_code := site_secure_code o; env := env o; returnType := returnType o;
     userAgent := userAgent o; username := username o; password := password o;
     ipaddress := ipaddress o; connectionstring := connectionstring o;
     errors := errors o; compression := compression o; responseType := responseType o |}.

Definition set_token (t : jsval) (o : options) : options :=
  {| action := action o; account := account o; site_id := site_id o; token := t;
     site_secure_code := site_secure_code o; env := env o; returnType := returnType o;
     userAgent := userAgent o; username := username o; password := password o;
     ipaddress := ipaddress o; connectionstring := connectionstring o;
     errors := errors o; compression := compression o; responseType := responseType o |}.

(** ** Lemmas on the setters *)

Lemma set_action_action a o : action (set_action a o) = a.
Proof. reflexivity. Qed.
Lemma set_action_token a o : token (set_action a o) = token o.
Proof. reflexivity. Qed.
Lemma set_action_returnType a o : returnType (set_action a o) = returnType o.
Proof. reflexivity. Qed.
Lemma set_action_errors a o : errors (set_action a o) = errors o.
Proof. reflexivity. Qed.
Lemma set_token_token t o : token (set_token t o) = t.
Proof. reflexivity. Qed.
Lemma set_token_action t o : action (set_token t o) = action o.
Proof. reflexivity. Qed.
Lemma set_token_returnType t o : returnType (set_token t o) = returnType o.
Proof. reflexivity. Qed.
Lemma set_token_errors t o : errors (set_token t o) = errors o.
Proof. reflexivity. Qed.

#[export] Hint Rewrite set_action_action set_action_token set_action_returnType
  set_action_errors set_token_token set_token_action set_token_returnType
  set_token_errors : naiton_world.

Lemma set_token_same o : set_token (token o) o = o.
Proof. by destruct o. Qed.

Lemma set_action_idem a b o : set_action a (set_action b o) = set_action a o.
Proof. reflexivity. Qed.

(** ** Properties of the merge *)

(** Without caller options the client runs on the defaults. *)
Lemma client_options_none : client_options no_overrides = defaults.
Proof. reflexivity. Qed.

(** The deep merge of [errors]: the messages the caller leaves out keep
    their defaults, the ones it gives replace them. *)
Lemma merge_errors_spec d o :
  noresolve (merge_errors d o) = default (noresolve d) (ov_noresolve o) /\
  noreject (merge_errors d o) = default (noreject d) (ov_noreject o) /\
  notoken (merge_errors d o) = default (notoken d) (ov_notoken o) /\
  nosuccessontoken (merge_errors d o) = default (nosuccessontoken d) (ov_nosuccessontoken o).
Proof. done. Qed.

(** The token is the caller's unless it is absent or [undefined]. *)
Lemma merge_token_spec d o :
  token (merge d o) = match ov_token o with
                      | Some v => if decide (v = JUndefined) then token d else v
                      | None => token d
                      end.
Proof. cbn. destruct (ov_token o) as [[]|]; cbn; done. Qed.

End Options.
