(* ===== verification/Merge.v ===== *)
(** * lodash's [_.merge] as a reference for the option merge (src/index.js 59)

    [Options.merge] is written on the typed option record.  This file
    states what [this.options = _.merge({}, defaults, options)] does on
    JavaScript values and proves that the record model computes the same
    object.

    [merge_value] follows lodash 4's [baseMerge]/[baseMergeDeep] for the
    values of the model: a source plain object is merged key by key into
    the destination when that is a plain object, into a fresh object
    otherwise; a source array is merged index by index into a destination
    array, into a fresh array otherwise; any other source value replaces
    the destination, except [undefined], which is written only where the
    destination has no such key.  Keys keep their place; a new key goes
    last.

    The caller's options are given as an object with the keys of
    [defaults] in their order, each present or absent; a key set to
    [undefined] is present ([ov_token]) or, for the string options,
    absent, which [_.merge] treats alike.  Keys that [defaults] does not
    have are not modelled (the typed record has no place for them). *)

From S2P Require Import Prelude JsValue Options.
Import Options.

(** ** The reference *)

(** [object[key] = value]: in place when the key exists, last otherwise. *)
Fixpoint assoc_set (k : string) (v : jsval) (fs : list (string * jsval)) : list (string * jsval) :=
  match fs with
  | [] => [(k, v)]
  | (k', v') :: fs' => if String.eqb k k' then (k, v) :: fs' else (k', v') :: assoc_set k v fs'
  end.

(** The value [_.merge] writes at a key holding [dst] (or no key) for a
    source value [src]; [None] when it writes nothing. *)
Fixpoint merge_value (dst : option jsval) (src : jsval) {struct src} : option jsval :=
  match src with
  | JObj sfs =>
      Some (JObj ((fix fields (base : list (string * jsval)) (sfs : list (string * jsval)) :=
                     match sfs with
                     | [] => base
                     | (k, s) :: rest =>
                         fields (match merge_value (assoc_lookup k base) s with
                                 | Some nv => assoc_set k nv base
                                 | None => base
                                 end) rest
                     end)
                    (match dst with Some (JObj dfs) => dfs | _ => [] end) sfs))
  | JArr ss =>
      Some (JArr ((fix elems (ds ss : list jsval) :=
                     match ss with
                     | [] => ds
                     | s :: ss' =>
                         match ds with
                         | [] => default JUndefined (merge_value None s) :: elems [] ss'
                         | d :: ds' => default d (merge_value (Some d) s) :: elems ds' ss'
                         end
                     end)
                    (match dst with Some (JArr ds) => ds | _ => [] end) ss))
  | JUndefined => match dst with Some _ => None | None => Some JUndefined end
  | v => Some v
  end.

(** [baseMerge(object, source)] on the fields of two plain objects. *)
Fixpoint merge_fields (base sfs : list (string * jsval)) : list (string * jsval) :=
  match sfs with
  | [] => base
  | (k, s) :: rest =>
      merge_fields (match merge_value (assoc_lookup k base) s with
                    | Some nv => assoc_set k nv base
                    | None => base
                    end) rest
  end.

(** [_.merge(object, source)] for a plain-object target. *)
Definition js_merge (obj src : jsval) : jsval :=
  match obj, src with
  | JObj ofs, JObj sfs => JObj (merge_fields ofs sfs)
  | _, _ => obj
  end.

(** ** The record model as JavaScript values *)

Definition errors_to_js (e : errors_t) : jsval :=
  JObj [("noresolve", JStr (noresolve e)); ("noreject", JStr (noreject e));
        ("notoken", JStr (notoken e)); ("nosuccessontoken", JStr (nosuccessontoken e))].

Definition option_fields (o : options) : list (string * jsval) :=
  [("action", JStr (action o)); ("account", JStr (account o)); ("site_id", JStr (site_id o));
   ("token", token o); ("site_secure_code", JStr (site_secure_code o)); ("env", JStr (env o));
   ("returnType", JStr (returnType o)); ("userAgent", JStr (userAgent o));
   ("username", JStr (username o)); ("password", JStr (password o));
   ("ipaddress", JStr (ipaddress o)); ("connectionstring", JStr (connectionstring o));
   ("errors", errors_to_js (errors o)); ("compression", JStr (compression o));
   ("responseType", JStr (responseType o))].

Definition options_to_js (o : options) : jsval := JObj (option_fields o).

(** The present keys among [ks], with their values. *)
Fixpoint opt_fields (ks : list string) (xs : list (option jsval)) : list (string * jsval) :=
  match ks, xs with
  | k :: ks', x :: xs' => match x with Some v => (k, v) :: opt_fields ks' xs' | None => opt_fields ks' xs' end
  | _, _ => []
  end.

Definition errors_over_to_js (e : errors_over) : jsval :=
  JObj (opt_fields ["noresolve"; "noreject"; "notoken"; "nosuccessontoken"]
          (map (option_map JStr) [ov_noresolve e; ov_noreject e; ov_notoken e; ov_nosuccessontoken e])).

Definition overrides_to_js (o : overrides) : jsval :=
  JObj (opt_fields (map fst (option_fields defaults))
          [option_map JStr (ov_action o); option_map JStr (ov_account o); option_map JStr (ov_site_id o);
           ov_token o; option_map JStr (ov_site_secure_code o); option_map JStr (ov_env o);
           option_map JStr (ov_returnType o); option_map JStr (ov_userAgent o);
           option_map JStr (ov_username o); option_map JStr (ov_password o);
           option_map JStr (ov_ipaddress o); option_map JStr (ov_connectionstring o);
           option_map errors_over_to_js (ov_errors o); option_map JStr (ov_compression o);
           option_map JStr (ov_responseType o)]).

(** Objects without a repeated key, at every depth: the values a
    JavaScript caller can build. *)
Fixpoint js_wf (v : jsval) : bool :=
  match v with
  | JObj fs =>
      bool_decide (NoDup (map fst fs)) &&
      (fix go (l : list (string * jsval)) := match l with [] => true | (_, x) :: l' => js_wf x && go l' end) fs
  | JArr xs => (fix go (l : list jsval) := match l with [] => true | x :: l' => js_wf x && go l' end) xs
  | _ => true
  end.

(** ** Induction on values with the values nested in arrays and objects *)

Definition jsval_ind' (P : jsval -> Prop)
    (fu : P JUndefined) (fn : P JNull) (fb : forall b, P (JBool b)) (fz : forall n, P (JNum n))
    (fs : forall s, P (JStr s)) (fa : forall xs, Forall P xs -> P (JArr xs))
    (fo : forall fields, Forall (fun kv => P kv.2) fields -> P (JObj fields))
    (ff : forall i, P (JFun i)) (fe : forall n m, P (JError n m)) : forall v, P v :=
  fix F v :=
    match v with
    | JUndefined => fu
    | JNull => fn
    | JBool b => fb b
    | JNum n => fz n
    | JStr s => fs s
    | JArr xs =>
        fa xs ((fix G (l : list jsval) : Forall P l :=
                  match l with [] => @List.Forall_nil _ P | x :: l' => @List.Forall_cons _ P x l' (F x) (G l') end) xs)
    | JObj fields =>
        fo fields ((fix G (l : list (string * jsval)) : Forall (fun kv => P kv.2) l :=
                      match l with
                      | [] => @List.Forall_nil _ (fun kv => P kv.2)
                      | kv :: l' => @List.Forall_cons _ (fun kv => P kv.2) kv l' (F kv.2) (G l')
                      end) fields)
    | JFun i => ff i
    | JError n m => fe n m
    end.

(** ** Lemmas on the reference *)

Lemma merge_value_obj dst sfs :
  merge_value dst (JObj sfs) =
    Some (JObj (merge_fields (match dst with Some (JObj dfs) => dfs | _ => [] end) sfs)).
Proof. reflexivity. Qed.

Lemma assoc_set_absent k v base :
  assoc_lookup k base = None -> assoc_set k v base = base ++ [(k, v)].
Proof.
  induction base as [|[k' v'] base IH]; [done |]. cbn.
  destruct (String.eqb k k'); [discriminate | intros H; by rewrite IH].
Qed.

Lemma assoc_lookup_app k l1 l2 :
  assoc_lookup k (l1 ++ l2) = match assoc_lookup k l1 with Some v => Some v | None => assoc_lookup k l2 end.
Proof. induction l1 as [|[k' v'] l1 IH]; [done |]. cbn. by destruct (String.eqb k k'). Qed.

Lemma assoc_lookup_not_in k l : k ∉ map fst l -> assoc_lookup k l = None.
Proof.
  induction l as [|[k' v'] l IH]; [done |]. cbn. rewrite elem_of_cons. intros Hk.
  destruct (String.eqb_spec k k') as [->|]; [naive_solver | apply IH; naive_solver].
Qed.

(** Merging fresh keys whose values copy to themselves appends them. *)
Lemma merge_fields_fresh base fs :
  NoDup (map fst fs) -> (forall k, k ∈ map fst fs -> assoc_lookup k base = None) ->
  Forall (fun kv => merge_value None kv.2 = Some kv.2) fs ->
  merge_fields base fs = base ++ fs.
Proof.
  revert base. induction fs as [|[k s] fs IH]; intros base Hnd Hfresh Hcl; [by rewrite app_nil_r |].
  cbn in Hnd |- *. apply NoDup_cons in Hnd as [Hk Hnd]. apply Forall_cons in Hcl as [Hs Hcl].
  rewrite Hfresh by (left). cbn in Hs. rewrite Hs, assoc_set_absent by (apply Hfresh; left).
  rewrite IH; [by rewrite <- app_assoc | done | | done].
  intros k' Hk'. rewrite assoc_lookup_app, Hfresh by (by right). cbn.
  destruct (String.eqb_spec k' k) as [->|]; [done | done].
Qed.

Lemma js_wf_obj fs :
  js_wf (JObj fs) = true <-> NoDup (map fst fs) /\ Forall (fun kv => js_wf kv.2 = true) fs.
Proof.
  cbn [js_wf]. rewrite andb_true_iff, bool_decide_eq_true. apply and_iff_compat_l.
  induction fs as [|[k x] fs IH]; cbn; [split; auto |]. by rewrite andb_true_iff, Forall_cons, IH.
Qed.

Lemma js_wf_arr xs : js_wf (JArr xs) = true <-> Forall (fun x => js_wf x = true) xs.
Proof.
  cbn [js_wf]. induction xs as [|x xs IH]; cbn; [split; auto |]. by rewrite andb_true_iff, Forall_cons, IH.
Qed.

(** [_.merge] copies a well-formed value into an absent key unchanged. *)
Lemma merge_value_clone v : js_wf v = true -> merge_value None v = Some v.
Proof.
  induction v as [| | | | | xs IH | fs IH | |] using jsval_ind'; intros Hwf; try reflexivity.
  - rewrite js_wf_arr in Hwf. cbn [merge_value]. do 2 f_equal.
    induction xs as [|x xs IHxs]; [done |]. apply Forall_cons in IH as [Hx IH], Hwf as [Hwx Hwf].
    cbn. rewrite (Hx Hwx). cbn. f_equal. by apply IHxs.
  - apply js_wf_obj in Hwf as [Hnd Hf]. rewrite merge_value_obj. do 2 f_equal.
    apply merge_fields_fresh; [done | done |].
    rewrite Forall_forall in IH, Hf |- *. intros kv Hin. by apply IH, Hf.
Qed.

(** Into a [null] (the default token) it writes any well-formed value
    but [undefined]. *)
Lemma merge_value_null v : js_wf v = true -> v <> JUndefined -> merge_value (Some JNull) v = Some v.
Proof. intros Hwf Hu. rewrite <- (merge_value_clone v Hwf). by destruct v. Qed.

(** ** Merging a source aligned with the destination's keys *)

(** The value at a key of the destination after merging the source's
    value there, if any. *)
Definition upd_val (old : jsval) (x : option jsval) : jsval :=
  match x with None => old | Some v => default old (merge_value (Some old) v) end.

Fixpoint upd_fields (base : list (string * jsval)) (xs : list (option jsval)) : list (string * jsval) :=
  match base, xs with
  | (k, d) :: base', x :: xs' => (k, upd_val d x) :: upd_fields base' xs'
  | _, _ => base
  end.

Lemma assoc_lookup_middle pre k d l :
  k ∉ map fst pre -> assoc_lookup k (pre ++ (k, d) :: l) = Some d.
Proof. intros Hk. rewrite assoc_lookup_app, assoc_lookup_not_in by done. cbn. by rewrite String.eqb_refl. Qed.

Lemma assoc_set_middle pre k d nv l :
  k ∉ map fst pre -> assoc_set k nv (pre ++ (k, d) :: l) = pre ++ (k, nv) :: l.
Proof.
  induction pre as [|[k' v'] pre IH]; cbn; [by rewrite String.eqb_refl |].
  rewrite elem_of_cons. intros Hk. destruct (String.eqb_spec k k'); [naive_solver |]. rewrite IH; naive_solver.
Qed.

Lemma keys_shift (pre l : list (string * jsval)) k (u d : jsval) :
  map fst ((pre ++ [(k, u)]) ++ l) = map fst (pre ++ (k, d) :: l).
Proof. by rewrite <- app_assoc, !map_app. Qed.

Lemma merge_fields_aligned_app pre base xs :
  NoDup (map fst (pre ++ base)) ->
  merge_fields (pre ++ base) (opt_fields (map fst base) xs) = pre ++ upd_fields base xs.
Proof.
  revert pre xs. induction base as [|[k d] base IH]; intros pre [|x xs] Hnd; cbn; try done.
  assert (Hk : k ∉ map fst pre).
  { rewrite map_app in Hnd. apply NoDup_app in Hnd as (_ & Hdis & _). intros Hin. apply (Hdis k Hin). left. }
  assert (Hshift : forall u, pre ++ (k, u) :: base = (pre ++ [(k, u)]) ++ base) by (intros; by rewrite <- app_assoc).
  assert (Hstep : forall u, merge_fields (pre ++ (k, u) :: base) (opt_fields (map fst base) xs) =
                           pre ++ (k, u) :: upd_fields base xs).
  { intros u. rewrite Hshift, IH by (by rewrite (keys_shift _ _ _ _ d)). by rewrite <- app_assoc. }
  destruct x as [v|]; cbn; [| apply Hstep].
  rewrite assoc_lookup_middle by done. destruct (merge_value (Some d) v) as [nv|]; cbn; [| apply Hstep].
  rewrite assoc_set_middle by done. apply Hstep.
Qed.

Lemma merge_fields_aligned base xs :
  NoDup (map fst base) -> merge_fields base (opt_fields (map fst base) xs) = upd_fields base xs.
Proof. apply (merge_fields_aligned_app []). Qed.

(** ** The three shapes of option *)

Lemma upd_val_str d x : upd_val (JStr d) (option_map JStr x) = JStr (default d x).
Proof. by destruct x. Qed.

Lemma upd_val_token x :
  (forall t, x = Some t -> js_wf t = true) -> upd_val JNull x = merge_val JNull x.
Proof.
  destruct x as [t|]; [intros Ht | done]. cbn.
  destruct (decide (t = JUndefined)) as [->|Hu]; [done |]. rewrite merge_value_null by auto. by destruct t.
Qed.

Lemma upd_val_errors e eo :
  upd_val (errors_to_js e) (option_map errors_over_to_js eo) = errors_to_js (merge_errors e (default no_errors_over eo)).
Proof. destruct e, eo as [[[] [] [] []]|]; reflexivity. Qed.

Lemma option_keys_nodup : NoDup (map fst (option_fields defaults)).
Proof. apply (bool_decide_unpack _). vm_compute. reflexivity. Qed.

(** ** The record merge is lodash's merge *)

(** C6: [this.options = _.merge({}, defaults, options)] (line 59): for
    every caller's options whose token is a value a caller can build (no
    object with a repeated key), the typed record [client_options] is,
    field by field and in the key order of [defaults], the object lodash's
    merge builds, the nested [errors] table included. *)
Theorem client_options_lodash o :
  (forall t, ov_token o = Some t -> js_wf t = true) ->
  options_to_js (client_options o) =
    js_merge (js_merge (JObj []) (options_to_js defaults)) (overrides_to_js o).
Proof.
  intros Ht.
  assert (Hclone : js_merge (JObj []) (options_to_js defaults) = options_to_js defaults) by reflexivity.
  rewrite Hclone. unfold js_merge, options_to_js at 2, overrides_to_js.
  rewrite merge_fields_aligned by exact option_keys_nodup.
  unfold option_fields. cbn [upd_fields].
  rewrite !upd_val_str, upd_val_errors, upd_val_token by exact Ht. reflexivity.
Qed.

(** ** Example *)

Definition env_token_overrides : overrides :=
  {| ov_action := None; ov_account := Some "acme"; ov_site_id := None;
     ov_token := Some (JObj [("refresh", JStr "r1"); ("ttl", JNum 60)]);
     ov_site_secure_code := None; ov_env := Some "test"; ov_returnType := None;
     ov_userAgent := None; ov_username := Some "u"; ov_password := Some "p";
     ov_ipaddress := None; ov_connectionstring := None;
     ov_errors := Some (mk_errors_over None (Some "no reject") None None);
     ov_compression := None; ov_responseType := None |}.

Lemma client_options_lodash_witness :
  (forall t, ov_token env_token_overrides = Some t -> js_wf t = true) /\
  options_to_js (client_options env_token_overrides) =
    js_merge (js_merge (JObj []) (options_to_js defaults)) (overrides_to_js env_token_overrides).
Proof.
  assert (H : forall t, ov_token env_token_overrides = Some t -> js_wf t = true)
    by (intros t Ht; injection Ht as <-; vm_compute; reflexivity).
  split; [exact H | exact (client_options_lodash env_token_overrides H)].
Defined.
