(* ===== verification/World.v ===== *)
(** * The state of one client and of the process around it

    [client] is the [Client] object (src/index.js 31-80): [this.models],
    [this.options], [this.url] and the capability instances stored under
    [self[name.toLowerCase()]].  [world] adds what the code shares with the
    rest of the process: the module's [exports] object (written by the
    registry loop, line 71), the promises created by [authenticate], the
    requests handed to the HTTP library and not yet answered, the console
    and whether the process is still running (an exception thrown in a
    response callback is uncaught and ends it).  [JS] is the monad in
    which the client's methods are written. *)

From S2P Require Import Prelude JsValue Promise Options.
Import Options.

(** A capability instance is identified by the constructor that built
    it; it holds the client only as the back-reference [self] (spec 3), so
    no state of its own is modelled. *)
Record client : Type := mk_client {
  c_models : list (string * jsval);
  c_options : options;
  c_url : string;
  c_caps : gmap string nat
}.

(** The [headers] object of [post] (lines 109-113). *)
Record headers : Type := mk_headers {
  h_content_type : string;
  h_content_length : Z;
  h_connection : string
}.

(** The argument of [request(...)] (lines 107-117); [rq_promise] names
    the promise whose [resolve]/[reject] the callback was given. *)
Record request : Type := mk_request {
  rq_url : string;
  rq_headers : headers;
  rq_encoding : string;
  rq_method : string;
  rq_body : string;
  rq_promise : nat
}.

Record world : Type := mk_world {
  w_client : client;
  w_exports : gmap string jsval;
  w_promises : promise_store;
  w_inflight : list request;
  w_next : nat;
  w_log : list string;
  w_alive : bool
}.

Abbreviation JS := (stM world jsval).

(** ** Updates of the world, one field at a time *)

Definition w_map_client (f : client -> client) (w : world) : world :=
  mk_world (f (w_client w)) (w_exports w) (w_promises w) (w_inflight w) (w_next w) (w_log w) (w_alive w).
Definition w_map_exports (f : gmap string jsval -> gmap string jsval) (w : world) : world :=
  mk_world (w_client w) (f (w_exports w)) (w_promises w) (w_inflight w) (w_next w) (w_log w) (w_alive w).
Definition w_map_promises (f : promise_store -> promise_store) (w : world) : world :=
  mk_world (w_client w) (w_exports w) (f (w_promises w)) (w_inflight w) (w_next w) (w_log w) (w_alive w).
Definition w_set_inflight (l : list request) (w : world) : world :=
  mk_world (w_client w) (w_exports w) (w_promises w) l (w_next w) (w_log w) (w_alive w).
Definition w_set_next (n : nat) (w : world) : world :=
  mk_world (w_client w) (w_exports w) (w_promises w) (w_inflight w) n (w_log w) (w_alive w).
Definition w_add_log (line : string) (w : world) : world :=
  mk_world (w_client w) (w_exports w) (w_promises w) (w_inflight w) (w_next w) (w_log w ++ [line]) (w_alive w).
Definition w_crash (w : world) : world :=
  mk_world (w_client w) (w_exports w) (w_promises w) (w_inflight w) (w_next w) (w_log w) false.

Definition c_map_options (f : options -> options) (c : client) : client :=
  mk_client (c_models c) (f (c_options c)) (c_url c) (c_caps c).
Definition c_add_cap (k : string) (i : nat) (c : client) : client :=
  mk_client (c_models c) (c_options c) (c_url c) (<[k := i]> (c_caps c)).

(** The client's options, and the assignments to them. *)
Definition w_options (w : world) : options := c_options (w_client w).
Definition w_map_options (f : options -> options) : world -> world :=
  w_map_client (c_map_options f).

(** ** Primitive statements *)

(** [console.log(line)]. *)
Definition console_log (line : string) : JS unit := st_modify (w_add_log line).

(** Reading [this.options]. *)
Definition get_options : JS options := w ← st_get; mret (w_options w).

(** ** Projections of the updates *)

Lemma w_options_map f w : w_options (w_map_options f w) = f (w_options w).
Proof. reflexivity. Qed.
Lemma w_options_add_log l w : w_options (w_add_log l w) = w_options w.
Proof. reflexivity. Qed.
Lemma w_options_map_promises f w : w_options (w_map_promises f w) = w_options w.
Proof. reflexivity. Qed.
Lemma w_options_set_inflight l w : w_options (w_set_inflight l w) = w_options w.
Proof. reflexivity. Qed.
Lemma w_options_set_next n w : w_options (w_set_next n w) = w_options w.
Proof. reflexivity. Qed.
Lemma w_options_crash w : w_options (w_crash w) = w_options w.
Proof. reflexivity. Qed.

#[export] Hint Rewrite w_options_map w_options_add_log w_options_map_promises
  w_options_set_inflight w_options_set_next w_options_crash : naiton_world.

(** The world before any client exists: an empty console and no
    promise. *)
Definition init_world : world :=
  mk_world (mk_client [] Options.defaults "" ∅) ∅ ∅ [] 0 [] true.

Lemma w_promises_map f w : w_promises (w_map_promises f w) = f (w_promises w).
Proof. reflexivity. Qed.
Lemma w_promises_map_options f w : w_promises (w_map_options f w) = w_promises w.
Proof. reflexivity. Qed.
Lemma w_promises_add_log l w : w_promises (w_add_log l w) = w_promises w.
Proof. reflexivity. Qed.
Lemma w_promises_set_inflight l w : w_promises (w_set_inflight l w) = w_promises w.
Proof. reflexivity. Qed.
Lemma w_promises_crash w : w_promises (w_crash w) = w_promises w.
Proof. reflexivity. Qed.

#[export] Hint Rewrite w_promises_map w_promises_map_options w_promises_add_log
  w_promises_set_inflight w_promises_crash : naiton_world.

Lemma w_caps_map_options f w : c_caps (w_client (w_map_options f w)) = c_caps (w_client w).
Proof. reflexivity. Qed.
Lemma w_caps_map_promises f w : c_caps (w_client (w_map_promises f w)) = c_caps (w_client w).
Proof. reflexivity. Qed.
Lemma w_caps_set_next n w : c_caps (w_client (w_set_next n w)) = c_caps (w_client w).
Proof. reflexivity. Qed.
Lemma w_caps_set_inflight l w : c_caps (w_client (w_set_inflight l w)) = c_caps (w_client w).
Proof. reflexivity. Qed.
Lemma w_caps_add_log l w : c_caps (w_client (w_add_log l w)) = c_caps (w_client w).
Proof. reflexivity. Qed.

#[export] Hint Rewrite w_caps_map_options w_caps_map_promises w_caps_set_next
  w_caps_set_inflight w_caps_add_log : naiton_world.
