(* ===== verification/Registry.v ===== *)
(** * The client constructor and the capability registry
    (src/index.js 17, 31-90)

    [new Client(options)] builds the options and the URL, then, for every
    name of [components] in order, runs

      [exports[component] = require('./components/' + component.toLowerCase())[component];]
      [self[component.toLowerCase()] = new exports[component](self);]

    inside [try ... catch (e) { console.log('Cant find file: ' + component + ' - ' + e); }].
    Node's module system and the capability constructors are not part of
    the sources: they are the [ModuleLoader] interface below, and every
    theorem holds for any loader. *)

From S2P Require Import Prelude JsValue Promise Options World.
Import Options.

(** ** What the registry needs from Node *)

Class ModuleLoader : Type := {
  (** [require(path)]: the module's [exports] object, or the error thrown
      when the module cannot be found or fails to load. *)
  require_module : string -> outcome jsval jsval;
  (** [new F(self)] for the function [F] of the given id: [Some e] when
      the constructor throws [e]. *)
  construct : nat -> option jsval
}.

(** ** [String.prototype.toLowerCase] on 8-bit characters
    (A-Z and the Latin-1 capitals 192-222 except 215). *)
Definition ascii_to_lower (c : ascii) : ascii :=
  let n := nat_of_ascii c in
  if ((65 <=? n) && (n <=? 90)) || ((192 <=? n) && (n <=? 222) && negb (n =? 215))
  then ascii_of_nat (n + 32) else c.

Fixpoint to_lower (s : string) : string :=
  match s with
  | EmptyString => EmptyString
  | String c s' => String (ascii_to_lower c) (to_lower s')
  end.

(** [components] (line 17). *)
Definition components : list string :=
  ["Base64"; "Clientmanager"; "Businessmanager"; "Employeemanager"; "Brandmanager"; "Rolemanager"].

Section Registry.
Context {L : ModuleLoader}.

(** [new f(self)]: a value that is not a function is not a
    constructor. *)
Definition js_new (f : jsval) : outcome jsval nat :=
  match f with
  | JFun id => match construct id with Some e => Thrown e | None => Normal id end
  | _ => Thrown (type_error "exports[component] is not a constructor")
  end.

(** The body of the [try] (lines 70-72). *)
Definition load_component (component : string) : JS unit :=
  m ← st_lift (require_module ("./components/" +:+ to_lower component));
  ctor ← st_lift (m.[component]);
  st_modify (w_map_exports (insert component ctor));;
  inst ← st_lift (js_new ctor);
  st_modify (w_map_client (c_add_cap (to_lower component) inst)).

(** The line the [catch] logs (line 75). *)
Definition cant_find (component : string) (e : jsval) : string :=
  "Cant find file: " +:+ component +:+ " - " +:+ to_str e.

(** One iteration of the loop (lines 68-77). *)
Definition register_component (component : string) : JS unit :=
  st_catch (load_component component) (fun e => console_log (cant_find component e)).

(** [new Client(options)] (lines 31-80): [this.models = {}], the merged
    options, the URL chosen from the merged [env], then the loop. *)
Definition Client (o : overrides) : JS unit :=
  st_modify (w_map_client (fun _ =>
    let opts := client_options o in
    mk_client [] opts (service_url (env opts)) ∅));;
  st_for_each register_component components.

(** [module.exports.createClient] (lines 88-90). *)
Definition createClient (o : overrides) : JS unit := Client o.

(** The value [exports[component]] receives, and the instance stored
    under the lower-cased name, when each step succeeds. *)
Definition component_export (component : string) : outcome jsval jsval :=
  match require_module ("./components/" +:+ to_lower component) with
  | Normal m => m.[component]
  | Thrown e => Thrown e
  end.

Definition component_instance (component : string) : outcome jsval nat :=
  match component_export component with
  | Normal f => js_new f
  | Thrown e => Thrown e
  end.

(** ** One iteration *)

Lemma run_register_component c w :
  run (register_component c) w =
    (Normal tt,
     match component_export c with
     | Thrown e => w_add_log (cant_find c e) w
     | Normal f =>
         let w1 := w_map_exports (insert c f) w in
         match js_new f with
         | Thrown e => w_add_log (cant_find c e) w1
         | Normal i => w_map_client (c_add_cap (to_lower c) i) w1
         end
     end).
Proof.
  unfold register_component, load_component, component_export. st_simpl.
  destruct (require_module _) as [m|e]; [| done].
  destruct (m.[c]) as [f|e]; [| done]. cbn.
  by destruct (js_new f).
Qed.

Lemma register_caps c w :
  c_caps (w_client (snd (run (register_component c) w))) =
    match component_instance c with
    | Normal i => <[to_lower c := i]> (c_caps (w_client w))
    | Thrown _ => c_caps (w_client w)
    end.
Proof.
  rewrite run_register_component. unfold component_instance.
  destruct (component_export c) as [f|e]; [cbn; by destruct (js_new f) | done].
Qed.

Lemma register_log c w :
  w_log (snd (run (register_component c) w)) =
    w_log w ++ match component_instance c with
               | Normal _ => []
               | Thrown e => [cant_find c e]
               end.
Proof.
  rewrite run_register_component. unfold component_instance.
  destruct (component_export c) as [f|e]; [cbn; destruct (js_new f) | done].
  - by rewrite app_nil_r.
  - done.
Qed.

Lemma register_exports c w :
  w_exports (snd (run (register_component c) w)) =
    match component_export c with
    | Normal f => <[c := f]> (w_exports w)
    | Thrown _ => w_exports w
    end.
Proof.
  rewrite run_register_component.
  destruct (component_export c) as [f|e]; [cbn; by destruct (js_new f) | done].
Qed.

(** ** The loop *)

Lemma run_for_each_register_cons c l w :
  run (st_for_each register_component (c :: l)) w =
    run (st_for_each register_component l) (snd (run (register_component c) w)).
Proof. by rewrite run_for_each_cons, run_register_component. Qed.

Lemma run_for_each_register l w :
  fst (run (st_for_each register_component l) w) = Normal tt.
Proof.
  revert w. induction l as [|c l IH]; intros w; [done |].
  rewrite run_for_each_cons, run_register_component. apply IH.
Qed.

(** The component of the list that owns a lower-cased key. *)
Fixpoint lookup_component (l : list string) (k : string) : option string :=
  match l with
  | [] => None
  | c :: l' => if String.eqb (to_lower c) k then Some c else lookup_component l' k
  end.

Definition loaded (c : string) : bool :=
  match component_instance c with Normal _ => true | Thrown _ => false end.

Lemma lookup_component_none l k : k ∉ map to_lower l -> lookup_component l k = None.
Proof.
  induction l as [|c l IH]; intros Hk; [done |]. cbn.
  destruct (String.eqb_spec (to_lower c) k) as [<-|_]; [set_solver |].
  apply IH. set_solver.
Qed.

Lemma lookup_component_elem l c :
  NoDup (map to_lower l) -> c ∈ l -> lookup_component l (to_lower c) = Some c.
Proof.
  induction l as [|c' l IH]; intros Hnd Hc; [set_solver |].
  cbn [map] in Hnd. apply NoDup_cons in Hnd as [Hc' Hnd]. cbn.
  destruct (String.eqb_spec (to_lower c') (to_lower c)) as [Heq|Hne].
  - apply elem_of_cons in Hc as [->|Hc]; [done |].
    exfalso. apply Hc'. rewrite Heq. by apply list_elem_of_fmap_2.
  - apply IH; [done |]. apply elem_of_cons in Hc as [->|Hc]; [done | done].
Qed.

Lemma for_each_register_caps l w k :
  NoDup (map to_lower l) ->
  c_caps (w_client (snd (run (st_for_each register_component l) w))) !! k =
    match lookup_component l k with
    | Some c => match component_instance c with
                | Normal i => Some i
                | Thrown _ => c_caps (w_client w) !! k
                end
    | None => c_caps (w_client w) !! k
    end.
Proof.
  revert w. induction l as [|c l IH]; intros w Hnd; [done |].
  cbn [map] in Hnd. apply NoDup_cons in Hnd as [Hc Hnd].
  rewrite run_for_each_register_cons, IH, register_caps by done. cbn [lookup_component].
  destruct (String.eqb_spec (to_lower c) k) as [<-|Hne].
  - rewrite lookup_component_none by done.
    destruct (component_instance c); [by rewrite lookup_insert_eq | done].
  - destruct (component_instance c); [| done].
    rewrite lookup_insert_ne by done. done.
Qed.

Lemma for_each_register_log l w :
  length (w_log (snd (run (st_for_each register_component l) w))) =
    length (w_log w) + length (List.filter (fun c => negb (loaded c)) l).
Proof.
  revert w. induction l as [|c l IH]; intros w; [simpl; lia |].
  rewrite run_for_each_register_cons, IH, register_log, length_app. unfold loaded.
  cbn [List.filter]. destruct (component_instance c); cbn; lia.
Qed.

Lemma for_each_register_size l w :
  NoDup (map to_lower l) ->
  (forall c, c ∈ l -> c_caps (w_client w) !! to_lower c = None) ->
  size (c_caps (w_client (snd (run (st_for_each register_component l) w)))) =
    size (c_caps (w_client w)) + length (List.filter loaded l).
Proof.
  revert w. induction l as [|c l IH]; intros w Hnd Hfresh; [simpl; lia |].
  cbn [map] in Hnd. apply NoDup_cons in Hnd as [Hc Hnd].
  rewrite run_for_each_register_cons, IH, register_caps; [| done |].
  - cbn [List.filter]. unfold loaded. destruct (component_instance c); cbn; [| lia].
    rewrite map_size_insert_None by (apply Hfresh; set_solver). lia.
  - intros c' Hc'. rewrite register_caps.
    assert (to_lower c <> to_lower c') by (intros Heq; apply Hc; rewrite Heq; by apply list_elem_of_fmap_2).
    destruct (component_instance c); [rewrite lookup_insert_ne by done |]; apply Hfresh; set_solver.
Qed.

Lemma for_each_register_exports_other l w c :
  c ∉ l -> w_exports (snd (run (st_for_each register_component l) w)) !! c = w_exports w !! c.
Proof.
  revert w. induction l as [|c' l IH]; intros w Hc; [done |].
  rewrite run_for_each_register_cons, IH by set_solver. rewrite register_exports.
  destruct (component_export c'); [| done]. rewrite lookup_insert_ne; set_solver.
Qed.

Lemma for_each_register_exports l w c f :
  NoDup l -> c ∈ l -> component_export c = Normal f ->
  w_exports (snd (run (st_for_each register_component l) w)) !! c = Some f.
Proof.
  revert w. induction l as [|c' l IH]; intros w Hnd Hc Hf; [set_solver |].
  apply NoDup_cons in Hnd as [Hc' Hnd].
  rewrite run_for_each_register_cons.
  destruct (decide (c = c')) as [<-|Hne]; [| apply IH; set_solver].
  rewrite for_each_register_exports_other, register_exports, Hf by done.
  apply lookup_insert_eq.
Qed.

Lemma register_log_prefix c w : w_log w `prefix_of` w_log (snd (run (register_component c) w)).
Proof. rewrite register_log. by apply prefix_app_r. Qed.

Lemma for_each_register_log_prefix l w :
  w_log w `prefix_of` w_log (snd (run (st_for_each register_component l) w)).
Proof.
  revert w. induction l as [|c l IH]; intros w; [done |].
  rewrite run_for_each_register_cons. etrans; [apply register_log_prefix | apply IH].
Qed.

Lemma for_each_register_logs_failure l w c e :
  c ∈ l -> component_instance c = Thrown e ->
  cant_find c e ∈ w_log (snd (run (st_for_each register_component l) w)).
Proof.
  revert w. induction l as [|c' l IH]; intros w Hc He; [set_solver |].
  rewrite run_for_each_register_cons.
  apply elem_of_cons in Hc as [<-|Hc]; [| by apply IH].
  eapply elem_of_prefix; [| apply for_each_register_log_prefix].
  rewrite register_log, He. set_solver.
Qed.

Lemma register_client_fields c w :
  c_options (w_client (snd (run (register_component c) w))) = c_options (w_client w) /\
  c_url (w_client (snd (run (register_component c) w))) = c_url (w_client w).
Proof.
  rewrite run_register_component. cbn [snd].
  destruct (component_export c) as [f|]; [destruct (js_new f)|]; done.
Qed.

Lemma for_each_register_client_fields l w :
  c_options (w_client (snd (run (st_for_each register_component l) w))) = c_options (w_client w) /\
  c_url (w_client (snd (run (st_for_each register_component l) w))) = c_url (w_client w).
Proof.
  revert w. induction l as [|c l IH]; intros w; [done |].
  rewrite run_for_each_register_cons. destruct (IH (snd (run (register_component c) w))) as [-> ->].
  apply register_client_fields.
Qed.
End Registry.

Lemma components_lower_NoDup : NoDup (map to_lower components).
Proof. apply (bool_decide_unpack _). vm_compute. reflexivity. Qed.

Lemma components_NoDup : NoDup components.
Proof. apply (bool_decide_unpack _). vm_compute. reflexivity. Qed.

Section ClientTheorems.
Context {L : ModuleLoader}.

Lemma run_Client o w :
  run (Client o) w =
    run (st_for_each register_component components)
      (w_map_client (fun _ => mk_client [] (client_options o)
                                 (service_url (env (client_options o))) ∅) w).
Proof. reflexivity. Qed.

(** C21: Constructing a client never throws, whatever the loader does
    (spec 4.4: a missing capability must never abort construction). *)
Theorem Client_completes o w : fst (run (Client o) w) = Normal tt.
Proof. rewrite run_Client. apply run_for_each_register. Qed.

(** C22: After construction, the capability stored under a key is the
    instance built for the component whose lower-cased name is that key,
    when every step of its loading succeeded; there is nothing under any
    other key. *)
Theorem Client_caps o w k :
  c_caps (w_client (snd (run (Client o) w))) !! k =
    match lookup_component components k with
    | Some c => match component_instance c with
                | Normal i => Some i
                | Thrown _ => None
                end
    | None => None
    end.
Proof.
  rewrite run_Client, for_each_register_caps by apply components_lower_NoDup.
  destruct (lookup_component _ _) as [c|]; [destruct (component_instance c)|]; done.
Qed.

(** C24: Every component is accounted for exactly once: it is either a
    capability of the client or one ["Cant find file"] line of the
    console. *)
Theorem Client_accounts o w :
  size (c_caps (w_client (snd (run (Client o) w)))) +
    (length (w_log (snd (run (Client o) w))) - length (w_log w)) = length components.
Proof.
  rewrite run_Client, for_each_register_size, for_each_register_log; cbn [w_log w_map_client w_client c_caps].
  - rewrite map_size_empty.
    pose proof (List.filter_length loaded components) as Hc. lia.
  - apply components_lower_NoDup.
  - intros c _. apply lookup_empty.
Qed.
End ClientTheorems.

Section ClientFailures.
Context {L : ModuleLoader}.

(** C23: A component whose module loads but whose export is not a
    constructor (or whose constructor throws) is logged and left out of
    the client, yet [exports[component]] has already been overwritten
    with the value the module had (possibly [undefined]). *)
Theorem Client_failed_component o w c f e :
  c ∈ components -> component_export c = Normal f -> js_new f = Thrown e ->
  w_exports (snd (run (Client o) w)) !! c = Some f /\
  c_caps (w_client (snd (run (Client o) w))) !! to_lower c = None /\
  cant_find c e ∈ w_log (snd (run (Client o) w)).
Proof.
  intros Hc Hf He.
  assert (Hi : component_instance c = Thrown e) by (unfold component_instance; by rewrite Hf).
  split; [| split].
  - rewrite run_Client. apply for_each_register_exports; [apply components_NoDup | done | done].
  - rewrite run_Client, for_each_register_caps by apply components_lower_NoDup.
    rewrite lookup_component_elem, Hi; [done | apply components_lower_NoDup | done].
  - rewrite run_Client. by apply for_each_register_logs_failure.
Qed.
End ClientFailures.

Section ClientOptions.
Context {L : ModuleLoader}.

(** The options and the URL the constructor sets (lines 59-65). *)
Lemma Client_fields o w :
  w_options (snd (run (Client o) w)) = client_options o /\
  c_url (w_client (snd (run (Client o) w))) = service_url (env (client_options o)).
Proof.
  unfold w_options. rewrite run_Client.
  destruct (for_each_register_client_fields components
              (w_map_client (fun _ => mk_client [] (client_options o)
                                        (service_url (env (client_options o))) ∅) w)) as [-> ->].
  done.
Qed.

(** The constructed client runs on the caller's options merged over
    the defaults, and its URL is ["http://webservice.naiton.com"] whatever
    [env] is: the [test] branch (line 62) selects the production URL. *)
Theorem Client_options_url o w :
  w_options (snd (run (Client o) w)) = client_options o /\
  c_url (w_client (snd (run (Client o) w))) = "http://webservice.naiton.com".
Proof.
  destruct (Client_fields o w) as [-> ->].
  split; [done |]. unfold service_url. by destruct (String.eqb _ _).
Qed.
End ClientOptions.

(** ** A loader for the witnesses: [Base64] resolves, the client manager's
    module exports nothing under its name, the other modules are missing. *)
Module DemoLoader.
Definition demo_require (p : string) : outcome jsval jsval :=
  if String.eqb p "./components/base64" then Normal (JObj [("Base64", JFun 0)])
  else if String.eqb p "./components/clientmanager" then Normal (JObj [])
  else Thrown (JError "Error" ("Cannot find module '" +:+ p +:+ "'")).

#[export] Instance demo_loader : ModuleLoader :=
  {| require_module := demo_require; construct _ := None |}.
End DemoLoader.

Lemma Client_failed_component_witness :
  "Clientmanager" ∈ components /\
  @component_export DemoLoader.demo_loader "Clientmanager" = Normal JUndefined /\
  @js_new DemoLoader.demo_loader JUndefined = Thrown (type_error "exports[component] is not a constructor") /\
  (w_exports (snd (run (@Client DemoLoader.demo_loader no_overrides) init_world)) !! "Clientmanager" = Some JUndefined /\
   c_caps (w_client (snd (run (@Client DemoLoader.demo_loader no_overrides) init_world))) !! to_lower "Clientmanager" = None /\
   cant_find "Clientmanager" (type_error "exports[component] is not a constructor")
     ∈ w_log (snd (run (@Client DemoLoader.demo_loader no_overrides) init_world))).
Proof.
  assert (Hc : "Clientmanager" ∈ components) by (apply (bool_decide_unpack _); vm_compute; reflexivity).
  split; [exact Hc |]. split; [reflexivity |]. split; [reflexivity |].
  apply (@Client_failed_component DemoLoader.demo_loader); [exact Hc | reflexivity | reflexivity].
Defined.
