(* ===== verification/Envelope.v ===== *)
(** * The [InitializeSession] envelope (src/index.js 169-188)

    [authenticate] builds its request body by string concatenation: the
    login, the ip address and the connection string go through
    [this.base64.encode], the password is inserted as it is, the timeout is
    the constant [20], and an [_options] block declares, per argument, the
    encoding flag ([1] base64, [0] plain).  No value is escaped.

    To state what the server reads, [arg_value tag body] is the text
    between the first [<tag>] of the body and the first [</tag>] after it:
    the way a reader of the flat routine format finds an argument.  The
    base64 alphabet has no [<], so the encoded arguments are always read
    back as sent; the password is read back only when it has no [<], and
    a password can change what the server reads as another argument. *)

From S2P Require Import Prelude Base64 Options.
Import Options.

Definition initialize_session_path : string := "/service/initializesession".

(** The double-quote character, and one [_encoding] line of the
    [_options] block (lines 181-184), e.g.
    [<_encoding field="login" isentry="1">1</_encoding>]. *)
Definition dq : string := String "034"%char EmptyString.

Definition encoding_entry (field flag : string) : string :=
  "<_encoding field=" +:+ dq +:+ field +:+ dq +:+ " isentry=" +:+ dq +:+ "1" +:+ dq +:+ ">" +:+
  flag +:+ "</_encoding>".

(** The body (lines 169-188), from the values of its four computed
    pieces: the encoded login, the password, the encoded ip address and
    the encoded connection string. *)
Definition session_body (login pw ip cs : string) : string :=
  "" +:+
  "<_routines>" +:+
  "<_routine>" +:+
  "<_name>InitializeSession</_name>" +:+
  "<_arguments>" +:+
  "<login>" +:+ login +:+ "</login>" +:+
  "<password>" +:+ pw +:+ "</password>" +:+
  "<ipaddress>" +:+ ip +:+ "</ipaddress>" +:+
  "<timeout>20</timeout>" +:+
  "<connectionstring>" +:+ cs +:+ "</connectionstring>" +:+
  "</_arguments>" +:+
  "<_options>" +:+
  encoding_entry "login" "1" +:+
  encoding_entry "password" "0" +:+
  encoding_entry "ipaddress" "1" +:+
  encoding_entry "connectionstring" "1" +:+
  "</_options>" +:+
  "</_routine>" +:+
  "<_returnType>json</_returnType>" +:+
  "</_routines>".

(** The body for the options [o] and the encoder [enc] the [base64]
    capability provides. *)
Definition initialize_session_body (enc : string -> string) (o : options) : string :=
  session_body (enc (username o)) (password o) (enc (ipaddress o)) (enc (connectionstring o)).

(** ** Reading an argument back *)

Fixpoint starts_with (m s : string) : bool :=
  match m, s with
  | EmptyString, _ => true
  | String a m', String b s' => Ascii.eqb a b && starts_with m' s'
  | String _ _, EmptyString => false
  end.

Fixpoint drop_chars (n : nat) (s : string) : string :=
  match n, s with
  | O, _ => s
  | S n', String _ s' => drop_chars n' s'
  | S _, EmptyString => EmptyString
  end.

(** The text before the first occurrence of [m] in [s], and the text
    after it. *)
Fixpoint split_at (m s : string) : option (string * string) :=
  if starts_with m s then Some (EmptyString, drop_chars (String.length m) s)
  else match s with
       | EmptyString => None
       | String c s' => (fun '(a, b) => (String c a, b)) <$> split_at m s'
       end.

(** The value of argument [tag]: from the first [<tag>] to the first
    [</tag>] after it. *)
Definition arg_value (tag body : string) : option string :=
  match split_at ("<" +:+ tag +:+ ">") body with
  | Some (_, rest) => fst <$> split_at ("</" +:+ tag +:+ ">") rest
  | None => None
  end.

(** [clashes m t]: [m] and [t] differ at a position both have, so no
    occurrence of [m] starts at the beginning of [t ++ x], whatever [x]. *)
Fixpoint clashes (m t : string) : bool :=
  match m, t with
  | String a m', String b t' => negb (Ascii.eqb a b) || clashes m' t'
  | _, _ => false
  end.

(** [avoids m a]: no occurrence of [m] starts inside [a], whatever
    follows [a]. *)
Fixpoint avoids (m a : string) : bool :=
  match a with
  | EmptyString => true
  | String c a' => clashes m a && avoids m a'
  end.

Lemma starts_with_app m b : starts_with m (m +:+ b) = true.
Proof.
  induction m as [|c m IH]; [done |]. rewrite append_cons_s. cbn.
  by rewrite Ascii.eqb_refl, IH.
Qed.

Lemma drop_chars_app m b : drop_chars (String.length m) (m +:+ b) = b.
Proof. induction m as [|c m IH]; [done |]. rewrite append_cons_s. cbn. apply IH. Qed.

Lemma clashes_starts_with m t x : clashes m t = true -> starts_with m (t +:+ x) = false.
Proof.
  revert t. induction m as [|a m IH]; intros [|b t] H; try discriminate.
  rewrite append_cons_s. cbn in *.
  destruct (Ascii.eqb a b); cbn in *; [by apply IH | done].
Qed.

Lemma clashes_app m t x : clashes m t = true -> clashes m (t +:+ x) = true.
Proof.
  revert t. induction m as [|a m IH]; intros [|b t] H; try discriminate.
  rewrite append_cons_s. cbn in *.
  destruct (Ascii.eqb a b); cbn in *; [by apply IH | done].
Qed.

Lemma split_at_unfold m s :
  split_at m s =
    if starts_with m s then Some (EmptyString, drop_chars (String.length m) s)
    else match s with
         | EmptyString => None
         | String c s' => (fun '(a, b) => (String c a, b)) <$> split_at m s'
         end.
Proof. by destruct s. Qed.

Lemma split_at_here m b : split_at m (m +:+ b) = Some (EmptyString, b).
Proof. by rewrite split_at_unfold, starts_with_app, drop_chars_app. Qed.

Lemma starts_with_prefix m a s :
  starts_with m a = true ->
  starts_with m (a +:+ s) = true /\
  drop_chars (String.length m) (a +:+ s) = drop_chars (String.length m) a +:+ s.
Proof.
  revert a. induction m as [|c m IH]; intros [|d a] H; try discriminate; [done | done |].
  cbn [starts_with] in H. apply andb_prop in H as [Hc H].
  rewrite append_cons_s. cbn [starts_with drop_chars String.length].
  destruct (IH a H) as [-> ->]. by rewrite Hc.
Qed.

Lemma split_at_prefix m a s :
  starts_with m a = true ->
  split_at m (a +:+ s) = Some (EmptyString, drop_chars (String.length m) a +:+ s).
Proof.
  intros H. destruct (starts_with_prefix m a s H) as [H1 H2].
  by rewrite split_at_unfold, H1, H2.
Qed.

Lemma split_at_length m a x y :
  split_at m a = Some (x, y) -> String.length m <= String.length a.
Proof.
  revert x y. induction a as [|c a IH]; intros x y H; rewrite split_at_unfold in H.
  - destruct m; [cbn; lia | discriminate].
  - destruct (starts_with m (String c a)) eqn:Hs.
    + clear -Hs. revert c a Hs. induction m as [|d m IHm]; intros c a Hs; cbn; [lia |].
      cbn in Hs. apply andb_prop in Hs as [_ Hs].
      destruct a as [|c' a]; [destruct m; [cbn; lia | discriminate] |].
      specialize (IHm c' a Hs). cbn in *. lia.
    + destruct (split_at m a) as [[x' y']|] eqn:E; [| discriminate].
      specialize (IH x' y' eq_refl). cbn. lia.
Qed.

Lemma starts_with_false_app m a s :
  starts_with m a = false -> String.length m <= String.length a ->
  starts_with m (a +:+ s) = false.
Proof.
  revert a. induction m as [|d m IH]; intros [|c a] H Hl; cbn in *; try done; try lia.
  rewrite append_cons_s. cbn. destruct (Ascii.eqb d c); [| done].
  apply IH; [done | lia].
Qed.

(** An occurrence of the marker found inside [a] is the first one in
    [a ++ s] too. *)
Lemma split_at_inside m a s x y :
  split_at m a = Some (x, y) -> split_at m (a +:+ s) = Some (x, y +:+ s).
Proof.
  revert x y. induction a as [|c a IH]; intros x y H.
  - rewrite split_at_unfold in H. destruct m; [| discriminate].
    injection H as <- <-. by rewrite append_nil_s, split_at_unfold.
  - pose proof (split_at_length _ _ _ _ H) as Hl.
    rewrite split_at_unfold in H. rewrite split_at_unfold.
    destruct (starts_with m (String c a)) eqn:Hs.
    + destruct (starts_with_prefix m (String c a) s Hs) as [-> ->]. by injection H as <- <-.
    + rewrite starts_with_false_app by done. rewrite append_cons_s.
      destruct (split_at m a) as [[x' y']|] eqn:E; [| discriminate].
      injection H as <- <-. by rewrite (IH x' y').
Qed.

Lemma split_at_skip m a s :
  avoids m a = true ->
  split_at m (a +:+ s) = (fun '(x, y) => (a +:+ x, y)) <$> split_at m s.
Proof.
  induction a as [|c a IH]; intros Ha.
  - rewrite append_nil_s. by destruct (split_at m s) as [[x y]|].
  - cbn [avoids] in Ha. apply andb_prop in Ha as [Hc Ha].
    rewrite split_at_unfold, (clashes_starts_with m (String c a) s Hc), append_cons_s.
    rewrite IH by done. by destruct (split_at m s) as [[x y]|].
Qed.

Lemma avoids_app m a b : avoids m a = true -> avoids m b = true -> avoids m (a +:+ b) = true.
Proof.
  induction a as [|c a IH]; intros Ha Hb; [done |].
  rewrite append_cons_s. cbn in *. apply andb_prop in Ha as [Hc Ha].
  rewrite <- append_cons_s, clashes_app, IH by done. done.
Qed.

(** A text with no [<] avoids every marker that starts with [<]. *)
Definition no_lt (s : string) : bool := str_forallb (fun c => negb (Ascii.eqb c "<"%char)) s.

Lemma avoids_no_lt m a : no_lt a = true -> avoids (String "<"%char m) a = true.
Proof.
  induction a as [|c a IH]; intros Ha; [done |].
  cbn [avoids clashes no_lt str_forallb] in *. unfold no_lt in *. cbn [str_forallb] in *.
  apply andb_prop in Ha as [Hc Ha]. rewrite IH by done.
  destruct (Ascii.eqb_spec "<"%char c) as [<-|]; [by rewrite Ascii.eqb_refl in Hc | done].
Qed.

Lemma b64_no_lt s : str_forallb b64_char s = true -> no_lt s = true.
Proof.
  induction s as [|c s IH]; intros Hs; [done |]. unfold no_lt in *. cbn [str_forallb] in *.
  apply andb_prop in Hs as [Hc Hs]. rewrite IH by done.
  destruct (Ascii.eqb_spec c "<"%char) as [->|]; [discriminate | done].
Qed.

(** [skip_chunk] moves the search for a marker past one piece of the body:
    a literal piece is checked by computation, a piece made by the base64
    encoder or a password without [<] by the lemmas above. *)
Ltac skip_chunk :=
  first
    [ rewrite split_at_skip by (vm_compute; reflexivity)
    | rewrite split_at_skip by (apply avoids_no_lt, b64_no_lt, encode_alphabet)
    | rewrite split_at_skip by (apply avoids_no_lt; assumption) ].

Ltac found_marker :=
  first [ rewrite split_at_here
        | rewrite split_at_prefix by (vm_compute; reflexivity);
          match goal with
          | |- context [drop_chars ?n ?a] =>
              let r := eval vm_compute in (drop_chars n a) in change (drop_chars n a) with r
          end
        | match goal with
          | |- context [split_at ?m (?a +:+ ?s)] =>
              let r := eval vm_compute in (split_at m a) in
              match r with
              | Some (?x, ?y) => rewrite (split_at_inside m a s x y) by (vm_compute; reflexivity)
              end
          end ].

Ltac read_arg :=
  unfold arg_value, initialize_session_body, session_body;
  repeat skip_chunk; found_marker; cbn [fmap option_fmap option_map];
  repeat skip_chunk; found_marker; cbn [fmap option_fmap option_map fst];
  rewrite ?append_nil_r_s.

(** ** The encoded arguments are read back as sent *)

(** C25: When the password has no [<], every argument of the envelope is
    read back as [authenticate] meant it: the login, the ip address and
    the connection string base64-encoded, the password as it is, the
    timeout [20]. *)
Theorem envelope_args o :
  no_lt (password o) = true ->
  arg_value "login" (initialize_session_body Base64.encode o) = Some (Base64.encode (username o)) /\
  arg_value "password" (initialize_session_body Base64.encode o) = Some (password o) /\
  arg_value "ipaddress" (initialize_session_body Base64.encode o) = Some (Base64.encode (ipaddress o)) /\
  arg_value "timeout" (initialize_session_body Base64.encode o) = Some "20" /\
  arg_value "connectionstring" (initialize_session_body Base64.encode o) =
    Some (Base64.encode (connectionstring o)).
Proof. intros Hpw. split_and!; read_arg; done. Qed.

(** C27: Round trip of the credentials, for every password without a
    [<] (a password with one can inject arguments, [password_injection]):
    a server that base64-decodes the [login], [ipaddress] and
    [connectionstring] arguments it reads recovers [options.username],
    [options.ipaddress] and [options.connectionstring] exactly. *)
Theorem credentials_roundtrip o :
  no_lt (password o) = true ->
  arg_value "login" (initialize_session_body Base64.encode o) ≫= Base64.decode = Some (username o) /\
  arg_value "ipaddress" (initialize_session_body Base64.encode o) ≫= Base64.decode = Some (ipaddress o) /\
  arg_value "connectionstring" (initialize_session_body Base64.encode o) ≫= Base64.decode =
    Some (connectionstring o).
Proof.
  intros Hpw. split; [| split]; read_arg; cbn [mbind option_bind]; apply Base64.decode_encode.
Qed.

(** The options of the client after the caller set a password. *)
Definition with_password (pw : string) (o : options) : options :=
  mk_options (action o) (account o) (site_id o) (token o) (site_secure_code o) (env o)
    (returnType o) (userAgent o) (username o) pw (ipaddress o) (connectionstring o)
    (errors o) (compression o) (responseType o).

(** C26: The password is not escaped (line 175): for every password
    made of a text [a], the markup [</password><timeout>], a text [t] and
    [</timeout><password>] followed by anything, with no [<] in [a] or
    [t], the server reads the timeout as [t] instead of [20] and the
    password as [a]. *)
Theorem password_injection o a t b :
  no_lt a = true -> no_lt t = true ->
  password o = a +:+ "</password><timeout>" +:+ t +:+ "</timeout><password>" +:+ b ->
  arg_value "timeout" (initialize_session_body Base64.encode o) = Some t /\
  arg_value "password" (initialize_session_body Base64.encode o) = Some a.
Proof.
  intros Ha Ht Hpw. unfold arg_value, initialize_session_body, session_body. rewrite Hpw, ?append_assoc_s.
  split.
  - repeat skip_chunk. found_marker. cbn [fmap option_fmap option_map].
    rewrite ?append_nil_s. repeat skip_chunk. found_marker. cbn [fmap option_fmap option_map fst].
    by rewrite ?append_nil_r_s.
  - repeat skip_chunk. found_marker. cbn [fmap option_fmap option_map].
    repeat skip_chunk. found_marker. cbn [fmap option_fmap option_map fst].
    by rewrite ?append_nil_r_s.
Qed.

Definition injected_password : string :=
  "x</password><timeout>99999</timeout><password>y".

Lemma password_injection_witness :
  arg_value "timeout" (initialize_session_body Base64.encode (with_password injected_password defaults))
    = Some "99999" /\
  arg_value "password" (initialize_session_body Base64.encode (with_password injected_password defaults))
    = Some "x".
Proof.
  apply (password_injection _ "x" "99999" "y"); vm_compute; reflexivity.
Defined.

Lemma envelope_args_witness :
  no_lt (password (with_password "secret" defaults)) = true /\
  arg_value "timeout" (initialize_session_body Base64.encode (with_password "secret" defaults)) = Some "20".
Proof.
  split; [vm_compute; reflexivity |].
  apply (envelope_args (with_password "secret" defaults)). vm_compute. reflexivity.
Defined.

Lemma credentials_roundtrip_witness :
  no_lt (password (with_password "secret" defaults)) = true /\
  arg_value "login" (initialize_session_body Base64.encode (with_password "secret" defaults))
    ≫= Base64.decode = Some "".
Proof.
  split; [vm_compute; reflexivity |].
  apply (credentials_roundtrip (with_password "secret" defaults)). vm_compute. reflexivity.
Defined.
