(* ===== verification/Transport.v ===== *)
(** * [Client.prototype.post] and its response callback (src/index.js 104-149)

    [post(body, resolve, reject)] hands one request to the [request]
    library: URL [this.url + this.options.action], three headers, the body.
    The library later calls the callback with [(err, res, data)].  The
    callback

    - calls [reject(err)] when [err] is set, and goes on (there is no
      [return]);
    - logs the current action (debug mode is on);
    - decodes [data] according to the *current* [options.returnType]:
      xml2js for ['xml'] (a parse error leaves [json] undefined),
      [JSON.parse] for ['object'] (after logging [data]; a parse error
      throws), nothing for any other value ([json] stays [{}]);
    - if the *current* [options.action] is ['/service/initializesession'],
      reads [json.success]: when it is not [undefined] it stores
      [json.success.token] in [options.token], otherwise it calls
      [reject] with the [nosuccessontoken] message;
    - calls [resolve(data)].

    An exception thrown by the callback is not caught by anything: it ends
    the process.  [resolve] and [reject] are those of a promise of the
    world's store (the only caller in the sources is [authenticate]).

    xml2js and [JSON.parse] are the [Parsers] interface; its laws are
    facts of those libraries the code depends on: [JSON.parse] rejects the
    text ["undefined"] and the empty text, and xml2js reports an error
    for an [undefined] input.  xml2js is assumed to call its callback synchronously (its
    default, [async: false]); the code relies on it too. *)

From S2P Require Import Prelude JsValue Promise Base64 Options World Envelope.
Import Options.

Class Parsers : Type := {
  (** [parseString(data, cb)]: the result [cb] receives, or its error. *)
  xml_parse : option string -> outcome jsval jsval;
  (** [JSON.parse(text)]. *)
  json_parse : string -> outcome jsval jsval;
  json_parse_undefined : exists e, json_parse "undefined" = Thrown e;
  json_parse_empty : exists e, json_parse "" = Thrown e;
  xml_parse_undefined : exists e, xml_parse None = Thrown e
}.

Definition debugMode : bool := true.
Definition prefix : string := "[node-naiton] - ".

(** What the request library passes to the callback: an error, or a
    response with its status and its body (the [encoding: 'utf-8'] option
    makes [data] a string). *)
Inductive response : Type :=
| RespError (err : jsval)
| RespOk (status : Z) (body : string).

Definition resp_err (r : response) : option jsval :=
  match r with RespError e => Some e | RespOk _ _ => None end.

Definition resp_data (r : response) : option string :=
  match r with RespError _ => None | RespOk _ b => Some b end.

(** [resolve(v)] and [reject(r)] of promise [p]. *)
Definition resolve (p : nat) (v : jsval) : JS unit := st_modify (w_map_promises (settle (p_resolve v) p)).
Definition reject (p : nat) (r : jsval) : JS unit := st_modify (w_map_promises (settle (p_reject r) p)).

(** [new Promise(executor)] (line 191): a fresh pending promise; the
    executor runs at once with its [resolve]/[reject]; an exception the
    executor throws rejects the promise. *)
Definition new_promise (executor : nat -> JS unit) : JS nat :=
  w ← st_get;
  let p := w_next w in
  st_modify (fun w => w_set_next (S p) (w_map_promises (insert p Pending) w));;
  st_catch (executor p) (fun e => reject p e);;
  mret p.

(** The argument of [request(...)] (lines 107-117) for [post(body, ...)]
    called in world [w]. *)
Definition post_request (w : world) (body : string) (p : nat) : request :=
  {| rq_url := c_url (w_client w) +:+ action (w_options w);
     rq_headers := {| h_content_type := "application/xml; charset=utf-8";
                      h_content_length := Utf8.byte_length body;
                      h_connection := "close" |};
     rq_encoding := "utf-8";
     rq_method := "POST";
     rq_body := body;
     rq_promise := p |}.

Section Transport.
Context {P : Parsers}.

(** Lines 104-116 and 149: the request handed to the library, with
    the URL read from the options at the time of the call. *)
Definition post (body : string) (p : nat) : JS unit :=
  w ← st_get;
  st_modify (fun w' => w_set_inflight (w_inflight w' ++ [post_request w body p]) w').

(** Lines 127-137: the decoded response. *)
Definition decode_response (data : option string) : JS jsval :=
  o ← get_options;
  if String.eqb (returnType o) "xml" then
    mret (match xml_parse data with Normal v => v | Thrown _ => JUndefined end)
  else if String.eqb (returnType o) "object" then
    console_log (to_str (data_val data));;
    st_lift (json_parse (to_str (data_val data)))
  else mret (JObj []).

(** Lines 139-145: the token branch. *)
Definition capture_token (p : nat) (json : jsval) : JS unit :=
  o ← get_options;
  if String.eqb (action o) initialize_session_path then
    s ← st_lift (json.["success"]);
    if negb (String.eqb (typeof s) "undefined") then
      s' ← st_lift (json.["success"]);
      t ← st_lift (s'.["token"]);
      st_modify (w_map_options (set_token t))
    else reject p (JStr (nosuccessontoken (errors o)))
  else mret tt.

(** Lines 117-147: the callback. *)
Definition post_callback (p : nat) (r : response) : JS unit :=
  (match resp_err r with Some err => reject p err | None => mret tt end);;
  o ← get_options;
  (if debugMode then console_log (prefix +:+ "post - request - " +:+ action o) else mret tt);;
  json ← decode_response (resp_data r);
  capture_token p json;;
  resolve p (data_val (resp_data r)).

(** The library answers the [i]-th pending request: it leaves the
    pending list and its callback runs; an exception thrown by the
    callback ends the process. *)
Definition deliver (i : nat) (r : response) (w : world) : world :=
  match w_inflight w !! i with
  | None => w
  | Some rq =>
      let w0 := w_set_inflight (delete i (w_inflight w)) w in
      match run (post_callback (rq_promise rq) r) w0 with
      | (Normal _, w') => w'
      | (Thrown _, w') => w_crash w'
      end
  end.
End Transport.

(** ** [post] under a fresh promise *)

Lemma run_new_promise_post body w :
  run (new_promise (post body)) w =
    (Normal (w_next w),
     w_set_inflight (w_inflight w ++ [post_request w body (w_next w)])
       (w_set_next (S (w_next w)) (w_map_promises (insert (w_next w) Pending) w))).
Proof. reflexivity. Qed.

(** ** The callback, piece by piece *)

Section CallbackPieces.
Context {P : Parsers}.

Lemma run_post_callback p r w :
  run (post_callback p r) w =
    let w1 := match resp_err r with
              | Some err => w_map_promises (settle (p_reject err) p) w
              | None => w
              end in
    let w2 := w_add_log (prefix +:+ "post - request - " +:+ action (w_options w1)) w1 in
    match run (decode_response (resp_data r)) w2 with
    | (Normal json, w3) =>
        match run (capture_token p json) w3 with
        | (Normal _, w4) =>
            (Normal tt, w_map_promises (settle (p_resolve (data_val (resp_data r))) p) w4)
        | (Thrown e, w4) => (Thrown e, w4)
        end
    | (Thrown e, w3) => (Thrown e, w3)
    end.
Proof.
  unfold post_callback, resolve, reject, get_options, console_log, debugMode. st_simpl.
  destruct (resp_err r); cbn;
    (destruct (decode_response _ _) as [[json|e] w3]; [| done]);
    (destruct (capture_token p json w3) as [[[]|e] w4]; done).
Qed.

Section Decode.
Variables (d : option string) (w : world).

Lemma run_decode_object :
  returnType (w_options w) = "object" ->
  run (decode_response d) w = (json_parse (to_str (data_val d)), w_add_log (to_str (data_val d)) w).
Proof. intros H. unfold decode_response, get_options, console_log. st_simpl. by rewrite H. Qed.

Lemma run_decode_xml :
  returnType (w_options w) = "xml" ->
  run (decode_response d) w =
    (Normal (match xml_parse d with Normal v => v | Thrown _ => JUndefined end), w).
Proof. intros H. unfold decode_response, get_options. st_simpl. by rewrite H. Qed.

Lemma run_decode_other :
  returnType (w_options w) <> "xml" -> returnType (w_options w) <> "object" ->
  run (decode_response d) w = (Normal (JObj []), w).
Proof.
  intros H1 H2. unfold decode_response, get_options. st_simpl.
  by rewrite (proj2 (String.eqb_neq _ _) H1), (proj2 (String.eqb_neq _ _) H2).
Qed.
End Decode.

Section Capture.
Variables (p : nat) (json : jsval) (w : world).

Lemma run_capture_other :
  action (w_options w) <> initialize_session_path -> run (capture_token p json) w = (Normal tt, w).
Proof. intros H. unfold capture_token, get_options. st_simpl. by rewrite (proj2 (String.eqb_neq _ _) H). Qed.

Lemma run_capture_token s t :
  action (w_options w) = initialize_session_path ->
  json.["success"] = Normal s -> s <> JUndefined -> s.["token"] = Normal t ->
  run (capture_token p json) w = (Normal tt, w_map_options (set_token t) w).
Proof.
  intros Ha Hs Hu Ht. unfold capture_token, get_options. st_simpl.
  rewrite Ha, String.eqb_refl, Hs. cbn.
  destruct (String.eqb_spec (typeof s) "undefined") as [Hts|_].
  - by apply typeof_undefined_iff in Hts.
  - cbn. by rewrite ?Hs, Ht.
Qed.

Lemma run_capture_missing :
  action (w_options w) = initialize_session_path ->
  json.["success"] = Normal JUndefined ->
  run (capture_token p json) w =
    (Normal tt, w_map_promises (settle (p_reject (JStr (nosuccessontoken (errors (w_options w))))) p) w).
Proof.
  intros Ha Hs. unfold capture_token, get_options, reject. st_simpl.
  by rewrite Ha, String.eqb_refl, Hs.
Qed.

Lemma run_capture_throws e :
  action (w_options w) = initialize_session_path ->
  json.["success"] = Thrown e ->
  run (capture_token p json) w = (Thrown e, w).
Proof.
  intros Ha Hs. unfold capture_token, get_options. st_simpl.
  by rewrite Ha, String.eqb_refl, Hs.
Qed.
End Capture.
End CallbackPieces.

(** ** Settling a promise of the store *)

Lemma settle_lookup_eq f p (ps : promise_store) :
  settle f p ps !! p = f <$> ps !! p.
Proof. apply lookup_alter_eq. Qed.

Lemma settle_lookup_ne f p q (ps : promise_store) :
  p <> q -> settle f p ps !! q = ps !! q.
Proof. apply lookup_alter_ne. Qed.

#[export] Hint Rewrite settle_lookup_eq : naiton_world.


(** ** The callback, branch by branch *)

(** [world_simpl] normalises the projections of the updated worlds. *)
Ltac world_simpl := cbn [fst snd] in *; autorewrite with naiton_world in *.

(** ** The callback's result on the two normal paths of an [object]
    response *)

Section CallbackRuns.
Context {P : Parsers}.
Variables (p : nat) (status : Z) (body : string) (w : world) (json : jsval).
Hypotheses (Hrt : returnType (w_options w) = "object") (Hparse : json_parse body = Normal json).

Lemma run_post_callback_auth s t :
  action (w_options w) = initialize_session_path ->
  json.["success"] = Normal s -> s <> JUndefined -> s.["token"] = Normal t ->
  run (post_callback p (RespOk status body)) w =
    (Normal tt,
     w_map_promises (settle (p_resolve (JStr body)) p)
       (w_map_options (set_token t)
          (w_add_log body (w_add_log (prefix +:+ "post - request - " +:+ initialize_session_path) w)))).
Proof.
  intros Hact Hs Hu Ht. rewrite run_post_callback. cbn [resp_err resp_data].
  rewrite run_decode_object by (world_simpl; done). cbn [data_val to_str]. rewrite Hparse.
  rewrite (run_capture_token _ _ _ s t) by (world_simpl; done). by rewrite Hact.
Qed.

Lemma run_post_callback_other :
  action (w_options w) <> initialize_session_path ->
  run (post_callback p (RespOk status body)) w =
    (Normal tt,
     w_map_promises (settle (p_resolve (JStr body)) p)
       (w_add_log body (w_add_log (prefix +:+ "post - request - " +:+ action (w_options w)) w))).
Proof.
  intros Hact. rewrite run_post_callback. cbn [resp_err resp_data].
  rewrite run_decode_object by (world_simpl; done). cbn [data_val to_str]. rewrite Hparse.
  by rewrite run_capture_other by (world_simpl; done).
Qed.

Lemma run_post_callback_missing :
  action (w_options w) = initialize_session_path ->
  json.["success"] = Normal JUndefined ->
  run (post_callback p (RespOk status body)) w =
    (Normal tt,
     w_map_promises (settle (p_resolve (JStr body)) p)
       (w_map_promises (settle (p_reject (JStr (nosuccessontoken (errors (w_options w))))) p)
          (w_add_log body (w_add_log (prefix +:+ "post - request - " +:+ initialize_session_path) w)))).
Proof.
  intros Hact Hs. rewrite run_post_callback. cbn [resp_err resp_data].
  rewrite run_decode_object by (world_simpl; done). cbn [data_val to_str]. rewrite Hparse.
  rewrite run_capture_missing by (world_simpl; done). by rewrite Hact.
Qed.
End CallbackRuns.

Section Callback.
Context {P : Parsers}.

(** C1: The authentication response that parses (in [object] mode) to a
    value with a [success] field stores [success.token] in the options and
    fulfils the promise with the raw body. *)
Theorem callback_auth_success p status body w json s t :
  returnType (w_options w) = "object" ->
  action (w_options w) = initialize_session_path ->
  json_parse body = Normal json ->
  json.["success"] = Normal s -> s <> JUndefined -> s.["token"] = Normal t ->
  w_promises w !! p = Some Pending ->
  fst (run (post_callback p (RespOk status body)) w) = Normal tt /\
  token (w_options (snd (run (post_callback p (RespOk status body)) w))) = t /\
  w_promises (snd (run (post_callback p (RespOk status body)) w)) !! p = Some (Fulfilled (JStr body)).
Proof.
  intros Hrt Hact Hparse Hs Hu Ht Hp.
  rewrite (run_post_callback_auth p status body w json Hrt Hparse s t) by done.
  world_simpl. by rewrite Hp.
Qed.

(** C16: An authentication response that parses to a value without a
    [success] field rejects the promise with the [nosuccessontoken]
    message (the later [resolve(data)] does nothing) and leaves the token
    as it was. *)
Theorem callback_auth_missing_success p status body w json :
  returnType (w_options w) = "object" ->
  action (w_options w) = initialize_session_path ->
  json_parse body = Normal json ->
  json.["success"] = Normal JUndefined ->
  w_promises w !! p = Some Pending ->
  fst (run (post_callback p (RespOk status body)) w) = Normal tt /\
  token (w_options (snd (run (post_callback p (RespOk status body)) w))) = token (w_options w) /\
  w_promises (snd (run (post_callback p (RespOk status body)) w)) !! p =
    Some (Rejected (JStr (nosuccessontoken (errors (w_options w))))).
Proof.
  intros Hrt Hact Hparse Hs Hp.
  rewrite (run_post_callback_missing p status body w json Hrt Hparse) by done.
  world_simpl. by rewrite Hp.
Qed.

(** C17: A body that [JSON.parse] rejects makes the callback throw: the
    exception escapes (nothing catches it in the callback of the request
    library), the promise is neither resolved nor rejected, and the token
    is unchanged. *)
Theorem callback_decode_error p status body w e :
  returnType (w_options w) = "object" ->
  json_parse body = Thrown e ->
  fst (run (post_callback p (RespOk status body)) w) = Thrown e /\
  w_promises (snd (run (post_callback p (RespOk status body)) w)) = w_promises w /\
  token (w_options (snd (run (post_callback p (RespOk status body)) w))) = token (w_options w).
Proof.
  intros Hrt Hparse.
  rewrite run_post_callback. cbn [resp_err resp_data].
  rewrite run_decode_object by (world_simpl; done). cbn [data_val to_str]. rewrite Hparse.
  by world_simpl.
Qed.

(** C18: A transport error in [object] mode rejects the promise with the
    error, then the callback goes on and throws when it parses the
    [undefined] body. *)
Theorem callback_transport_error p err w :
  returnType (w_options w) = "object" ->
  w_promises w !! p = Some Pending ->
  (exists e, fst (run (post_callback p (RespError err)) w) = Thrown e) /\
  w_promises (snd (run (post_callback p (RespError err)) w)) !! p = Some (Rejected err).
Proof.
  intros Hrt Hp. destruct json_parse_undefined as [e He].
  rewrite run_post_callback. cbn [resp_err resp_data].
  rewrite run_decode_object by (world_simpl; done). cbn [data_val to_str]. rewrite He.
  world_simpl. rewrite Hp. eauto.
Qed.

(** C19: On the authentication path, a decoded response whose [success]
    cannot be read ([json] is [null]) or whose [success] has no readable
    [token] ([success] is [null]) makes the callback throw before either
    continuation is called; the token is unchanged. *)
Theorem callback_auth_type_error p status body w json e :
  returnType (w_options w) = "object" ->
  action (w_options w) = initialize_session_path ->
  json_parse body = Normal json ->
  (json.["success"] = Thrown e \/
   exists s, json.["success"] = Normal s /\ typeof s <> "undefined" /\ s.["token"] = Thrown e) ->
  fst (run (post_callback p (RespOk status body)) w) = Thrown e /\
  w_promises (snd (run (post_callback p (RespOk status body)) w)) = w_promises w /\
  token (w_options (snd (run (post_callback p (RespOk status body)) w))) = token (w_options w).
Proof.
  intros Hrt Hact Hparse He.
  rewrite run_post_callback. cbn [resp_err resp_data].
  rewrite run_decode_object by (world_simpl; done). cbn [data_val to_str]. rewrite Hparse.
  destruct He as [He | (s & Hs & Hts & He)].
  - rewrite (run_capture_throws _ _ _ e) by (world_simpl; done). by world_simpl.
  - unfold capture_token, get_options. st_simpl. world_simpl.
    rewrite Hact, String.eqb_refl, Hs, (proj2 (String.eqb_neq _ _) Hts).
    cbn [negb]. rewrite ?Hs, He. by world_simpl.
Qed.

(** A response on any other action never touches the token: the
    promise is fulfilled with the raw body. *)
Theorem callback_other_action p status body w json :
  returnType (w_options w) = "object" ->
  action (w_options w) <> initialize_session_path ->
  json_parse body = Normal json ->
  w_promises w !! p = Some Pending ->
  fst (run (post_callback p (RespOk status body)) w) = Normal tt /\
  token (w_options (snd (run (post_callback p (RespOk status body)) w))) = token (w_options w) /\
  w_promises (snd (run (post_callback p (RespOk status body)) w)) !! p = Some (Fulfilled (JStr body)).
Proof.
  intros Hrt Hact Hparse Hp.
  rewrite (run_post_callback_other p status body w json Hrt Hparse) by done.
  world_simpl. by rewrite Hp.
Qed.

(** The HTTP status is never looked at: two responses with the same
    body and different statuses (a 500 and a 200, say) are handled the
    same way. *)
Theorem callback_ignores_status p s1 s2 body w :
  run (post_callback p (RespOk s1 body)) w = run (post_callback p (RespOk s2 body)) w.
Proof. by rewrite !run_post_callback. Qed.

(** C30: In [xml] mode a body xml2js rejects leaves [json] [undefined]
    (the parse error is dropped, line 129): on the initialize-session
    path reading [json.success] then throws a [TypeError] before either
    continuation runs; on any other path the failure goes unnoticed and
    the promise is fulfilled with the raw body. *)
Theorem callback_xml_parse_failure p status body w e :
  returnType (w_options w) = "xml" -> xml_parse (Some body) = Thrown e ->
  (action (w_options w) = initialize_session_path ->
   fst (run (post_callback p (RespOk status body)) w) =
     Thrown (type_error "Cannot read properties of undefined (reading 'success')") /\
   w_promises (snd (run (post_callback p (RespOk status body)) w)) = w_promises w) /\
  (action (w_options w) <> initialize_session_path -> w_promises w !! p = Some Pending ->
   fst (run (post_callback p (RespOk status body)) w) = Normal tt /\
   w_promises (snd (run (post_callback p (RespOk status body)) w)) !! p = Some (Fulfilled (JStr body))).
Proof.
  intros Hrt He. rewrite run_post_callback. cbn [resp_err resp_data].
  rewrite run_decode_xml by (world_simpl; done). rewrite He. split.
  - intros Hact. rewrite (run_capture_throws _ _ _ (type_error "Cannot read properties of undefined (reading 'success')"))
      by (world_simpl; done). by world_simpl.
  - intros Hact Hp. rewrite run_capture_other by (world_simpl; done). world_simpl. by rewrite Hp.
Qed.
End Callback.


(** ** Parsers and a world for the witnesses

    A stub of the two parsers that knows three bodies (spec 8 states its
    properties against such stubs): a success with a token, a refusal
    without [success], and the text [null]; anything else is a syntax
    error.  The stub's xml2js fails on every input. *)
Module DemoParsers.
Definition ok_body : string :=
  "{" +:+ dq +:+ "success" +:+ dq +:+ ":{" +:+ dq +:+ "token" +:+ dq +:+ ":" +:+ dq +:+ "T0K3N" +:+ dq +:+ "}}".
Definition refused_body : string :=
  "{" +:+ dq +:+ "error" +:+ dq +:+ ":" +:+ dq +:+ "denied" +:+ dq +:+ "}".
Definition null_success_body : string :=
  "{" +:+ dq +:+ "success" +:+ dq +:+ ":null}".

Definition demo_json_parse (s : string) : outcome jsval jsval :=
  if String.eqb s ok_body then Normal (JObj [("success", JObj [("token", JStr "T0K3N")])])
  else if String.eqb s refused_body then Normal (JObj [("error", JStr "denied")])
  else if String.eqb s null_success_body then Normal (JObj [("success", JNull)])
  else if String.eqb s "null" then Normal JNull
  else Thrown (syntax_error ("Unexpected token in JSON: " +:+ s)).

#[export] Program Instance demo_parsers : Parsers := {|
  xml_parse _ := Thrown (JError "Error" "Non-whitespace before first tag.");
  json_parse := demo_json_parse
|}.
Next Obligation. eexists. reflexivity. Qed.
Next Obligation. eexists. reflexivity. Qed.
Next Obligation. eexists. reflexivity. Qed.

(** A client in the middle of [authenticate]: action set, promise 0
    pending. *)
Definition auth_world : world :=
  w_map_promises (insert 0 Pending)
    (w_map_options (set_action initialize_session_path) init_world).
(** The same client configured with [returnType: 'xml']. *)
Definition xml_auth_world : world :=
  w_map_promises (insert 0 Pending)
    (w_map_options (fun _ => client_options
       (mk_overrides (Some initialize_session_path) None None None None None (Some "xml")
          None None None None None None None None)) init_world).
Definition other_world : world :=
  w_map_promises (insert 0 Pending)
    (w_map_options (set_action "/service/getcountrylist") init_world).
End DemoParsers.
Import DemoParsers.

Lemma callback_auth_success_witness :
  fst (run (post_callback 0 (RespOk 200 ok_body)) auth_world) = Normal tt /\
  token (w_options (snd (run (post_callback 0 (RespOk 200 ok_body)) auth_world))) = JStr "T0K3N" /\
  w_promises (snd (run (post_callback 0 (RespOk 200 ok_body)) auth_world)) !! 0 =
    Some (Fulfilled (JStr ok_body)).
Proof.
  apply (callback_auth_success 0 200 ok_body auth_world
           (JObj [("success", JObj [("token", JStr "T0K3N")])]) (JObj [("token", JStr "T0K3N")]));
    try reflexivity; discriminate.
Defined.

Lemma callback_auth_missing_success_witness :
  w_promises (snd (run (post_callback 0 (RespOk 200 refused_body)) auth_world)) !! 0 =
    Some (Rejected (JStr "The credentials used to initialize the session are not correct.")).
Proof.
  apply (callback_auth_missing_success 0 200 refused_body auth_world (JObj [("error", JStr "denied")]));
    reflexivity.
Defined.

Lemma callback_decode_error_witness :
  fst (run (post_callback 0 (RespOk 200 "<html>")) auth_world) =
    Thrown (syntax_error ("Unexpected token in JSON: " +:+ "<html>")).
Proof. apply (callback_decode_error 0 200 "<html>" auth_world); reflexivity. Defined.

Lemma callback_transport_error_witness :
  w_promises (snd (run (post_callback 0 (RespError (JError "Error" "ECONNREFUSED"))) auth_world)) !! 0 =
    Some (Rejected (JError "Error" "ECONNREFUSED")).
Proof. apply (callback_transport_error 0 (JError "Error" "ECONNREFUSED") auth_world); reflexivity. Defined.

Lemma callback_auth_type_error_witness :
  fst (run (post_callback 0 (RespOk 200 null_success_body)) auth_world) =
    Thrown (type_error "Cannot read properties of null (reading 'token')").
Proof.
  apply (callback_auth_type_error 0 200 null_success_body auth_world (JObj [("success", JNull)]));
    try reflexivity.
  right. exists JNull. split; [reflexivity | split; [discriminate | reflexivity]].
Defined.

Lemma callback_other_action_witness :
  token (w_options (snd (run (post_callback 0 (RespOk 200 ok_body)) other_world))) = JNull.
Proof.
  apply (callback_other_action 0 200 ok_body other_world (JObj [("success", JObj [("token", JStr "T0K3N")])]));
    try reflexivity; discriminate.
Defined.

Lemma callback_xml_parse_failure_witness :
  fst (run (post_callback 0 (RespOk 200 "<html>")) xml_auth_world) =
    Thrown (type_error "Cannot read properties of undefined (reading 'success')").
Proof.
  apply (callback_xml_parse_failure 0 200 "<html>" _ (JError "Error" "Non-whitespace before first tag."));
    reflexivity.
Defined.
