(* ===== verification/Invoker.v ===== *)
(** * The usage guard [verifyAPIUsage] (src/index.js 207-217)

    Every capability operation calls [this.verifyAPIUsage(prefix, resolve,
    reject)] before it issues a request: the guard logs the [noresolve]
    message when [resolve] is [undefined] or [null], else the [noreject]
    message when [reject] is, and answers whether both are present.

    The capability operations themselves are in ./components/*, which is
    not part of the sources; [capability_request] and [guarded_request]
    model them from the spec (4.5 and 2): check the guard, set the action
    of the routine, and post the envelope with the continuations of a
    fresh promise. *)

From S2P Require Import Prelude JsValue Promise Options World Transport.
Import Options.

(** [typeof v === 'undefined' || v === null]. *)
Definition is_absent (v : jsval) : bool :=
  String.eqb (typeof v) "undefined" || bool_decide (v = JNull).

Definition verifyAPIUsage (pfx : string) (res rej : jsval) : JS bool :=
  o ← get_options;
  if is_absent res then (console_log (pfx +:+ noresolve (errors o));; mret false)
  else if is_absent rej then (console_log (pfx +:+ noreject (errors o));; mret false)
  else mret true.

Section Capabilities.
Context {P : Parsers}.

(** A capability operation that passed the guard. *)
Definition capability_request (act body : string) : JS nat :=
  st_modify (w_map_options (set_action act));;
  new_promise (post body).

Definition guarded_request (pfx : string) (res rej : jsval) (act body : string) : JS (option nat) :=
  usage_ok ← verifyAPIUsage pfx res rej;
  if (usage_ok : bool) then (p ← capability_request act body; mret (Some p)) else mret None.
End Capabilities.

(** ** The guard *)

Lemma is_absent_spec v : is_absent v = true <-> v = JUndefined \/ v = JNull.
Proof.
  unfold is_absent. rewrite orb_true_iff, bool_decide_eq_true.
  rewrite (String.eqb_eq (typeof v) "undefined"), typeof_undefined_iff. done.
Qed.

(** C29: The guard answers [true] exactly when both continuations are
    present, and then logs nothing. *)
Theorem verify_true_iff pfx res rej w :
  fst (run (verifyAPIUsage pfx res rej) w) = Normal true <->
    (res <> JUndefined /\ res <> JNull) /\ (rej <> JUndefined /\ rej <> JNull).
Proof.
  unfold verifyAPIUsage, get_options, console_log. st_simpl.
  pose proof (is_absent_spec res) as Hres. pose proof (is_absent_spec rej) as Hrej.
  destruct (is_absent res), (is_absent rej); cbn; split; try discriminate; intuition congruence.
Qed.

(** A missing [resolve] is reported first, with the [noresolve]
    message behind the caller's prefix; a missing [reject] (with [resolve]
    present) with the [noreject] message. *)
Theorem verify_logs pfx res rej w :
  w_log (snd (run (verifyAPIUsage pfx res rej) w)) =
    w_log w ++
      (if is_absent res then [pfx +:+ noresolve (errors (w_options w))]
       else if is_absent rej then [pfx +:+ noreject (errors (w_options w))]
       else []).
Proof.
  unfold verifyAPIUsage, get_options, console_log. st_simpl.
  destruct (is_absent res), (is_absent rej); cbn; rewrite ?app_nil_r; done.
Qed.

Section Guard.
Context {P : Parsers}.

(** C4: A capability call with a missing continuation is stopped by the
    guard: it returns nothing, issues no request, creates no promise and
    leaves the options (the action included) unchanged. *)
Theorem guarded_request_blocked pfx res rej act body w :
  is_absent res || is_absent rej = true ->
  fst (run (guarded_request pfx res rej act body) w) = Normal None /\
  w_inflight (snd (run (guarded_request pfx res rej act body) w)) = w_inflight w /\
  w_promises (snd (run (guarded_request pfx res rej act body) w)) = w_promises w /\
  w_options (snd (run (guarded_request pfx res rej act body) w)) = w_options w.
Proof.
  intros H. unfold guarded_request, verifyAPIUsage, get_options, console_log. st_simpl.
  destruct (is_absent res), (is_absent rej); cbn in *; try discriminate; done.
Qed.
End Guard.

Lemma guarded_request_blocked_witness :
  fst (run (guarded_request "[clientmanager] " (JFun 1) JUndefined
              "/service/getcountrylist" "<_routines/>") init_world) = Normal None.
Proof. apply (guarded_request_blocked _ (JFun 1) JUndefined). reflexivity. Defined.

Lemma verify_logs_example :
  w_log (snd (run (verifyAPIUsage "[x] " JNull (JFun 2)) init_world)) =
    ["[x] There is no resolve defined, please define a resolve function."].
Proof. reflexivity. Qed.
