(* ===== verification/Session.v ===== *)
(** * [authenticate] and the client as a system (src/index.js 161-195)

    [authenticate] sets [options.action] to the initialize-session path,
    builds the envelope with [this.base64.encode] (a [TypeError] if the
    [Base64] capability failed to load, after the action was set), and
    returns [new Promise(function (resolve, reject) { self.post(body,
    resolve, reject); })].

    The client as a whole is a step relation on [world]: the program can
    call [authenticate], call a capability operation (spec-modelled in
    [Invoker]), or the HTTP library can answer any pending request, in any
    order (spec 5: requests in flight complete in the order their
    transport calls resolve).  The theorems here are the requests the
    client issues and the invariants of the reachable worlds (well
    formedness, settled promises stay settled, fulfilled promises hold
    strings, the single writer of the token); the scenarios of spec 8
    and the interleavings are in [Scenarios]. *)

From S2P Require Import Prelude JsValue Promise Base64 Options World Envelope Registry Transport Invoker.
Import Options.

(** [this.base64.encode(s)]: [this.base64] is [undefined] when the
    capability did not load. *)
Definition base64_encode (s : string) : JS string :=
  w ← st_get;
  match c_caps (w_client w) !! "base64" with
  | Some _ => mret (Base64.encode s)
  | None => st_throw (type_error "Cannot read properties of undefined (reading 'encode')")
  end.

Definition authenticate : JS nat :=
  st_modify (w_map_options (set_action initialize_session_path));;
  o ← get_options;
  login ← base64_encode (username o);
  ip ← base64_encode (ipaddress o);
  cs ← base64_encode (connectionstring o);
  new_promise (post (session_body login (password o) ip cs)).

(** The request [authenticate] issues from world [w]. *)
Definition auth_request (w : world) : request :=
  post_request (w_map_options (set_action initialize_session_path) w)
    (initialize_session_body Base64.encode (set_action initialize_session_path (w_options w)))
    (w_next w).

Lemma run_authenticate w i :
  c_caps (w_client w) !! "base64" = Some i ->
  run authenticate w =
    (Normal (w_next w),
     w_set_inflight (w_inflight w ++ [auth_request w])
       (w_set_next (S (w_next w))
          (w_map_promises (insert (w_next w) Pending)
             (w_map_options (set_action initialize_session_path) w)))).
Proof.
  intros Hb. unfold authenticate, base64_encode, new_promise, post, get_options. st_simpl.
  do 3 (world_simpl; rewrite ?Hb; cbn beta iota). reflexivity.
Qed.

Lemma run_authenticate_no_base64 w :
  c_caps (w_client w) !! "base64" = None ->
  run authenticate w =
    (Thrown (type_error "Cannot read properties of undefined (reading 'encode')"),
     w_map_options (set_action initialize_session_path) w).
Proof.
  intros Hb. unfold authenticate, base64_encode, get_options. st_simpl.
  world_simpl. by rewrite Hb.
Qed.

(** ** The callback leaves everything but the promises, the token and the
    console as it was *)

Definition same_domain (ps ps' : promise_store) : Prop :=
  forall q, ps !! q = None <-> ps' !! q = None.

Definition cb_frame (w w' : world) : Prop :=
  w_inflight w' = w_inflight w /\ w_next w' = w_next w /\ w_alive w' = w_alive w /\
  c_url (w_client w') = c_url (w_client w) /\ c_caps (w_client w') = c_caps (w_client w) /\
  store_evolves (w_promises w) (w_promises w') /\ same_domain (w_promises w) (w_promises w') /\
  w_options w' = set_token (token (w_options w')) (w_options w).

Lemma set_token_set_token a b o : set_token a (set_token b o) = set_token a o.
Proof. reflexivity. Qed.

#[export] Instance cb_frame_preorder : PreOrder cb_frame.
Proof.
  split.
  - intros w. unfold cb_frame. rewrite set_token_same.
    split_and!; try done; first [reflexivity | intros q; reflexivity].
  - intros w1 w2 w3 (Hi1 & Hn1 & Ha1 & Hu1 & Hc1 & He1 & Hd1 & Ho1) (Hi2 & Hn2 & Ha2 & Hu2 & Hc2 & He2 & Hd2 & Ho2).
    split_and!; try congruence.
    + by transitivity (w_promises w2).
    + intros q. by rewrite (Hd1 q), (Hd2 q).
    + rewrite Ho2, Ho1, set_token_set_token. done.
Qed.

Lemma cb_frame_settle f p w :
  (forall x, evolves x (f x)) -> cb_frame w (w_map_promises (settle f p) w).
Proof.
  intros Hf. unfold cb_frame. cbn. rewrite set_token_same.
  split_and!; try done.
  - by apply settle_evolves.
  - intros q. unfold settle. rewrite lookup_alter_None. naive_solver.
Qed.

Lemma cb_frame_log l w : cb_frame w (w_add_log l w).
Proof.
  unfold cb_frame. cbn. rewrite set_token_same.
  split_and!; try done; first [reflexivity | intros q; reflexivity].
Qed.

Lemma cb_frame_set_token t w : cb_frame w (w_map_options (set_token t) w).
Proof. unfold cb_frame. cbn. split_and!; try done; first [reflexivity | intros q; reflexivity]. Qed.

Section Frame.
Context {P : Parsers}.

Ltac cb_frame_tac :=
  preserves_tac;
    first [ apply cb_frame_log | apply cb_frame_set_token
          | apply cb_frame_settle; auto with naiton ].

Lemma post_callback_frame p r : preserves cb_frame (post_callback p r).
Proof.
  unfold post_callback, decode_response, capture_token, get_options, console_log,
    resolve, reject.
  cb_frame_tac.
Qed.

Lemma decode_response_frame d : preserves cb_frame (decode_response d).
Proof. unfold decode_response, get_options, console_log. cb_frame_tac. Qed.

Lemma capture_token_frame p json : preserves cb_frame (capture_token p json).
Proof. unfold capture_token, get_options, reject. cb_frame_tac. Qed.
End Frame.

(** A callback that returns has settled its promise. *)
Lemma post_callback_settles `{Parsers} p r w w' :
  w_promises w !! p = Some Pending -> run (post_callback p r) w = (Normal tt, w') ->
  exists s, w_promises w' !! p = Some s /\ settled s = true.
Proof.
  intros Hp E. pose proof (post_callback_frame p r w) as (_ & _ & _ & _ & _ & He & _).
  pose proof (run_post_callback p r w) as Hrun. rewrite E in He, Hrun. cbn [snd] in He.
  destruct (He p Pending Hp) as (s & Hs & _). exists s. split; [done |].
  cbn zeta in Hrun.
  destruct (run (decode_response _) _) as [[json|e] w3]; [| discriminate].
  destruct (run (capture_token p json) w3) as [[?|e] w4]; [| discriminate].
  injection Hrun as Hw. rewrite Hw in Hs. cbn in Hs. rewrite settle_lookup_eq in Hs.
  destruct (w_promises w4 !! p) as [x|]; inversion Hs; by destruct x.
Qed.

(** C31: The callback never returns without settling its promise: for
    every response it either throws (the process then ends) or returns
    with the promise fulfilled or rejected. *)
Theorem callback_settles_or_throws `{Parsers} p r w :
  w_promises w !! p = Some Pending ->
  (fst (run (post_callback p r) w) = Normal tt /\
   exists s, w_promises (snd (run (post_callback p r) w)) !! p = Some s /\ settled s = true) \/
  (exists e, fst (run (post_callback p r) w) = Thrown e).
Proof.
  intros Hp. destruct (run (post_callback p r) w) as [[[]|e] w'] eqn:E; cbn [fst snd]; [left | right; eauto].
  split; [done | exact (post_callback_settles p r w w' Hp E)].
Qed.

(** ** The client as a system *)

Section System.
Context {P : Parsers}.

(** One step: the program calls [authenticate] (its exception, if any,
    goes to the caller; the writes before it stay), or a capability
    operation, or the library answers a pending request.  A crashed
    process does nothing more. *)
Inductive step : world -> world -> Prop :=
| StepAuthenticate w :
    w_alive w = true -> step w (snd (run authenticate w))
| StepCapability w pfx res rej act body :
    w_alive w = true -> step w (snd (run (guarded_request pfx res rej act body) w))
| StepRespond w i rq r :
    w_alive w = true -> w_inflight w !! i = Some rq -> step w (deliver i r w).

(** Worlds reachable from a freshly constructed client. *)
Definition reachable `{ModuleLoader} (o : overrides) (w : world) : Prop :=
  rtc step (snd (run (Client o) init_world)) w.

(** The well-formedness of a world: every pending request belongs to an
    existing promise, and the promise counter is past every promise. *)
Definition wf (w : world) : Prop :=
  (forall rq, rq ∈ w_inflight w -> is_Some (w_promises w !! rq_promise rq)) /\
  (forall q, w_next w <= q -> w_promises w !! q = None).
End System.

Lemma run_capability_request act body w :
  run (capability_request act body) w =
    (Normal (w_next w),
     w_set_inflight (w_inflight w ++ [post_request (w_map_options (set_action act) w) body (w_next w)])
       (w_set_next (S (w_next w))
          (w_map_promises (insert (w_next w) Pending) (w_map_options (set_action act) w)))).
Proof. reflexivity. Qed.

(** The guard either lets the request through or changes nothing but the
    console. *)
Lemma run_guarded_request pfx res rej act body w :
  run (guarded_request pfx res rej act body) w =
    if is_absent res || is_absent rej
    then (Normal None, snd (run (verifyAPIUsage pfx res rej) w))
    else let (o, w') := run (capability_request act body) w in
         (match o with Normal p => Normal (Some p) | Thrown e => Thrown e end, w').
Proof.
  unfold guarded_request, verifyAPIUsage, get_options, console_log. st_simpl.
  destruct (is_absent res), (is_absent rej); reflexivity.
Qed.

Lemma verify_world pfx res rej w :
  exists l, snd (run (verifyAPIUsage pfx res rej) w) = w_add_log l w \/
            snd (run (verifyAPIUsage pfx res rej) w) = w.
Proof.
  unfold verifyAPIUsage, get_options, console_log. st_simpl.
  destruct (is_absent res), (is_absent rej); cbn;
    first [eexists; left; reflexivity | exists EmptyString; right; reflexivity].
Qed.

(** A fresh promise and its request keep a world well formed. *)
Lemma wf_new_request w w0 body :
  wf w -> w_promises w0 = w_promises w -> w_next w0 = w_next w -> w_inflight w0 = w_inflight w ->
  wf (w_set_inflight (w_inflight w0 ++ [post_request w0 body (w_next w0)])
        (w_set_next (S (w_next w0)) (w_map_promises (insert (w_next w0) Pending) w0))).
Proof.
  intros [Hin Hnext] Hp Hn Hi. split; cbn; rewrite Hp, Hn, ?Hi.
  - intros rq [Hrq | ->%list_elem_of_singleton]%elem_of_app.
    + destruct (decide (w_next w = rq_promise rq)) as [<-|Hne].
      * by rewrite lookup_insert_eq.
      * rewrite lookup_insert_ne by done. by apply Hin.
    + cbn. by rewrite lookup_insert_eq.
  - intros q Hq. rewrite lookup_insert_ne by lia. apply Hnext. lia.
Qed.

Section Deliver.
Context {P : Parsers}.

Lemma deliver_cases i r w rq :
  w_inflight w !! i = Some rq ->
  let w1 := snd (run (post_callback (rq_promise rq) r)
                   (w_set_inflight (delete i (w_inflight w)) w)) in
  cb_frame (w_set_inflight (delete i (w_inflight w)) w) w1 /\
  (deliver i r w = w1 \/ deliver i r w = w_crash w1).
Proof.
  intros Hi w1. split; [apply post_callback_frame |].
  unfold deliver, w1. rewrite Hi.
  destruct (run _ _) as [[]] ; [left | right]; done.
Qed.

(** The options after [decode_response] are those before it. *)
Definition same_options (w w' : world) : Prop := w_options w' = w_options w.

#[export] Instance same_options_preorder : PreOrder same_options.
Proof. split; [intros w; done | intros w1 w2 w3 H1 H2; unfold same_options in *; congruence]. Qed.

Lemma decode_response_options d : preserves same_options (decode_response d).
Proof.
  unfold decode_response, get_options, console_log.
  preserves_tac; unfold same_options; done.
Qed.

(** On any other action the callback never writes the token. *)
Lemma post_callback_token_other p r w :
  action (w_options w) <> initialize_session_path ->
  token (w_options (snd (run (post_callback p r) w))) = token (w_options w).
Proof.
  intros Ha. rewrite run_post_callback. cbn zeta.
  set (w1 := match resp_err r with
             | Some err => w_map_promises (settle (p_reject err) p) w
             | None => w end).
  assert (Hw1 : w_options w1 = w_options w) by (unfold w1; by destruct (resp_err r)).
  set (w2 := w_add_log _ w1).
  pose proof (decode_response_options (resp_data r) w2) as Hd. unfold same_options in Hd.
  destruct (run (decode_response (resp_data r)) w2) as [[json|e] w3] eqn:Hrun;
    cbn [snd] in Hd; unfold w2 in Hd; rewrite w_options_add_log, Hw1 in Hd.
  - rewrite run_capture_other by (rewrite Hd; done). cbn. by rewrite w_options_map_promises, Hd.
  - cbn. by rewrite Hd.
Qed.

Lemma deliver_inflight i r w rq :
  w_inflight w !! i = Some rq -> w_inflight (deliver i r w) = delete i (w_inflight w).
Proof.
  intros Hi. destruct (deliver_cases i r w rq Hi) as [(Hi' & _) [-> | ->]]; exact Hi'.
Qed.

Lemma deliver_token_other i r w :
  action (w_options w) <> initialize_session_path ->
  token (w_options (deliver i r w)) = token (w_options w).
Proof.
  intros Ha. destruct (w_inflight w !! i) as [rq|] eqn:Hi; [| unfold deliver; by rewrite Hi].
  destruct (deliver_cases i r w rq Hi) as [_ [-> | ->]];
    rewrite ?w_options_crash, post_callback_token_other; done.
Qed.
Lemma deliver_store_evolves i r w rq :
  w_inflight w !! i = Some rq -> store_evolves (w_promises w) (w_promises (deliver i r w)).
Proof. intros Hi. destruct (deliver_cases i r w rq Hi) as [(_ & _ & _ & _ & _ & He & _) [-> | ->]]; exact He. Qed.

(** A promise still pending after an answer, in a process still
    running, was pending before and is not the one the answer was for. *)
Lemma deliver_pending i r w rq p :
  w_inflight w !! i = Some rq -> w_alive (deliver i r w) = true ->
  w_promises (deliver i r w) !! p = Some Pending ->
  w_promises w !! p = Some Pending /\ rq_promise rq <> p.
Proof.
  intros Hi Ha Hp. unfold deliver in Ha, Hp. rewrite Hi in Ha, Hp.
  set (w0 := w_set_inflight (delete i (w_inflight w)) w) in *.
  pose proof (post_callback_frame (rq_promise rq) r w0) as (_ & _ & _ & _ & _ & He & Hd & _).
  destruct (run (post_callback (rq_promise rq) r) w0) as [[[]|e] w1] eqn:E; [| by cbn in Ha].
  cbn [snd] in He, Hd.
  destruct (w_promises w0 !! p) as [s|] eqn:Hs; [| apply Hd in Hs; by rewrite Hp in Hs].
  destruct (He p s Hs) as (s' & Hs' & Hev). rewrite Hp in Hs'. injection Hs' as <-.
  assert (s = Pending) as -> by (destruct Hev; done).
  split; [exact Hs | intros <-].
  destruct (post_callback_settles _ r w0 w1 Hs E) as (s'' & Hs'' & Hset).
  rewrite Hp in Hs''. by injection Hs'' as <-.
Qed.

End Deliver.

(** ** What the callback resolves with

    [resolve(data)] is reached with [data] a string, or, after a transport
    error, with [undefined]; but then [reject(err)] has run first and the
    promise is no longer pending. *)

Definition fulfilled_kept (Q : jsval -> Prop) (w w' : world) : Prop :=
  fulfilled_all Q (w_promises w) -> fulfilled_all Q (w_promises w').

#[export] Instance fulfilled_kept_preorder Q : PreOrder (fulfilled_kept Q).
Proof. split; [intros w H; exact H | intros w1 w2 w3 H12 H23 H; auto]. Qed.

Lemma frame_not_pending w w' p :
  cb_frame w w' -> w_promises w !! p <> Some Pending -> w_promises w' !! p <> Some Pending.
Proof.
  intros (_ & _ & _ & _ & _ & He & Hd & _) Hp.
  destruct (w_promises w !! p) as [s|] eqn:E.
  - destruct (He p s E) as (s' & -> & Hev).
    rewrite (settled_evolves s s'); [congruence | by destruct s | done].
  - apply Hd in E. congruence.
Qed.

Section Fulfilled.
Context {P : Parsers}.
Variable Q : jsval -> Prop.

Lemma decode_response_fulfilled d : preserves (fulfilled_kept Q) (decode_response d).
Proof. unfold decode_response, get_options, console_log. preserves_tac; by intros ?. Qed.

Lemma capture_token_fulfilled p json : preserves (fulfilled_kept Q) (capture_token p json).
Proof.
  unfold capture_token, get_options, reject.
  preserves_tac; unfold fulfilled_kept; cbn; auto with naiton.
Qed.

(** The callback fulfils its promise only with the body of a response:
    in [object] mode one that [JSON.parse] accepted. *)
Lemma post_callback_fulfilled p r w :
  fulfilled_all Q (w_promises w) ->
  (forall s b, r = RespOk s b -> returnType (w_options w) = "object" ->
               (exists j, json_parse b = Normal j) -> Q (JStr b)) ->
  (forall s b, r = RespOk s b -> returnType (w_options w) <> "object" -> Q (JStr b)) ->
  fulfilled_all Q (w_promises (snd (run (post_callback p r) w))).
Proof.
  intros H Hobj Hother. rewrite run_post_callback. cbn zeta.
  set (w1 := match resp_err r with
             | Some err => w_map_promises (settle (p_reject err) p) w
             | None => w end).
  assert (H1 : fulfilled_all Q (w_promises w1))
    by (unfold w1; destruct (resp_err r); cbn; auto with naiton).
  set (w2 := w_add_log _ w1).
  pose proof (decode_response_fulfilled (resp_data r) w2 H1) as H3.
  pose proof (decode_response_frame (resp_data r) w2) as F3.
  destruct (run (decode_response _) w2) as [[json|e] w3] eqn:E3; cbn [snd] in *; [| done].
  pose proof (capture_token_fulfilled p json w3 H3) as H4.
  pose proof (capture_token_frame p json w3) as F4.
  destruct (run (capture_token p json) w3) as [[?|e] w4]; cbn [snd] in *; [| done].
  cbn [w_promises w_map_promises]. destruct r as [err | status body]; cbn in *.
  - rewrite settle_not_pending; [done | by intros [] |].
    apply (frame_not_pending w2 w4); [by transitivity w3 |].
    unfold w2, w1. cbn. unfold settle. rewrite lookup_alter_eq.
    by destruct (w_promises w !! p) as [[]|].
  - apply fulfilled_all_resolve; [| done].
    destruct (String.eqb_spec (returnType (w_options w)) "object") as [Ho|Ho].
    + rewrite run_decode_object in E3 by (unfold w2, w1; by world_simpl).
      injection E3 as E3 _. by apply (Hobj status); [| | exists json].
    + by apply (Hother status).
Qed.
End Fulfilled.

Lemma post_callback_strings `{Parsers} p r w :
  fulfilled_with "string" (w_promises w) ->
  fulfilled_with "string" (w_promises (snd (run (post_callback p r) w))).
Proof. intros Hw. by apply post_callback_fulfilled. Qed.

(** ** Invariants of the reachable worlds *)

(** The part of the world the constructor does not touch. *)
Definition same_session (w w' : world) : Prop :=
  w_promises w' = w_promises w /\ w_inflight w' = w_inflight w /\ w_next w' = w_next w.

#[export] Instance same_session_preorder : PreOrder same_session.
Proof.
  split; [intros w; done |].
  intros w1 w2 w3 (H1 & H2 & H3) (H4 & H5 & H6). unfold same_session. split_and!; congruence.
Qed.

Lemma Client_session `{ModuleLoader} o : preserves same_session (Client o).
Proof.
  unfold Client, register_component, load_component, console_log.
  preserves_tac; done.
Qed.

Lemma wf_init `{ModuleLoader} o : wf (snd (run (Client o) init_world)).
Proof.
  destruct (Client_session o init_world) as (Hp & Hi & Hn).
  split; rewrite ?Hp, ?Hi, ?Hn; cbn; [set_solver | intros q _; apply lookup_empty].
Qed.

Section Invariants.
Context {P : Parsers}.

Lemma step_wf w w' : wf w -> step w w' -> wf w'.
Proof.
  intros Hwf Hstep. destruct Hstep as [w Ha | w pfx res rej act body Ha | w i rq r Ha Hi].
  - destruct (c_caps (w_client w) !! "base64") as [b|] eqn:Hb.
    + rewrite (run_authenticate w b Hb).
      by apply (wf_new_request w (w_map_options (set_action initialize_session_path) w)).
    + rewrite (run_authenticate_no_base64 w Hb). apply Hwf.
  - rewrite run_guarded_request.
    destruct (is_absent res || is_absent rej).
    + destruct (verify_world pfx res rej w) as [l [-> | ->]]; apply Hwf.
    + rewrite run_capability_request. cbn.
      by apply (wf_new_request w (w_map_options (set_action act) w)).
  - destruct (deliver_cases i r w rq Hi) as [(Hi' & Hn & _ & _ & _ & _ & Hd & _) Hdel].
    destruct Hwf as [Hin Hnext].
    assert (Hwf' : wf (snd (run (post_callback (rq_promise rq) r)
                                (w_set_inflight (delete i (w_inflight w)) w)))).
    { split; rewrite ?Hi', ?Hn; cbn.
      - intros rq' Hrq'. apply list_elem_of_delete_inv in Hrq'.
        destruct (w_promises _ !! _) eqn:E; [done |].
        apply Hd in E. cbn in E. destruct (Hin rq' Hrq') as [x Hx]. congruence.
      - intros q Hq. apply Hd. by apply Hnext. }
    destruct Hdel as [-> | ->]; [done | apply Hwf'].
Qed.

Lemma step_store_evolves w w' :
  wf w -> step w w' -> store_evolves (w_promises w) (w_promises w').
Proof.
  intros [Hin Hnext] Hstep. destruct Hstep as [w Ha | w pfx res rej act body Ha | w i rq r Ha Hi].
  - destruct (c_caps (w_client w) !! "base64") as [b|] eqn:Hb.
    + rewrite (run_authenticate w b Hb). cbn.
      apply store_evolves_insert_fresh, Hnext. done.
    + rewrite (run_authenticate_no_base64 w Hb). reflexivity.
  - rewrite run_guarded_request.
    destruct (is_absent res || is_absent rej).
    + destruct (verify_world pfx res rej w) as [l [-> | ->]]; reflexivity.
    + rewrite run_capability_request. cbn. apply store_evolves_insert_fresh, Hnext. done.
  - exact (deliver_store_evolves i r w rq Hi).
Qed.

Lemma step_token w w' :
  step w w' -> token (w_options w') <> token (w_options w) ->
  action (w_options w) = initialize_session_path /\
  exists i rq r, w_inflight w !! i = Some rq /\ w' = deliver i r w.
Proof.
  intros Hstep Htok. destruct Hstep as [w Ha | w pfx res rej act body Ha | w i rq r Ha Hi].
  - exfalso. apply Htok.
    destruct (c_caps (w_client w) !! "base64") as [b|] eqn:Hb;
      [rewrite (run_authenticate w b Hb) | rewrite (run_authenticate_no_base64 w Hb)]; done.
  - exfalso. apply Htok. rewrite run_guarded_request.
    destruct (is_absent res || is_absent rej).
    + destruct (verify_world pfx res rej w) as [l [-> | ->]]; done.
    + by rewrite run_capability_request.
  - split; [| eauto].
    destruct (decide (action (w_options w) = initialize_session_path)) as [|Hne]; [done |].
    exfalso. apply Htok.
    destruct (deliver_cases i r w rq Hi) as [_ [-> | ->]];
      rewrite ?w_options_crash, post_callback_token_other; done.
Qed.

Lemma step_strings w w' :
  step w w' -> fulfilled_with "string" (w_promises w) -> fulfilled_with "string" (w_promises w').
Proof.
  intros Hstep H. destruct Hstep as [w Ha | w pfx res rej act body Ha | w i rq r Ha Hi].
  - destruct (c_caps (w_client w) !! "base64") as [b|] eqn:Hb;
      [rewrite (run_authenticate w b Hb) | rewrite (run_authenticate_no_base64 w Hb)]; cbn;
      unfold fulfilled_with in *; auto with naiton.
  - rewrite run_guarded_request. destruct (is_absent res || is_absent rej).
    + destruct (verify_world pfx res rej w) as [l [-> | ->]]; done.
    + rewrite run_capability_request. cbn. unfold fulfilled_with in *. auto with naiton.
  - unfold deliver. rewrite Hi.
    pose proof (post_callback_strings (rq_promise rq) r (w_set_inflight (delete i (w_inflight w)) w) H).
    by destruct (run _ _) as [[]].
Qed.
End Invariants.

Section Reachable.
Context {P : Parsers} {L : ModuleLoader}.

Lemma rtc_step_wf w w' : wf w -> rtc step w w' -> wf w'.
Proof. intros Hwf Hrtc. induction Hrtc as [|w1 w2 w3 H12 _ IH]; [done |]. by apply IH, (step_wf w1). Qed.

Lemma rtc_store_evolves w w' :
  wf w -> rtc step w w' -> store_evolves (w_promises w) (w_promises w').
Proof.
  intros Hwf Hrtc. induction Hrtc as [|w1 w2 w3 H12 _ IH]; [reflexivity |].
  transitivity (w_promises w2); [by apply step_store_evolves | apply IH].
  by apply (step_wf w1).
Qed.

(** C3: The token has a single writer: whenever it changes along a run,
    some step of the run was the answer to a pending request handled
    while [options.action] was the initialize-session path. *)
Theorem token_single_writer w w' :
  rtc step w w' -> token (w_options w') <> token (w_options w) ->
  exists w1 i rq r,
    rtc step w w1 /\ action (w_options w1) = initialize_session_path /\
    w_inflight w1 !! i = Some rq /\ rtc step (deliver i r w1) w'.
Proof.
  intros Hrtc. induction Hrtc as [w|w1 w2 w3 H12 H23 IH]; intros Htok; [done |].
  destruct (decide (token (w_options w3) = token (w_options w2))) as [Heq|Hne].
  - assert (Hne : token (w_options w2) <> token (w_options w1)) by congruence.
    destruct (step_token w1 w2 H12 Hne) as (Hact & i & rq & r & Hi & ->).
    exists w1, i, rq, r. split_and!; [reflexivity | done | done | done].
  - destruct (IH Hne) as (w0 & i & rq & r & H20 & Hact & Hi & Hrest).
    exists w0, i, rq, r. split_and!; [by eapply rtc_l | done | done | done].
Qed.

Lemma rtc_step_strings w w' :
  rtc step w w' -> fulfilled_with "string" (w_promises w) -> fulfilled_with "string" (w_promises w').
Proof. induction 1 as [|w1 w2 w3 H12 _ IH]; [done |]. intros H. by apply IH, (step_strings w1). Qed.

(** C15: Every promise of a reachable world that is fulfilled holds a
    string (its [typeof] is ["string"]): the raw body of the response.
    The [resolve(data)] the callback reaches after a transport error, with
    [data] undefined, never fulfils a promise, because [reject(err)]
    settled it first. *)
Theorem reachable_fulfilled_strings o w :
  reachable o w -> fulfilled_with "string" (w_promises w).
Proof.
  intros Hr. apply (rtc_step_strings _ _ Hr).
  destruct (Client_session o init_world) as (-> & _). intros q v. cbn. by rewrite lookup_empty.
Qed.
End Reachable.

(** ** The requests the client issues *)

(** C32: [authenticate] issues exactly one request: a POST of the
    [InitializeSession] envelope built from the options to the client's
    URL followed by the initialize-session path, with the XML content
    type, the UTF-8 byte length of the body as [Content-Length] and
    [Connection: close]; it returns a fresh pending promise. *)
Theorem authenticate_request w b :
  c_caps (w_client w) !! "base64" = Some b ->
  fst (run authenticate w) = Normal (w_next w) /\
  w_promises (snd (run authenticate w)) !! w_next w = Some Pending /\
  exists rq, w_inflight (snd (run authenticate w)) = w_inflight w ++ [rq] /\
    rq_url rq = c_url (w_client w) +:+ initialize_session_path /\ rq_method rq = "POST" /\
    rq_body rq = initialize_session_body Base64.encode (w_options w) /\
    rq_headers rq = {| h_content_type := "application/xml; charset=utf-8";
                       h_content_length := Utf8.byte_length (rq_body rq);
                       h_connection := "close" |} /\
    rq_promise rq = w_next w.
Proof.
  intros Hb. rewrite (run_authenticate w b Hb). cbn. rewrite lookup_insert_eq.
  split_and!; [done | done |]. by eexists.
Qed.

(** C33: Without a loaded [Base64] capability, [authenticate] throws a
    [TypeError] from [this.base64.encode] after it has already set the
    action to the initialize-session path; it issues no request and
    creates no promise. *)
Theorem authenticate_without_base64 w :
  c_caps (w_client w) !! "base64" = None ->
  fst (run authenticate w) = Thrown (type_error "Cannot read properties of undefined (reading 'encode')") /\
  action (w_options (snd (run authenticate w))) = initialize_session_path /\
  w_inflight (snd (run authenticate w)) = w_inflight w /\
  w_promises (snd (run authenticate w)) = w_promises w.
Proof. intros Hb. by rewrite (run_authenticate_no_base64 w Hb). Qed.

(** C34: A capability call with both continuations present sets the
    action to its routine's path and issues exactly one POST of its body
    to the client's URL followed by that path, under a fresh pending
    promise it returns. *)
Theorem guarded_request_issues `{Parsers} pfx res rej act body w :
  is_absent res = false -> is_absent rej = false ->
  fst (run (guarded_request pfx res rej act body) w) = Normal (Some (w_next w)) /\
  action (w_options (snd (run (guarded_request pfx res rej act body) w))) = act /\
  w_promises (snd (run (guarded_request pfx res rej act body) w)) !! w_next w = Some Pending /\
  exists rq, w_inflight (snd (run (guarded_request pfx res rej act body) w)) = w_inflight w ++ [rq] /\
    rq_url rq = c_url (w_client w) +:+ act /\ rq_body rq = body /\ rq_promise rq = w_next w.
Proof.
  intros Hres Hrej. rewrite run_guarded_request, Hres, Hrej, run_capability_request. cbn.
  rewrite lookup_insert_eq. split_and!; [done | done | done |]. by eexists.
Qed.

(** ** Runs of the system for the witnesses

    The client built by [DemoLoader] (its [Base64] capability loads) and
    answered by the stub parsers of [DemoParsers]. *)
Import DemoLoader DemoParsers.

Definition demo_client : world := snd (run (Client no_overrides) init_world).
Definition demo_auth : world := snd (run authenticate demo_client).
Definition demo_logged_in : world := deliver 0 (RespOk 200 ok_body) demo_auth.

Lemma demo_client_base64 : c_caps (w_client demo_client) !! "base64" = Some 0.
Proof. vm_compute. reflexivity. Qed.

Lemma demo_steps : rtc step demo_client demo_logged_in.
Proof.
  eapply rtc_l; [apply StepAuthenticate; reflexivity |].
  eapply rtc_l; [eapply (StepRespond _ 0); reflexivity |]. apply rtc_refl.
Qed.

Lemma token_single_writer_witness :
  exists w1 i rq r,
    rtc step demo_client w1 /\ action (w_options w1) = initialize_session_path /\
    w_inflight w1 !! i = Some rq /\ rtc step (deliver i r w1) demo_logged_in.
Proof. apply token_single_writer; [apply demo_steps | vm_compute; discriminate]. Defined.

Lemma authenticate_request_witness :
  fst (run authenticate demo_client) = Normal 0 /\
  w_promises demo_auth !! 0 = Some Pending.
Proof.
  destruct (authenticate_request demo_client 0 demo_client_base64) as (H1 & H2 & _).
  split; [exact H1 | exact H2].
Defined.

Lemma authenticate_without_base64_witness :
  fst (run authenticate init_world) =
    Thrown (type_error "Cannot read properties of undefined (reading 'encode')").
Proof. apply (authenticate_without_base64 init_world). reflexivity. Defined.

Lemma guarded_request_issues_witness :
  fst (run (guarded_request "[clientmanager] " (JFun 1) (JFun 2) "/service/getcountrylist" "<x/>")
         demo_client) = Normal (Some 0).
Proof. apply (guarded_request_issues "[clientmanager] " (JFun 1) (JFun 2)); reflexivity. Defined.

Lemma callback_settles_or_throws_witness :
  (fst (run (post_callback 0 (RespOk 200 ok_body)) auth_world) = Normal tt /\
   exists s, w_promises (snd (run (post_callback 0 (RespOk 200 ok_body)) auth_world)) !! 0 = Some s /\
             settled s = true) \/
  (exists e, fst (run (post_callback 0 (RespOk 200 ok_body)) auth_world) = Thrown e).
Proof. apply callback_settles_or_throws. reflexivity. Defined.

Lemma reachable_fulfilled_strings_witness :
  reachable no_overrides demo_logged_in /\
  forall id v, w_promises demo_logged_in !! id = Some (Fulfilled v) -> typeof v = "string".
Proof.
  split; [apply demo_steps |]. apply (reachable_fulfilled_strings no_overrides), demo_steps.
Defined.
