(* ===== verification/Scenarios.v ===== *)
(** * Scenarios of the client: a login answered at once, and the
    interleavings the shared [options.action] gets wrong

    [authenticate] followed by the answer to its request (spec 8: success,
    refusal), and two requests in flight at once: a
    capability call issued while the login is pending, and a login issued
    while a capability call is pending (spec 5).  Each scenario is a run of
    the system [Session.step]; its theorem gives the world it ends in. *)

From S2P Require Import Prelude JsValue Promise Base64 Options World Envelope Registry Transport Invoker Session.
Import Options.

(** ** Scenarios: [authenticate] followed by its response *)

Lemma w_set_inflight_same w : w_set_inflight (w_inflight w) w = w.
Proof. by destruct w. Qed.

Lemma w_set_inflight_twice l l' w : w_set_inflight l (w_set_inflight l' w) = w_set_inflight l w.
Proof. reflexivity. Qed.

Section Scenarios.
Context {P : Parsers}.

(** Answering a request by its index. *)
Lemma deliver_some i r w rq :
  w_inflight w !! i = Some rq ->
  deliver i r w =
    match run (post_callback (rq_promise rq) r) (w_set_inflight (delete i (w_inflight w)) w) with
    | (Normal _, w') => w'
    | (Thrown _, w') => w_crash w'
    end.
Proof. intros Hi. unfold deliver. by rewrite Hi. Qed.

(** Answering the request at position [length l1]. *)
Lemma deliver_middle l1 l2 rq r w :
  w_inflight w = l1 ++ rq :: l2 ->
  deliver (length l1) r w =
    match run (post_callback (rq_promise rq) r) (w_set_inflight (l1 ++ l2) w) with
    | (Normal _, w') => w'
    | (Thrown _, w') => w_crash w'
    end.
Proof.
  intros Hl. rewrite (deliver_some _ _ _ rq) by (rewrite Hl; by apply list_lookup_middle).
  by rewrite Hl, delete_middle.
Qed.

(** Answering the request issued last. *)
Lemma deliver_last l rq r w :
  w_inflight w = l ->
  deliver (length l) r (w_set_inflight (l ++ [rq]) w) =
    match run (post_callback (rq_promise rq) r) w with
    | (Normal _, w') => w'
    | (Thrown _, w') => w_crash w'
    end.
Proof.
  intros <-. rewrite (deliver_middle _ [] rq) by reflexivity.
  by rewrite app_nil_r, w_set_inflight_twice, w_set_inflight_same.
Qed.

(** The world a request on action [act] leaves before it is answered:
    the action set, a fresh pending promise, the counter past it. *)
Definition pending_after (act : string) (w : world) : world :=
  w_set_next (S (w_next w))
    (w_map_promises (insert (w_next w) Pending) (w_map_options (set_action act) w)).

Lemma run_authenticate_pending w b :
  c_caps (w_client w) !! "base64" = Some b ->
  snd (run authenticate w) =
    w_set_inflight (w_inflight w ++ [auth_request w]) (pending_after initialize_session_path w).
Proof. intros Hb. by rewrite (run_authenticate w b Hb). Qed.

Lemma run_guarded_pending pfx res rej act body w :
  is_absent res || is_absent rej = false ->
  snd (run (guarded_request pfx res rej act body) w) =
    w_set_inflight (w_inflight w ++ [post_request (w_map_options (set_action act) w) body (w_next w)])
      (pending_after act w).
Proof. intros H. rewrite run_guarded_request, H. reflexivity. Qed.

Lemma step_authenticate_pending w b :
  w_alive w = true -> c_caps (w_client w) !! "base64" = Some b ->
  step w (w_set_inflight (w_inflight w ++ [auth_request w]) (pending_after initialize_session_path w)).
Proof. intros Ha Hb. rewrite <- (run_authenticate_pending w b Hb). by apply StepAuthenticate. Qed.

Lemma step_guarded_pending (pfx : string) (res rej : jsval) act body w :
  w_alive w = true -> is_absent res || is_absent rej = false ->
  step w (w_set_inflight (w_inflight w ++ [post_request (w_map_options (set_action act) w) body (w_next w)])
            (pending_after act w)).
Proof. intros Ha H. rewrite <- (run_guarded_pending pfx res rej act body w H). by apply StepCapability. Qed.

Variables (w : world) (b : nat) (status : Z) (body : string) (json : jsval).
Hypotheses (Hb : c_caps (w_client w) !! "base64" = Some b)
           (Hrt : returnType (w_options w) = "object")
           (Hparse : json_parse body = Normal json).

(** A successful login answered at once. *)
Lemma auth_round_success s t :
  json.["success"] = Normal s -> s <> JUndefined -> s.["token"] = Normal t ->
  deliver (length (w_inflight w)) (RespOk status body) (snd (run authenticate w)) =
    w_map_promises (settle (p_resolve (JStr body)) (w_next w))
      (w_map_options (set_token t)
         (w_add_log body (w_add_log (prefix +:+ "post - request - " +:+ initialize_session_path)
            (pending_after initialize_session_path w)))).
Proof.
  intros Hs Hu Ht. rewrite (run_authenticate_pending w b Hb).
  rewrite (deliver_last _ _ _ (pending_after initialize_session_path w)) by reflexivity.
  by rewrite (run_post_callback_auth _ status body (pending_after initialize_session_path w) json Hrt Hparse s t).
Qed.

(** A refused login answered at once. *)
Lemma auth_round_refused :
  json.["success"] = Normal JUndefined ->
  deliver (length (w_inflight w)) (RespOk status body) (snd (run authenticate w)) =
    w_map_promises (settle (p_resolve (JStr body)) (w_next w))
      (w_map_promises (settle (p_reject (JStr (nosuccessontoken (errors (w_options w))))) (w_next w))
         (w_add_log body (w_add_log (prefix +:+ "post - request - " +:+ initialize_session_path)
            (pending_after initialize_session_path w)))).
Proof.
  intros Hs. rewrite (run_authenticate_pending w b Hb).
  rewrite (deliver_last _ _ _ (pending_after initialize_session_path w)) by reflexivity.
  by rewrite (run_post_callback_missing _ status body (pending_after initialize_session_path w) json Hrt Hparse).
Qed.
End Scenarios.

Section AuthClaims.
Context {P : Parsers}.

(** C2: [authenticate] followed at once by a response whose decoded
    [success] carries a token stores that token, fulfils the promise
    [authenticate] returned with the raw body, leaves the action on the
    initialize-session path and no request of its own pending. *)
Theorem authenticate_success w b status body json s t :
  c_caps (w_client w) !! "base64" = Some b -> returnType (w_options w) = "object" ->
  json_parse body = Normal json ->
  json.["success"] = Normal s -> s <> JUndefined -> s.["token"] = Normal t ->
  let w' := deliver (length (w_inflight w)) (RespOk status body) (snd (run authenticate w)) in
  fst (run authenticate w) = Normal (w_next w) /\ token (w_options w') = t /\
  w_promises w' !! w_next w = Some (Fulfilled (JStr body)) /\
  action (w_options w') = initialize_session_path /\
  w_inflight w' = w_inflight w /\ w_alive w' = w_alive w.
Proof.
  intros Hb Hrt Hparse Hs Hu Ht w'. unfold w'.
  rewrite (auth_round_success w b status body json Hb Hrt Hparse s t Hs Hu Ht), (run_authenticate w b Hb).
  cbn. by rewrite settle_lookup_eq, lookup_insert_eq.
Qed.

(** C14: [authenticate] followed at once by a response without
    [success] rejects its promise with the [nosuccessontoken] message
    and keeps the previous token. *)
Theorem authenticate_refused w b status body json :
  c_caps (w_client w) !! "base64" = Some b -> returnType (w_options w) = "object" ->
  json_parse body = Normal json -> json.["success"] = Normal JUndefined ->
  let w' := deliver (length (w_inflight w)) (RespOk status body) (snd (run authenticate w)) in
  fst (run authenticate w) = Normal (w_next w) /\ token (w_options w') = token (w_options w) /\
  w_promises w' !! w_next w =
    Some (Rejected (JStr (nosuccessontoken (errors (w_options w))))).
Proof.
  intros Hb Hrt Hparse Hs w'. unfold w'.
  rewrite (auth_round_refused w b status body json Hb Hrt Hparse Hs), (run_authenticate w b Hb).
  cbn. by rewrite !settle_lookup_eq, lookup_insert_eq.
Qed.

End AuthClaims.

(** ** The shared [options.action]: two requests in flight *)

Section Race.
Context {P : Parsers}.
Variables (w : world) (b : nat) (pfx act cbody : string) (res rej : jsval)
          (status : Z) (body : string) (json : jsval).
Hypotheses (Hb : c_caps (w_client w) !! "base64" = Some b)
           (Hrt : returnType (w_options w) = "object")
           (Hparse : json_parse body = Normal json)
           (Hact : act <> initialize_session_path)
           (Hguard : is_absent res || is_absent rej = false).

(** C13: [authenticate], then a capability call on another action
    before the login answers, then the successful login response: the
    callback reads the action the capability call left, so the token is
    never stored, while the promise of [authenticate] is fulfilled as if
    the login had worked.  Every step is a step of the system. *)
Theorem login_token_lost s t :
  json.["success"] = Normal s -> s <> JUndefined -> s.["token"] = Normal t ->
  let w1 := snd (run authenticate w) in
  let w2 := snd (run (guarded_request pfx res rej act cbody) w1) in
  let w3 := deliver (length (w_inflight w)) (RespOk status body) w2 in
  (w_alive w = true -> rtc step w w3) /\
  token (w_options w3) = token (w_options w) /\
  w_promises w3 !! w_next w = Some (Fulfilled (JStr body)).
Proof.
  intros Hs Hu Ht w1 w2 w3. unfold w3, w2.
  assert (H1 : w_alive w = true -> step w w1) by (intros; by apply StepAuthenticate).
  assert (Hw1 : w1 = w_set_inflight (w_inflight w ++ [auth_request w])
                       (pending_after initialize_session_path w))
    by apply (run_authenticate_pending w b Hb).
  clearbody w1. subst w1.
  split_and!.
  - intros Ha. apply (rtc_l _ _ _ _ (H1 Ha)).
    rewrite run_guarded_pending by done. eapply rtc_l; [by apply (step_guarded_pending pfx res rej) |].
    apply rtc_once. eapply StepRespond; [done | cbn; rewrite <- app_assoc; by apply list_lookup_middle].
  - rewrite run_guarded_pending by done.
    rewrite (deliver_middle _ [_] (auth_request w)) by (cbn; by rewrite <- app_assoc).
    by rewrite (run_post_callback_other _ status body _ json) by first [exact Hrt | exact Hparse | exact Hact].
  - rewrite run_guarded_pending by done.
    rewrite (deliver_middle _ [_] (auth_request w)) by (cbn; by rewrite <- app_assoc).
    rewrite (run_post_callback_other _ status body _ json) by first [exact Hrt | exact Hparse | exact Hact].
    cbn. by rewrite settle_lookup_eq, lookup_insert_ne, lookup_insert_eq by lia.
Qed.

(** C20: A capability call, then [authenticate] before the capability
    answers, then the capability's response (a body without [success]):
    the callback takes it for a refused login and rejects the capability
    call's promise with the [nosuccessontoken] message. *)
Theorem capability_response_taken_for_login :
  json.["success"] = Normal JUndefined ->
  let w1 := snd (run (guarded_request pfx res rej act cbody) w) in
  let w2 := snd (run authenticate w1) in
  let w3 := deliver (length (w_inflight w)) (RespOk status body) w2 in
  (w_alive w = true -> rtc step w w3) /\
  w_promises w3 !! w_next w = Some (Rejected (JStr (nosuccessontoken (errors (w_options w))))).
Proof.
  intros Hs w1 w2 w3. unfold w3, w2.
  assert (H1 : w_alive w = true -> step w w1) by (intros; by apply StepCapability).
  assert (Hw1 : w1 = w_set_inflight
                       (w_inflight w ++ [post_request (w_map_options (set_action act) w) cbody (w_next w)])
                       (pending_after act w))
    by (unfold w1; by rewrite run_guarded_pending).
  clearbody w1. subst w1.
  split.
  - intros Ha. apply (rtc_l _ _ _ _ (H1 Ha)).
    rewrite (run_authenticate_pending _ b) by done. eapply rtc_l; [by apply (step_authenticate_pending _ b) |].
    apply rtc_once. eapply StepRespond; [done | cbn; rewrite <- app_assoc; by apply list_lookup_middle].
  - rewrite (run_authenticate_pending _ b) by done.
    rewrite (deliver_middle _ [_] (post_request (w_map_options (set_action act) w) cbody (w_next w)))
      by (cbn; by rewrite <- app_assoc).
    rewrite (run_post_callback_missing _ status body _ json)
      by first [exact Hrt | exact Hparse | exact Hs | reflexivity].
    cbn. by rewrite !settle_lookup_eq, lookup_insert_ne, lookup_insert_eq by lia.
Qed.
End Race.

(** ** The scenarios on the demo client

    [Session.demo_client] answered by the stub parsers. *)
Import DemoLoader DemoParsers.

Lemma authenticate_success_witness :
  token (w_options demo_logged_in) = JStr "T0K3N" /\
  w_promises demo_logged_in !! 0 = Some (Fulfilled (JStr ok_body)).
Proof.
  destruct (authenticate_success demo_client 0 200 ok_body
              (JObj [("success", JObj [("token", JStr "T0K3N")])]) (JObj [("token", JStr "T0K3N")])
              (JStr "T0K3N"))
    as (_ & Ht & Hp & _); [first [apply demo_client_base64 | reflexivity | discriminate] .. | split; [exact Ht | exact Hp]].
Defined.

Lemma authenticate_refused_witness :
  w_promises (deliver 0 (RespOk 200 refused_body) demo_auth) !! 0 =
    Some (Rejected (JStr "The credentials used to initialize the session are not correct.")).
Proof.
  destruct (authenticate_refused demo_client 0 200 refused_body (JObj [("error", JStr "denied")]))
    as (_ & _ & Hp); [first [apply demo_client_base64 | reflexivity] .. | exact Hp].
Defined.

Lemma login_token_lost_witness :
  token (w_options (deliver 0 (RespOk 200 ok_body)
           (snd (run (guarded_request "[clientmanager] " (JFun 1) (JFun 2) "/service/getcountrylist" "<x/>")
                   demo_auth)))) = JNull.
Proof.
  destruct (login_token_lost demo_client 0 "[clientmanager] " "/service/getcountrylist" "<x/>"
              (JFun 1) (JFun 2) 200 ok_body (JObj [("success", JObj [("token", JStr "T0K3N")])])
              demo_client_base64 ltac:(reflexivity) ltac:(reflexivity)
              ltac:(apply String.eqb_neq; reflexivity) ltac:(reflexivity)
              (JObj [("token", JStr "T0K3N")]) (JStr "T0K3N"))
    as (_ & Ht & _); [reflexivity | discriminate | reflexivity | exact Ht].
Defined.

Lemma capability_response_taken_for_login_witness :
  w_promises (deliver 0 (RespOk 200 refused_body)
                (snd (run authenticate
                        (snd (run (guarded_request "[clientmanager] " (JFun 1) (JFun 2)
                                     "/service/getcountrylist" "<x/>") demo_client))))) !! 0 =
    Some (Rejected (JStr "The credentials used to initialize the session are not correct.")).
Proof.
  destruct (capability_response_taken_for_login demo_client 0 "[clientmanager] " "/service/getcountrylist"
              "<x/>" (JFun 1) (JFun 2) 200 refused_body (JObj [("error", JStr "denied")]))
    as (_ & Hp); [first [apply demo_client_base64 | reflexivity | apply String.eqb_neq; reflexivity] .. | exact Hp].
Defined.
