(* ===== verification/Refinement.v ===== *)
(** * The authentication state machine of spec 4.3, and the code's
    refinement of it under sequential use

    The spec describes the session, as far as authentication goes, by the
    states [Unauthenticated], [Authenticating] and [Authenticated t], with
    [authenticate()] entering [Authenticating] from either of the others
    and the response leading back to a state named by the token then
    stored.  [auth_view] reads that state off a concrete [world]: a request
    in flight on the initialize-session action is [Authenticating], and
    otherwise the stored token decides.

    The code shares [options.action] between requests (spec 5), so the
    view is only meaningful while at most one request is in flight:
    [seq_step] is the system's [step] restricted to callers that wait for
    each answer before the next call.  Under that discipline every
    concrete step is a step of the abstract machine or leaves the view
    unchanged ([seq_step_sim]), so the views along a run form a run of the
    abstract machine from the state the options name
    ([sequential_refinement]); [Scenarios.login_token_lost] shows what goes
    wrong without it. *)

From S2P Require Import Prelude JsValue Promise Options World Envelope Registry Transport Invoker Session.
Import Options.

Module AuthMachine.

Inductive auth_state : Type :=
  | Unauthenticated
  | Authenticating (prev : jsval)
  | Authenticated (t : jsval).

(** The state a stored token names; [null] is no token. *)
Definition token_view (t : jsval) : auth_state :=
  if decide (t = JNull) then Unauthenticated else Authenticated t.

(** The abstract machine: [authenticate()] starts from a settled state
    and remembers its token; the response ends in the state of whatever
    token is stored then (the old one when the login failed). *)
Inductive auth_step : auth_state -> auth_state -> Prop :=
  | AuthBegin t : auth_step (token_view t) (Authenticating t)
  | AuthEnd prev t : auth_step (Authenticating prev) (token_view t).

Definition auth_view (w : world) : auth_state :=
  if bool_decide (w_inflight w <> []) && String.eqb (action (w_options w)) initialize_session_path
  then Authenticating (token (w_options w))
  else token_view (token (w_options w)).

Section Sequential.
Context {P : Parsers}.

(** A caller that waits: while a request is in flight, the only step is
    its answer. *)
Definition seq_step (w w' : world) : Prop :=
  step w w' /\ (w_inflight w <> [] -> exists r, w' = deliver 0 r w).

Definition seq_inv (w : world) : Prop := length (w_inflight w) <= 1.

End Sequential.

Lemma auth_view_idle w : w_inflight w = [] -> auth_view w = token_view (token (w_options w)).
Proof. intros H. unfold auth_view. by rewrite H. Qed.

Lemma auth_view_busy w rq l :
  w_inflight w = rq :: l ->
  auth_view w = if String.eqb (action (w_options w)) initialize_session_path
                then Authenticating (token (w_options w)) else token_view (token (w_options w)).
Proof. intros H. unfold auth_view. by rewrite H. Qed.

(** A new request from an idle client: the view enters [Authenticating]
    when the request is on the initialize-session action, and stays put
    otherwise. *)
Lemma view_new_request w w' rq :
  w_inflight w = [] -> w_inflight w' = [rq] -> token (w_options w') = token (w_options w) ->
  auth_view w' = auth_view w \/ auth_step (auth_view w) (auth_view w').
Proof.
  intros H0 H1 Ht. rewrite (auth_view_idle w H0), (auth_view_busy w' rq [] H1), Ht.
  destruct (String.eqb _ _); [right; constructor | by left].
Qed.

Section Simulation.
Context {P : Parsers}.

(** One step of a waiting caller is a step of the abstract machine or
    leaves the view unchanged, and keeps at most one request in flight. *)
Lemma seq_step_sim w w' :
  seq_inv w -> seq_step w w' ->
  seq_inv w' /\ (auth_view w' = auth_view w \/ auth_step (auth_view w) (auth_view w')).
Proof.
  unfold seq_inv. intros Hinv [Hstep Hseq].
  destruct (w_inflight w) as [|rq [|rq' l]] eqn:Hin; cbn in Hinv; [| | lia].
  - destruct Hstep as [w Ha | w pfx res rej act body Ha | w i rq r Ha Hi].
    + destruct (c_caps (w_client w) !! "base64") as [b|] eqn:Hb.
      * rewrite (run_authenticate w b Hb). cbn. rewrite Hin. split; [cbn; lia |].
        apply (view_new_request w _ (auth_request w)); [done | rewrite ?Hin; reflexivity | done].
      * rewrite (run_authenticate_no_base64 w Hb). split; [cbn; rewrite ?Hin; cbn; lia |].
        left. rewrite !auth_view_idle by done. done.
    + rewrite run_guarded_request. destruct (is_absent res || is_absent rej).
      * destruct (verify_world pfx res rej w) as [l [-> | ->]];
          split; rewrite ?Hin; cbn; rewrite ?Hin; auto with lia.
      * rewrite run_capability_request. cbn. rewrite Hin. split; [cbn; lia |].
        apply (view_new_request w _ (post_request (w_map_options (set_action act) w) body (w_next w)));
          [done | rewrite ?Hin; reflexivity | done].
    + by rewrite Hin in Hi.
  - destruct (Hseq ltac:(done)) as [r ->].
    assert (Hd : w_inflight (deliver 0 r w) = [])
      by (rewrite (deliver_inflight 0 r w rq); rewrite Hin; done).
    split; [rewrite Hd; cbn; lia |].
    rewrite (auth_view_idle _ Hd), (auth_view_busy w rq [] Hin).
    destruct (String.eqb_spec (action (w_options w)) initialize_session_path) as [Ha|Ha].
    + right. constructor.
    + left. by rewrite deliver_token_other.
Qed.
End Simulation.

Section Runs.
Context {P : Parsers} {L : ModuleLoader}.

Lemma rtc_seq_inv w w' : seq_inv w -> rtc seq_step w w' -> seq_inv w'.
Proof.
  intros Hinv Hrtc. induction Hrtc as [w|w1 w2 w3 H12 _ IH]; [done |].
  apply IH. apply (seq_step_sim w1 w2 Hinv H12).
Qed.

Lemma Client_idle o : w_inflight (snd (run (Client o) init_world)) = [].
Proof. by destruct (Client_session o init_world) as (_ & -> & _). Qed.

(** The simulation lifted to runs: the view of a waiting caller's run
    is a run of the abstract machine. *)
Lemma rtc_seq_sim w w' :
  seq_inv w -> rtc seq_step w w' -> seq_inv w' /\ rtc auth_step (auth_view w) (auth_view w').
Proof.
  intros Hinv Hrtc. induction Hrtc as [w|w1 w2 w3 H12 _ IH]; [split; [done | apply rtc_refl] |].
  destruct (seq_step_sim w1 w2 Hinv H12) as [Hinv2 [Heq | Hstep]].
  - destruct (IH Hinv2) as [Hinv3 Hrun]. rewrite Heq in Hrun. by split.
  - destruct (IH Hinv2) as [Hinv3 Hrun]. split; [done | by apply (rtc_l _ _ (auth_view w2))].
Qed.

(** C5: Refinement of the spec's authentication state machine by a
    caller that waits for each answer before its next call: the client
    starts in the state its [token] option names ([Unauthenticated] on
    the defaults), and along every run of such a caller at most one
    request is in flight and the states the client passes through form
    a run of the abstract machine: the token changes only when an
    [Authenticating] state ends, and [authenticate()] enters
    [Authenticating] with the token it had. *)
Theorem sequential_refinement o w :
  rtc seq_step (snd (run (Client o) init_world)) w ->
  auth_view (snd (run (Client o) init_world)) = token_view (token (client_options o)) /\
  seq_inv w /\ rtc auth_step (token_view (token (client_options o))) (auth_view w).
Proof.
  intros Hrtc.
  assert (H0 : seq_inv (snd (run (Client o) init_world))) by (unfold seq_inv; rewrite Client_idle; cbn; lia).
  assert (Hv : auth_view (snd (run (Client o) init_world)) = token_view (token (client_options o)))
    by (by rewrite auth_view_idle, (proj1 (Client_fields o init_world)) by apply Client_idle).
  split; [exact Hv |]. rewrite <- Hv. apply (rtc_seq_sim _ _ H0 Hrtc).
Qed.
End Runs.

End AuthMachine.

Import AuthMachine DemoLoader DemoParsers.

Lemma sequential_refinement_witness :
  rtc seq_step demo_client demo_logged_in /\
  auth_view demo_auth = Authenticating JNull /\ auth_view demo_logged_in = Authenticated (JStr "T0K3N") /\
  rtc auth_step Unauthenticated (auth_view demo_logged_in).
Proof.
  assert (H1 : seq_step demo_client demo_auth)
    by (split; [apply StepAuthenticate; reflexivity | intros H; by contradict H]).
  assert (H2 : seq_step demo_auth demo_logged_in)
    by (split; [eapply (StepRespond _ 0); reflexivity | intros _; by exists (RespOk 200 ok_body)]).
  assert (Hrun : rtc seq_step demo_client demo_logged_in) by (apply (rtc_l _ _ demo_auth); [exact H1 | by apply rtc_once]).
  split; [exact Hrun | split; [vm_compute; reflexivity | split; [vm_compute; reflexivity |]]].
  exact (proj2 (proj2 (sequential_refinement no_overrides demo_logged_in Hrun))).
Defined.
