(* ===== verification/Liveness.v ===== *)
(** * No promise of the client is left pending

    The spec (7) wants every failure to reach the caller's continuation,
    never to be swallowed.  In the code a promise is created only by
    [new Promise(executor)] whose executor posts at once
    ([Transport.new_promise], [Transport.post]), and the callback of the
    answer settles it unless it throws ([Session.post_callback_settles]).
    So in every reachable world a pending promise has its request in
    flight ([reachable_pending_served]), and answering the requests in
    flight one after the other, whatever the service answers, ends with
    every promise settled or the process crashed ([reachable_all_settled]).
    [answer_all] is that run of the HTTP library, with fuel the number of
    requests in flight, which each answer lowers by one. *)

From S2P Require Import Prelude JsValue Promise Options World Envelope Registry Transport Invoker Session.
Import Options.

(** A running process has a request in flight for every pending promise. *)
Definition pending_served (w : world) : Prop :=
  w_alive w = true ->
  forall p, w_promises w !! p = Some Pending -> exists rq, rq ∈ w_inflight w /\ rq_promise rq = p.

(** Every promise of the store is settled. *)
Definition all_settled (w : world) : Prop :=
  forall p s, w_promises w !! p = Some s -> settled s = true.

Section Answer.
Context {P : Parsers}.

(** The library answers the oldest request in flight with [answer rq],
    at most [n] times, while the process runs. *)
Fixpoint answer_all (answer : request -> response) (n : nat) (w : world) : world :=
  match n, w_inflight w with
  | S n', rq :: _ => if w_alive w then answer_all answer n' (deliver 0 (answer rq) w) else w
  | _, _ => w
  end.
End Answer.

(** ** The invariant *)

Lemma pending_served_new_request w w0 body :
  pending_served w -> w_promises w0 = w_promises w -> w_inflight w0 = w_inflight w -> w_alive w0 = w_alive w ->
  pending_served (w_set_inflight (w_inflight w0 ++ [post_request w0 body (w_next w0)])
                    (w_set_next (S (w_next w0)) (w_map_promises (insert (w_next w0) Pending) w0))).
Proof.
  intros Hps Hp Hi Ha Ha' q Hq. cbn in Ha', Hq |- *.
  destruct (decide (q = w_next w0)) as [->|Hne].
  - eexists. split; [apply elem_of_app; right; by left | reflexivity].
  - rewrite lookup_insert_ne in Hq by congruence. rewrite Hp in Hq. rewrite Ha in Ha'.
    destruct (Hps Ha' q Hq) as (rq & Hrq & Hpr). exists rq. rewrite Hi. split; [apply elem_of_app; by left | done].
Qed.

Lemma pending_served_settled w : pending_served w -> w_alive w = true -> w_inflight w = [] -> all_settled w.
Proof.
  intros Hps Ha Hin p [] Hp; [| done ..].
  destruct (Hps Ha p Hp) as (rq & Hrq & _). rewrite Hin in Hrq. by apply not_elem_of_nil in Hrq.
Qed.

Section Steps.
Context {P : Parsers}.

Lemma deliver_alive i r w rq : w_inflight w !! i = Some rq -> w_alive (deliver i r w) = true -> w_alive w = true.
Proof.
  intros Hi Ha. destruct (deliver_cases i r w rq Hi) as [(_ & _ & Ha' & _) [Hdel | Hdel]];
    rewrite Hdel in Ha; cbn in Ha, Ha'; congruence.
Qed.

Lemma pending_served_deliver i r w rq :
  w_inflight w !! i = Some rq -> pending_served w -> pending_served (deliver i r w).
Proof.
  intros Hi Hps Ha p Hp. destruct (deliver_pending i r w rq p Hi Ha Hp) as [Hold Hne].
  destruct (Hps (deliver_alive i r w rq Hi Ha) p Hold) as (rq' & Hrq' & Hpr).
  exists rq'. split; [| exact Hpr]. rewrite (deliver_inflight i r w rq Hi).
  apply (elem_of_delete_ne _ i rq' rq Hi Hrq'). intros ->. contradiction.
Qed.

Lemma step_pending_served w w' : step w w' -> pending_served w -> pending_served w'.
Proof.
  intros Hstep Hps. destruct Hstep as [w Ha | w pfx res rej act body Ha | w i rq r Ha Hi].
  - destruct (c_caps (w_client w) !! "base64") as [b|] eqn:Hb.
    + rewrite (run_authenticate w b Hb).
      by apply (pending_served_new_request w (w_map_options (set_action initialize_session_path) w)).
    + rewrite (run_authenticate_no_base64 w Hb). apply Hps.
  - rewrite run_guarded_request. destruct (is_absent res || is_absent rej).
    + destruct (verify_world pfx res rej w) as [l [-> | ->]]; apply Hps.
    + rewrite run_capability_request. cbn.
      by apply (pending_served_new_request w (w_map_options (set_action act) w)).
  - by apply (pending_served_deliver i r w rq).
Qed.

Lemma reachable_pending_served `{ModuleLoader} o w : reachable o w -> pending_served w.
Proof.
  intros Hr. assert (H0 : pending_served (snd (run (Client o) init_world))).
  { destruct (Client_session o init_world) as (Hp & _ & _). intros _ p. rewrite Hp. cbn.
    by rewrite lookup_empty. }
  induction Hr as [|w1 w2 w3 H12 _ IH]; [exact H0 | apply IH, (step_pending_served w1 w2 H12 H0)].
Qed.

(** The run of [answer_all] is a run of the system, and it ends with
    the process crashed or nothing in flight and every promise settled. *)
Lemma answer_all_spec answer n w :
  length (w_inflight w) = n -> pending_served w ->
  rtc step w (answer_all answer n w) /\
  (w_alive (answer_all answer n w) = false \/
   (w_inflight (answer_all answer n w) = [] /\ all_settled (answer_all answer n w))).
Proof.
  revert w. induction n as [|n IH]; intros w Hn Hps; cbn [answer_all].
  - apply length_zero_iff_nil in Hn. rewrite Hn. split; [apply rtc_refl |].
    destruct (w_alive w) eqn:Ha; [right | by left]. split; [done | by apply pending_served_settled].
  - destruct (w_inflight w) as [|rq l] eqn:Hin; [discriminate |].
    destruct (w_alive w) eqn:Ha; [| split; [apply rtc_refl | by left]].
    assert (Hi : w_inflight w !! 0 = Some rq) by (by rewrite Hin).
    assert (Hlen : length (w_inflight (deliver 0 (answer rq) w)) = n)
      by (rewrite (deliver_inflight 0 (answer rq) w rq Hi), Hin; cbn in *; lia).
    destruct (IH _ Hlen (pending_served_deliver 0 (answer rq) w rq Hi Hps)) as [Hrun Hend].
    split; [| exact Hend]. apply (rtc_l _ _ _ _ (StepRespond w 0 rq (answer rq) Ha Hi) Hrun).
Qed.
End Steps.

Section Claims.
Context {P : Parsers} {L : ModuleLoader}.

(** C12: No promise of the client is left pending: in every world
    reachable from a constructed client, each pending promise has its
    request in flight, and answering the requests in flight one after
    the other, whatever the service answers, is a run of the system that
    ends with the process crashed or with no request in flight and every
    promise fulfilled or rejected. *)
Theorem reachable_all_settled o w (answer : request -> response) :
  reachable o w ->
  pending_served w /\
  rtc step w (answer_all answer (length (w_inflight w)) w) /\
  (w_alive (answer_all answer (length (w_inflight w)) w) = false \/
   (w_inflight (answer_all answer (length (w_inflight w)) w) = [] /\
    all_settled (answer_all answer (length (w_inflight w)) w))).
Proof.
  intros Hr. pose proof (reachable_pending_served o w Hr) as Hps.
  split; [exact Hps | by apply answer_all_spec].
Qed.
End Claims.

Import DemoLoader DemoParsers.

(** The login issued and refused: the run of [answer_all] rejects it. *)
Lemma reachable_all_settled_witness :
  reachable no_overrides demo_auth /\
  all_settled (answer_all (fun _ => RespOk 200 refused_body) 1 demo_auth).
Proof.
  assert (Hr : reachable no_overrides demo_auth) by (apply rtc_once, StepAuthenticate; reflexivity).
  split; [exact Hr |].
  destruct (reachable_all_settled no_overrides demo_auth (fun _ => RespOk 200 refused_body) Hr)
    as (_ & _ & [Hd | [_ Hs]]); [vm_compute in Hd; discriminate | exact Hs].
Defined.
