(* ===== verification/Bootstrap.v ===== *)
(** * The debug bootstrap (src/index.js 225-297)

    With [debugMode] on (line 16, always), loading the module runs a
    script: it creates a client with [{ env: 'test' }], loads the MongoDB
    model [NaitonClient] (lines 231-233), calls [authenticate()] and, when
    the login promise is fulfilled, runs an [async.waterfall] of two
    tasks:

    - the first logs ['Waterfall start'] and calls
      [newClient.clientmanager.getcountrylist(success, error)], whose
      success continuation logs ['Get country list'] and calls the
      waterfall callback as [cb(result)];
    - the second logs its first argument, builds a [NaitonClient] document
      from a fixed literal and calls [newClient.clientmanager.addclient],
      whose continuations log and call [cb()];
    - the final callback logs ['Last action... done here.'].

    [async.waterfall] treats the first argument of its callback as an
    error: [cb(result)] with a truthy [result] goes straight to the final
    callback, and a falsy one calls the second task with no result, so
    that its parameters are [countrylist = next] and [cb = undefined].

    The script is a state machine ([boot_step]) over the phase it is in
    and the [world] of [Session]: a phase waits for one promise, and a
    step either runs the handler of a settled promise or lets the HTTP
    library answer a pending request.  The capability operations
    [getcountrylist] and [addclient] live in ./components/clientmanager,
    which is not in the repository: [ClientmanagerApi] gives their
    request (path and body) and they are modelled as a guarded capability
    call ([Invoker.guarded_request]) whose promise settles the
    continuations.  Mongoose is the [Persistence] interface.  [new Date()]
    is an empty object: the date is not modelled. *)

From Stdlib Require Import Wellfounded Wf_nat.
From S2P Require Import Prelude JsValue Promise Options World Envelope Registry Transport Invoker Session.
Import Options.

(** ** What the script needs from outside the repository *)

Class ClientmanagerApi : Type := {
  (** The prefix the capability gives [verifyAPIUsage]. *)
  cm_prefix : string;
  (** The action path and the envelope of [getcountrylist]. *)
  getcountrylist_request : string * string;
  (** The action path and the envelope of [addclient(client)]. *)
  addclient_request : jsval -> string * string
}.

Class Persistence : Type := {
  (** Lines 231-233: [mongoose.model('NaitonClient')] after the two
      [require]s, or the error one of them throws. *)
  naiton_model : outcome jsval jsval;
  (** [new NaitonClient(fields)] for the model's value. *)
  new_document : jsval -> jsval -> outcome jsval jsval
}.

(** ** The script's data *)

(** [{ env: 'test' }] (lines 227-229). *)
Definition boot_options : overrides :=
  mk_overrides None None None None None (Some "test") None None None None None None None None None.

(** The literal given to [new NaitonClient] (lines 254-278). *)
Definition naiton_client_fields : jsval :=
  JObj [("clientid", JNum 0); ("firstname", JStr "Gerhard Richard"); ("infix", JStr "");
        ("lastname", JStr "Edens"); ("gender", JBool true); ("dateofbirth", JObj []);
        ("phone", JStr "+31 (0)6 55 33 79 88"); ("email", JStr "richard+10@aanzee.nl");
        ("password", JStr "nmjKli8"); ("allownewsletter", JBool true); ("addressid", JNum 0);
        ("house", JStr "19"); ("houseadd", JStr ""); ("zipcode", JStr "2202MN");
        ("city", JStr "Noordwijk"); ("countryid", JNum 1); ("businessid", JNum 611);
        ("companyid", JNum 0); ("discountgroupid", JNum 0); ("paymentdays", JNum 0);
        ("creditline", JNum 0); ("emailblacklist", JBool true); ("returnvalue", JStr "")].

(** The functions the script passes around, by identity: the two
    continuations of each capability call and the waterfall's [next]. *)
Definition countries_success : jsval := JFun 101.
Definition countries_error : jsval := JFun 102.
Definition added_success : jsval := JFun 103.
Definition added_error : jsval := JFun 104.
Definition waterfall_next : jsval := JFun 105.

(** The phases of the script. *)
Inductive phase : Type :=
| Loading
| AwaitLogin (p : nat) (model : jsval)
| AwaitCountries (q : nat) (model : jsval)
| AwaitClientAdded (q : nat) (cb : jsval)
| Finished
| Idle
| Failed (e : jsval).

Section Script.
Context {P : Parsers} {L : ModuleLoader} {C : ClientmanagerApi} {D : Persistence}.

(** Lines 226-235 up to the call of [then]: the promise of the login and
    the model. *)
Definition bootstrap : JS (nat * jsval) :=
  createClient boot_options;;
  model ← st_lift naiton_model;
  p ← authenticate;
  mret (p, model).

(** [newClient.clientmanager.<meth>(...)]: a [TypeError] when the
    capability did not load. *)
Definition clientmanager_call (meth : string) (req : string * string) (res rej : jsval) : JS (option nat) :=
  w ← st_get;
  match c_caps (w_client w) !! "clientmanager" with
  | None => st_throw (type_error ("Cannot read properties of undefined (reading '" +:+ meth +:+ "')"))
  | Some _ => guarded_request cm_prefix res rej req.1 req.2
  end.

(** The fulfilment handler of the login (line 235) and the first task
    (lines 240-249). *)
Definition waterfall_start : JS (option nat) :=
  console_log "Waterfall start";;
  clientmanager_call "getcountrylist" getcountrylist_request countries_success countries_error.

(** The final callback (lines 289-291). *)
Definition final_callback : JS unit := console_log "Last action... done here.".

(** [cb()] in the continuations of [addclient]: the waterfall's callback
    after the last task runs the final callback; anything that is not a
    function throws. *)
Definition call_cb (cb : jsval) : JS unit :=
  match cb with
  | JFun _ => final_callback
  | _ => st_throw (type_error "cb is not a function")
  end.

(** The second task (lines 250-287), called with its two parameters. *)
Definition second_task (model countrylist cb : jsval) : JS (option nat) :=
  console_log (to_str countrylist);;
  client ← st_lift (new_document model naiton_client_fields);
  clientmanager_call "addclient" (addclient_request client) added_success added_error.

(** The success continuation of [getcountrylist] (lines 242-245) and the
    waterfall's callback it calls: a truthy [result] is an error for
    [async], which runs the final callback; a falsy one starts the second
    task with no result, so [countrylist] is [next] and [cb] undefined. *)
Definition countries_received (model result : jsval) : JS (option nat) :=
  console_log "Get country list";;
  if truthy result then (final_callback;; mret None)
  else second_task model waterfall_next JUndefined.

(** The error continuation of [getcountrylist] (lines 245-248); the
    [cb(null)] is commented out, so the waterfall goes no further. *)
Definition countries_failed (error : jsval) : JS unit := console_log (to_str error).

(** The continuations of [addclient] (lines 280-286). *)
Definition client_added (cb result : jsval) : JS unit := console_log (to_str result);; call_cb cb.
Definition client_add_failed (cb error : jsval) : JS unit := console_log (to_str error);; call_cb cb.

(** The rejection handler of the login (lines 294-296). *)
Definition login_failed (error : jsval) : JS unit := console_log (to_str error).

(** Running a handler: an exception it throws rejects the promise [then]
    returned, which nobody handles; the script stops there. *)
Definition react {A} (m : JS A) (k : A -> phase) (w : world) : phase * world :=
  match run m w with
  | (Normal a, w') => (k a, w')
  | (Thrown e, w') => (Failed e, w')
  end.

(** The module load: an exception there is uncaught and ends the
    process. *)
Definition load (w : world) : phase * world :=
  match run bootstrap w with
  | (Normal (p, model), w') => (AwaitLogin p model, w')
  | (Thrown e, w') => (Failed e, w_crash w')
  end.

Definition after_countries (o : option nat) : phase :=
  match o with
  | None => Finished
  | Some q => AwaitClientAdded q JUndefined
  end.

Definition after_login (model : jsval) (o : option nat) : phase :=
  match o with
  | Some q => AwaitCountries q model
  | None => Idle
  end.

(** One step of the script or of the HTTP library. *)
Inductive boot_step : phase * world -> phase * world -> Prop :=
| BootLoad w :
    w_alive w = true -> boot_step (Loading, w) (load w)
| BootDeliver ph w i rq r :
    w_alive w = true -> w_inflight w !! i = Some rq -> boot_step (ph, w) (ph, deliver i r w)
| BootLoggedIn p model v w :
    w_alive w = true -> w_promises w !! p = Some (Fulfilled v) ->
    boot_step (AwaitLogin p model, w) (react waterfall_start (after_login model) w)
| BootLoginFailed p model e w :
    w_alive w = true -> w_promises w !! p = Some (Rejected e) ->
    boot_step (AwaitLogin p model, w) (Idle, snd (run (login_failed e) w))
| BootCountries q model v w :
    w_alive w = true -> w_promises w !! q = Some (Fulfilled v) ->
    boot_step (AwaitCountries q model, w) (react (countries_received model v) after_countries w)
| BootCountriesFailed q model e w :
    w_alive w = true -> w_promises w !! q = Some (Rejected e) ->
    boot_step (AwaitCountries q model, w) (Idle, snd (run (countries_failed e) w))
| BootClientAdded q cb v w :
    w_alive w = true -> w_promises w !! q = Some (Fulfilled v) ->
    boot_step (AwaitClientAdded q cb, w) (react (client_added cb v) (fun _ => Finished) w)
| BootClientAddFailed q cb e w :
    w_alive w = true -> w_promises w !! q = Some (Rejected e) ->
    boot_step (AwaitClientAdded q cb, w) (react (client_add_failed cb e) (fun _ => Finished) w).
End Script.

(** ** How many requests a handler issues *)

Definition same_inflight (w w' : world) : Prop := w_inflight w' = w_inflight w.

#[export] Instance same_inflight_preorder : PreOrder same_inflight.
Proof. split; [intros w; done | intros w1 w2 w3 H1 H2; unfold same_inflight in *; congruence]. Qed.

(** A program that issues at most one request. *)
Definition issues_le1 {A} (m : JS A) : Prop :=
  forall w, length (w_inflight (snd (run m w))) <= S (length (w_inflight w)).

Lemma issues_le1_kept {A} (m : JS A) : preserves same_inflight m -> issues_le1 m.
Proof. intros H w. rewrite (H w). lia. Qed.

Lemma issues_le1_bind_l {A B} (m : JS A) (k : A -> JS B) :
  preserves same_inflight m -> (forall a, issues_le1 (k a)) -> issues_le1 (m ≫= k).
Proof.
  intros Hm Hk w. rewrite run_bind. specialize (Hm w).
  destruct (run m w) as [[a|e] w']; cbn [snd] in *; unfold same_inflight in Hm; rewrite <- Hm; [apply Hk | lia].
Qed.

Lemma issues_le1_bind_r {A B} (m : JS A) (k : A -> JS B) :
  issues_le1 m -> (forall a, preserves same_inflight (k a)) -> issues_le1 (m ≫= k).
Proof.
  intros Hm Hk w. rewrite run_bind. specialize (Hm w).
  destruct (run m w) as [[a|e] w']; cbn [snd] in *; [rewrite (Hk a w') |]; done.
Qed.

Lemma console_log_inflight l : preserves same_inflight (console_log l).
Proof. intros w. reflexivity. Qed.

#[export] Hint Resolve console_log_inflight : naiton.

Lemma authenticate_issues_le1 `{Parsers} : issues_le1 authenticate.
Proof.
  intros w. destruct (c_caps (w_client w) !! "base64") as [b|] eqn:Hb;
    [rewrite (run_authenticate w b Hb) | rewrite (run_authenticate_no_base64 w Hb)]; cbn;
    rewrite ?length_app; cbn; lia.
Qed.

Lemma guarded_request_issues_le1 `{Parsers} pfx res rej act body :
  issues_le1 (guarded_request pfx res rej act body).
Proof.
  intros w. rewrite run_guarded_request. destruct (is_absent res || is_absent rej).
  - destruct (verify_world pfx res rej w) as [l [-> | ->]]; cbn; lia.
  - rewrite run_capability_request. cbn. rewrite length_app. cbn. lia.
Qed.

Section Counting.
Context {P : Parsers} {L : ModuleLoader} {C : ClientmanagerApi} {D : Persistence}.

Lemma clientmanager_call_issues_le1 meth req res rej : issues_le1 (clientmanager_call meth req res rej).
Proof.
  intros w. unfold clientmanager_call. rewrite run_bind, run_get.
  destruct (c_caps (w_client w) !! "clientmanager"); [apply guarded_request_issues_le1 | cbn; lia].
Qed.

Lemma call_cb_inflight cb : preserves same_inflight (call_cb cb).
Proof. intros w. by destruct cb. Qed.

Lemma bootstrap_issues_le1 : issues_le1 bootstrap.
Proof.
  unfold bootstrap. apply issues_le1_bind_l; [intros w; apply Client_session |]. intros _.
  apply issues_le1_bind_l; [intros w; reflexivity |]. intros model.
  apply issues_le1_bind_r; [apply authenticate_issues_le1 | intros a w; reflexivity].
Qed.

Lemma waterfall_start_issues_le1 : issues_le1 waterfall_start.
Proof. apply issues_le1_bind_l; [auto with naiton | intros _; apply clientmanager_call_issues_le1]. Qed.

Lemma countries_received_issues_le1 model v : issues_le1 (countries_received model v).
Proof.
  apply issues_le1_bind_l; [auto with naiton | intros _]. destruct (truthy v).
  - apply issues_le1_kept. intros w. reflexivity.
  - apply issues_le1_bind_l; [auto with naiton | intros _].
    apply issues_le1_bind_l; [intros w; reflexivity | intros client; apply clientmanager_call_issues_le1].
Qed.

Lemma handler_inflight cb v : preserves same_inflight (console_log (to_str v);; call_cb cb).
Proof. intros w. rewrite run_bind. cbn [run console_log st_modify]. apply (call_cb_inflight cb (w_add_log (to_str v) w)). Qed.
End Counting.

(** ** Termination *)

(** How far the script is from its end: each handler moves to a later
    phase and issues at most one request; each answer removes one. *)
Definition phase_rank (ph : phase) : nat :=
  match ph with
  | Loading => 4
  | AwaitLogin _ _ => 3
  | AwaitCountries _ _ => 2
  | AwaitClientAdded _ _ => 1
  | Finished | Idle | Failed _ => 0
  end.

Definition boot_measure (x : phase * world) : nat := 2 * phase_rank x.1 + length (w_inflight x.2).

Lemma react_measure {A} (m : JS A) (k : A -> phase) w n :
  issues_le1 m -> (forall a, phase_rank (k a) <= n) ->
  boot_measure (react m k w) <= 2 * n + S (length (w_inflight w)).
Proof.
  intros Hm Hk. unfold react, boot_measure. specialize (Hm w).
  destruct (run m w) as [[a|e] w']; cbn [fst snd phase_rank] in *;
    [specialize (Hk a) |]; lia.
Qed.

Section Termination.
Context {P : Parsers} {L : ModuleLoader} {C : ClientmanagerApi} {D : Persistence}.

(** The continuations of [addclient] end the script and issue nothing. *)
Lemma handler_measure cb v w q cb' :
  boot_measure (react (console_log (to_str v);; call_cb cb) (fun _ => Finished) w) <
    boot_measure (AwaitClientAdded q cb', w).
Proof.
  unfold react, boot_measure. pose proof (handler_inflight cb v w) as H.
  destruct (run _ w) as [[]]; cbn in *; rewrite H; lia.
Qed.

Lemma boot_step_decreases x y : boot_step x y -> boot_measure y < boot_measure x.
Proof.
  destruct 1 as [w Ha | ph w i rq r Ha Hi | p model v w Ha Hp | p model e w Ha Hp
                | q model v w Ha Hp | q model e w Ha Hp | q cb v w Ha Hp | q cb e w Ha Hp];
    try (apply handler_measure); unfold boot_measure; cbn [fst snd phase_rank].
  - pose proof (bootstrap_issues_le1 w). unfold load.
    destruct (run bootstrap w) as [[[p model]|e] w']; cbn in *; lia.
  - assert (Hs : is_Some (w_inflight w !! i)) by (rewrite Hi; by eexists).
    assert (i < length (w_inflight w)) by (by apply lookup_lt_Some with rq).
    rewrite (deliver_inflight i r w rq Hi), (length_delete _ _ Hs). lia.
  - pose proof (react_measure waterfall_start (after_login model) w 2
                  waterfall_start_issues_le1 ltac:(intros []; cbn; lia)). unfold boot_measure in *. lia.
  - cbn. lia.
  - pose proof (react_measure (countries_received model v) after_countries w 1
                  (countries_received_issues_le1 model v) ltac:(intros []; cbn; lia)). unfold boot_measure in *. lia.
  - cbn. lia.
Qed.
End Termination.

(** ** The script's behaviour *)

Section Behaviour.
Context {P : Parsers} {L : ModuleLoader} {C : ClientmanagerApi} {D : Persistence}.

(** C9: The script terminates: there is no infinite sequence of steps of
    the script and the HTTP library, whatever the responses, because every
    handler moves to a later phase issuing at most one request and every
    answer removes one. *)
Theorem boot_terminates : well_founded (fun y x : phase * world => boot_step x y).
Proof.
  apply (wf_incl _ _ (fun y x => boot_measure y < boot_measure x)).
  - intros y x H. by apply boot_step_decreases.
  - apply (wf_inverse_image _ nat lt boot_measure lt_wf).
Qed.

Lemma run_countries_truthy model v w :
  truthy v = true ->
  run (countries_received model v) w =
    (Normal None, w_add_log "Last action... done here." (w_add_log "Get country list" w)).
Proof. intros Hv. unfold countries_received. rewrite run_bind. cbn. by rewrite Hv. Qed.

Lemma run_countries_falsy model v w :
  truthy v = false ->
  run (countries_received model v) w =
    run (second_task model waterfall_next JUndefined) (w_add_log "Get country list" w).
Proof. intros Hv. unfold countries_received. rewrite run_bind. cbn. by rewrite Hv. Qed.

(** C7: When [getcountrylist] succeeds with a truthy result (any
    non-empty body), [cb(result)] hands the result to [async] as an error:
    the final callback runs at once, the script ends, and the second task
    (the [addclient] call) never runs; no request is issued.  This is the
    only handler step from that phase. *)
Theorem boot_countries_skip_second_task q model v w :
  w_alive w = true -> w_promises w !! q = Some (Fulfilled v) -> truthy v = true ->
  boot_step (AwaitCountries q model, w)
    (Finished, w_add_log "Last action... done here." (w_add_log "Get country list" w)) /\
  forall y, boot_step (AwaitCountries q model, w) y ->
    y.1 = AwaitCountries q model \/
    y = (Finished, w_add_log "Last action... done here." (w_add_log "Get country list" w)).
Proof.
  intros Ha Hq Hv.
  assert (Hr : react (countries_received model v) after_countries w =
                 (Finished, w_add_log "Last action... done here." (w_add_log "Get country list" w)))
    by (unfold react; by rewrite run_countries_truthy).
  split; [rewrite <- Hr; by constructor |].
  intros y Hy. inversion Hy as [| ph w1 i rq r _ _ | | | q1 m1 v1 w1 _ Hq1 | q1 m1 e1 w1 _ Hq1 | |]; subst.
  - by left.
  - right. rewrite Hq in Hq1. injection Hq1 as <-. exact Hr.
  - congruence.
Qed.

(** C10: Without a loaded [Clientmanager] capability (its module missing
    or its constructor failing), the fulfilled login makes the first task
    read [getcountrylist] of [undefined]: the handler throws a [TypeError]
    after logging ['Waterfall start'], the rejection is unhandled, and the
    script stops without issuing a request. *)
Theorem boot_without_clientmanager p model v w :
  w_alive w = true -> w_promises w !! p = Some (Fulfilled v) ->
  c_caps (w_client w) !! "clientmanager" = None ->
  boot_step (AwaitLogin p model, w)
    (Failed (type_error "Cannot read properties of undefined (reading 'getcountrylist')"),
     w_add_log "Waterfall start" w).
Proof.
  intros Ha Hp Hc.
  replace (Failed _, _) with (react waterfall_start (after_login model) w)
    by (unfold react, waterfall_start, clientmanager_call, console_log;
        rewrite run_bind, run_modify, run_bind, run_get, w_caps_add_log, Hc; reflexivity).
  by apply (BootLoggedIn p model v).
Qed.
End Behaviour.

(** ** The second task is dead code

    The client of the script decodes in [object] mode, so a response is
    resolved only after [JSON.parse] accepted its body, which is then not
    empty: every promise the script waits on is fulfilled with a truthy
    value, and [cb(result)] always skips the second task. *)

Definition truthy_value (v : jsval) : Prop := truthy v = true.

(** The part of a world the handlers keep. *)
Definition boot_kept (w w' : world) : Prop :=
  returnType (w_options w') = returnType (w_options w) /\ fulfilled_kept truthy_value w w'.

#[export] Instance boot_kept_preorder : PreOrder boot_kept.
Proof.
  split; [intros w; split; [done | reflexivity] |].
  intros w1 w2 w3 [H1 K1] [H2 K2]. split; [congruence | by transitivity w2].
Qed.

Definition boot_inv (x : phase * world) : Prop :=
  returnType (w_options x.2) = "object" /\ fulfilled_all truthy_value (w_promises x.2) /\
  forall q cb, x.1 <> AwaitClientAdded q cb.

Section DeadCode.
Context {P : Parsers} {L : ModuleLoader} {C : ClientmanagerApi} {D : Persistence}.

Ltac boot_kept_tac :=
  preserves_tac; split; cbn; try done; unfold fulfilled_kept; cbn; auto with naiton.

Lemma guarded_request_kept pfx res rej act body : preserves boot_kept (guarded_request pfx res rej act body).
Proof.
  unfold guarded_request, verifyAPIUsage, capability_request, new_promise, post, get_options, console_log.
  boot_kept_tac.
Qed.

Lemma clientmanager_call_kept meth req res rej : preserves boot_kept (clientmanager_call meth req res rej).
Proof.
  unfold clientmanager_call. preserves_tac; try apply guarded_request_kept; split; done.
Qed.

Lemma react_inv {A} (m : JS A) k w ph :
  preserves boot_kept m -> boot_inv (ph, w) -> (forall a q cb, k a <> AwaitClientAdded q cb) ->
  boot_inv (react m k w).
Proof.
  intros Hm (Ho & Hf & _) Hk. unfold react. destruct (Hm w) as [Ho' Hf'].
  destruct (run m w) as [[a|e] w']; unfold boot_inv; cbn [fst snd] in *; split_and!; try congruence; auto.
Qed.

(** A body [JSON.parse] accepts is not empty. *)
Lemma json_parsed_truthy b j : json_parse b = Normal j -> truthy_value (JStr b).
Proof.
  intros Hb. unfold truthy_value. cbn. destruct (String.eqb_spec b "") as [->|]; [| done].
  destruct json_parse_empty as [e He]. congruence.
Qed.

Lemma deliver_inv ph w i r : boot_inv (ph, w) -> boot_inv (ph, deliver i r w).
Proof.
  intros (Ho & Hf & Hph). cbn [fst snd] in Ho, Hf, Hph. destruct (w_inflight w !! i) as [rq|] eqn:Hi;
    [| unfold deliver; rewrite Hi; by split_and!].
  destruct (deliver_cases i r w rq Hi) as [(_ & _ & _ & _ & _ & _ & _ & Hopt) Hdel].
  assert (Hf' : fulfilled_all truthy_value
                  (w_promises (snd (run (post_callback (rq_promise rq) r) (w_set_inflight (delete i (w_inflight w)) w))))).
  { apply post_callback_fulfilled; [done | | cbn; by intros ? ? _ []].
    intros s b _ _ [j Hj]. by apply (json_parsed_truthy b j). }
  unfold boot_inv; cbn [fst snd].
  split_and!; [| | done]; destruct Hdel as [-> | ->]; rewrite ?w_options_crash, ?w_promises_crash; try done;
    by rewrite Hopt, set_token_returnType, w_options_set_inflight.
Qed.

Lemma authenticate_kept : preserves boot_kept authenticate.
Proof. unfold authenticate, base64_encode, new_promise, post, get_options. boot_kept_tac. Qed.

Lemma log_kept l : preserves boot_kept (console_log l).
Proof. intros w. split; [done | intros H; exact H]. Qed.

Lemma waterfall_start_kept : preserves boot_kept waterfall_start.
Proof.
  unfold waterfall_start. apply preserves_bind; [typeclasses eauto | apply log_kept |].
  intros _. apply clientmanager_call_kept.
Qed.

Lemma load_inv w : boot_inv (Loading, w) -> boot_inv (load w).
Proof.
  intros (_ & Hf & _). cbn [snd] in Hf.
  destruct (Client_fields boot_options w) as [Hopt _].
  destruct (Client_session boot_options w) as (Hp & _).
  unfold load, bootstrap, createClient. rewrite run_bind.
  destruct (run (Client boot_options) w) as [[[]|e] w1]; cbn [snd] in Hopt, Hp.
  - rewrite run_bind, run_lift. destruct naiton_model as [model|e].
    + rewrite run_bind. destruct (authenticate_kept w1) as [Ho' Hf'].
      destruct (run authenticate w1) as [[p|e] w2]; cbn [snd] in *;
        (rewrite ?run_ret; unfold boot_inv; cbn [fst snd]; split_and!; [by rewrite ?w_options_crash, Ho', Hopt | apply Hf'; by rewrite Hp | done]).
    + unfold boot_inv; cbn [fst snd]; split_and!; [by rewrite w_options_crash, Hopt | cbn; by rewrite Hp | done].
  - unfold boot_inv; cbn [fst snd]; split_and!; [by rewrite w_options_crash, Hopt | cbn; by rewrite Hp | done].
Qed.

Lemma boot_step_inv x y : boot_step x y -> boot_inv x -> boot_inv y.
Proof.
  destruct 1 as [w Ha | ph w i rq r Ha Hi | p model v w Ha Hp | p model e w Ha Hp
                | q model v w Ha Hp | q model e w Ha Hp | q cb v w Ha Hp | q cb e w Ha Hp]; intros Hinv.
  - by apply load_inv.
  - by apply deliver_inv.
  - apply (react_inv _ _ _ _ waterfall_start_kept Hinv). by intros [].
  - destruct Hinv as (Ho & Hf & _). split_and!; done.
  - destruct Hinv as (Ho & Hf & _). cbn [snd] in Hf.
    unfold react. rewrite run_countries_truthy by apply (Hf q v Hp). split_and!; done.
  - destruct Hinv as (Ho & Hf & _). split_and!; done.
  - destruct Hinv as (_ & _ & Hph). by destruct (Hph q cb).
  - destruct Hinv as (_ & _ & Hph). by destruct (Hph q cb).
Qed.
End DeadCode.

Section DeadCodeTheorem.
Context {P : Parsers} {L : ModuleLoader} {C : ClientmanagerApi} {D : Persistence}.

Lemma rtc_boot_inv x y : rtc boot_step x y -> boot_inv x -> boot_inv y.
Proof. induction 1 as [|x1 x2 x3 H12 _ IH]; [done |]. intros H. by apply IH, (boot_step_inv x1). Qed.

(** C8: The second task of the waterfall is dead code.  On every run of
    the script from the module load, every promise it waits on is
    fulfilled with a truthy value (a body [JSON.parse] accepted is never
    empty, and the client decodes in [object] mode), so [cb(result)]
    always sends the waterfall to its final callback: the script never
    reaches the [addclient] phase, whatever the service answers. *)
Theorem boot_second_task_dead ph w :
  rtc boot_step (Loading, init_world) (ph, w) ->
  fulfilled_all truthy_value (w_promises w) /\ forall q cb, ph <> AwaitClientAdded q cb.
Proof.
  intros Hr.
  assert (H0 : boot_inv (Loading, init_world))
    by (split_and!; [reflexivity | intros q v Hq; cbn in Hq; by rewrite lookup_empty in Hq | done]).
  destruct (rtc_boot_inv _ _ Hr H0) as (_ & Hf & Hph). split; [exact Hf | exact Hph].
Qed.
End DeadCodeTheorem.

(** ** A run of the script

    A loader under which [Base64] and [Clientmanager] load, the stub
    parsers of [Transport.DemoParsers], a clientmanager whose requests
    are fixed envelopes, and a model that builds the document it is
    given. *)
Module BootDemo.
Definition boot_require (p : string) : outcome jsval jsval :=
  if String.eqb p "./components/base64" then Normal (JObj [("Base64", JFun 0)])
  else if String.eqb p "./components/clientmanager" then Normal (JObj [("Clientmanager", JFun 1)])
  else Thrown (JError "Error" ("Cannot find module '" +:+ p +:+ "'")).

#[export] Instance boot_loader : ModuleLoader := {| require_module := boot_require; construct _ := None |}.

#[export] Instance boot_clientmanager : ClientmanagerApi := {|
  cm_prefix := "[clientmanager] ";
  getcountrylist_request := ("/service/getcountrylist", "<_routines><_routine><_name>GetCountryList</_name></_routine></_routines>");
  addclient_request _ := ("/service/addclient", "<_routines><_routine><_name>AddClient</_name></_routine></_routines>")
|}.

#[export] Instance boot_persistence : Persistence := {|
  naiton_model := Normal (JFun 200);
  new_document _ fields := Normal fields
|}.
End BootDemo.

Import BootDemo DemoParsers.

(** The module loaded, the login answered, the country list asked for and
    answered (with a body the stub parser accepts). *)
Definition boot_loaded : world := (load init_world).2.
Definition boot_logged_in : world := deliver 0 (RespOk 200 ok_body) boot_loaded.
Definition boot_asked : world := (react waterfall_start (after_login (JFun 200)) boot_logged_in).2.
Definition boot_answered : world := deliver 0 (RespOk 200 refused_body) boot_asked.

Lemma boot_load_init : load init_world = (AwaitLogin 0 (JFun 200), boot_loaded).
Proof. vm_compute. reflexivity. Qed.

Lemma boot_asked_phase :
  react waterfall_start (after_login (JFun 200)) boot_logged_in = (AwaitCountries 1 (JFun 200), boot_asked).
Proof. vm_compute. reflexivity. Qed.

Lemma boot_run_to_countries :
  rtc boot_step (Loading, init_world) (AwaitCountries 1 (JFun 200), boot_answered).
Proof.
  apply (rtc_l _ _ (load init_world)); [apply BootLoad; reflexivity | rewrite boot_load_init].
  apply (rtc_l _ _ (AwaitLogin 0 (JFun 200), boot_logged_in));
    [eapply (BootDeliver _ _ 0 _ (RespOk 200 ok_body)); vm_compute; reflexivity |].
  apply (rtc_l _ _ (react waterfall_start (after_login (JFun 200)) boot_logged_in));
    [apply (BootLoggedIn _ _ (JStr ok_body)); vm_compute; reflexivity | rewrite boot_asked_phase].
  apply rtc_once. eapply (BootDeliver _ _ 0 _ (RespOk 200 refused_body)); vm_compute; reflexivity.
Qed.

Lemma boot_countries_skip_second_task_witness :
  boot_step (AwaitCountries 1 (JFun 200), boot_answered)
    (Finished, w_add_log "Last action... done here." (w_add_log "Get country list" boot_answered)).
Proof.
  destruct (boot_countries_skip_second_task 1 (JFun 200) (JStr refused_body) boot_answered)
    as [Hs _]; [vm_compute; reflexivity .. | exact Hs].
Defined.

Lemma boot_without_clientmanager_witness :
  boot_step (AwaitLogin 0 JUndefined, demo_logged_in)
    (Failed (type_error "Cannot read properties of undefined (reading 'getcountrylist')"),
     w_add_log "Waterfall start" demo_logged_in).
Proof. apply (boot_without_clientmanager 0 JUndefined (JStr ok_body)); vm_compute; reflexivity. Defined.

Lemma boot_second_task_dead_witness :
  fulfilled_all truthy_value (w_promises boot_answered).
Proof. exact (proj1 (boot_second_task_dead _ _ boot_run_to_countries)). Defined.
