(* ===== verification/BootProgress.v ===== *)
(** * The debug bootstrap never gets stuck

    [Bootstrap.boot_step] runs the script of src/index.js 226-296 against
    the HTTP library.  Termination ([Bootstrap.boot_terminates]) says no
    run is infinite; this file shows that no run gets stuck either: a
    state reachable from the module load from which no step is possible
    is a final one, where the process has crashed, or the script is
    finished, idle or failed with no request left unanswered
    ([boot_stuck_final]).  With termination, every maximal run therefore
    ends in such a final state.

    The invariant behind it ([boot_ok]): the promise the current phase
    waits for is [served]: it is settled, or a request in flight will
    settle it when answered.  Each handler's triple
    ([Prelude.hoare]) says the promise it returns is served; the
    callback of the answer to a request settles its promise
    ([Session.post_callback_settles]) or crashes the process. *)

From S2P Require Import Prelude JsValue Promise Options World Envelope Registry Transport Invoker Session Bootstrap.
Import Options.

(** ** Served promises, awaited promises, final states *)

(** Promise [p] will not be waited for in vain: the process is gone, or
    [p] exists and is settled or has a request in flight. *)
Definition served (w : world) (p : nat) : Prop :=
  w_alive w = false \/
  exists s, w_promises w !! p = Some s /\
            (settled s = true \/ exists rq, rq ∈ w_inflight w /\ rq_promise rq = p).

(** The promise a phase waits for. *)
Definition awaited (ph : phase) : option nat :=
  match ph with
  | AwaitLogin p _ => Some p
  | AwaitCountries q _ => Some q
  | AwaitClientAdded q _ => Some q
  | _ => None
  end.

Definition final_phase (ph : phase) : bool :=
  match ph with Finished | Idle | Failed _ => true | _ => false end.

(** A state where the run has ended: the process crashed, or the script
    is over and every request has been answered. *)
Definition boot_final (x : phase * world) : Prop :=
  w_alive x.2 = false \/ (w_inflight x.2 = [] /\ final_phase x.1 = true).

Definition boot_ok (x : phase * world) : Prop :=
  forall p, awaited x.1 = Some p -> served x.2 p.

(** What a handler returning a request's promise promises of it. *)
Definition issued (o : option nat) (w : world) : Prop := forall q, o = Some q -> served w q.

(** ** Handlers issue served promises *)

(** The statements before the one that matters. *)
Lemma hoare_after {A B} (m : JS A) (f : A -> JS B) (Q : B -> world -> Prop) :
  (forall a, hoare (fun _ => True) (f a) Q) -> hoare (fun _ => True) (m ≫= f) Q.
Proof. intros Hf. apply (hoare_bind _ _ _ (fun _ _ => True)); [by apply hoare_true | exact Hf]. Qed.

Ltac hoare_after_tac :=
  repeat match goal with |- hoare _ (_ ≫= _) _ => apply hoare_after; intros ? end.

Section Issue.
Context {P : Parsers} {L : ModuleLoader} {C : ClientmanagerApi} {D : Persistence}.

Lemma new_promise_post_served body :
  hoare (fun _ => True) (new_promise (post body)) (fun p w => served w p).
Proof.
  intros w p w' _ Hr. unfold new_promise, post in Hr. st_simpl. injection Hr as <- <-.
  right. exists Pending. cbn. rewrite lookup_insert_eq. split; [done | right].
  eexists. split; [apply elem_of_app; right; by left | reflexivity].
Qed.

Lemma authenticate_served : hoare (fun _ => True) authenticate (fun p w => served w p).
Proof. unfold authenticate. hoare_after_tac. apply new_promise_post_served. Qed.

Lemma guarded_request_served pfx res rej act body :
  hoare (fun _ => True) (guarded_request pfx res rej act body) issued.
Proof.
  unfold guarded_request. apply hoare_after. intros [].
  - apply (hoare_bind _ _ _ (fun p w => served w p)).
    + unfold capability_request. hoare_after_tac. apply new_promise_post_served.
    + intros p. apply hoare_ret. intros w Hw q [= <-]. exact Hw.
  - apply hoare_ret. intros w _ q Hq. discriminate.
Qed.

Lemma clientmanager_call_served meth req res rej :
  hoare (fun _ => True) (clientmanager_call meth req res rej) issued.
Proof.
  unfold clientmanager_call. apply hoare_after. intros w.
  destruct (c_caps (w_client w) !! "clientmanager"); [apply guarded_request_served | apply hoare_throw].
Qed.

Lemma waterfall_start_served : hoare (fun _ => True) waterfall_start issued.
Proof. unfold waterfall_start. hoare_after_tac. apply clientmanager_call_served. Qed.

Lemma countries_received_served model v : hoare (fun _ => True) (countries_received model v) issued.
Proof.
  unfold countries_received. apply hoare_after. intros _. destruct (truthy v).
  - hoare_after_tac. apply hoare_ret. intros w _ q Hq. discriminate.
  - unfold second_task. hoare_after_tac. apply clientmanager_call_served.
Qed.

Lemma bootstrap_served : hoare (fun _ => True) bootstrap (fun pm w => served w pm.1).
Proof.
  unfold bootstrap. do 2 (apply hoare_after; intros ?).
  apply (hoare_bind _ _ _ (fun p w => served w p)); [apply authenticate_served |].
  intros p. apply hoare_ret. done.
Qed.
End Issue.

(** ** Answering a request keeps every promise served *)

Section Deliver.
Context {P : Parsers}.

Lemma served_deliver w i r p : served w p -> served (deliver i r w) p.
Proof.
  intros Hs. destruct (w_inflight w !! i) as [rq|] eqn:Hi; [| unfold deliver; by rewrite Hi].
  destruct (w_alive (deliver i r w)) eqn:Ha; [right | by left].
  destruct Hs as [Hd | (s & Hp & Hst)].
  { destruct (deliver_cases i r w rq Hi) as [(_ & _ & Ha' & _) [Hdel | Hdel]];
      rewrite Hdel in Ha; cbn in Ha, Ha'; congruence. }
  destruct (deliver_store_evolves i r w rq Hi p s Hp) as (s' & Hp' & Hev). exists s'. split; [exact Hp' |].
  destruct (settled s') eqn:Hset; [by left |]. right.
  destruct s'; try discriminate.
  destruct (deliver_pending i r w rq p Hi Ha Hp') as [Hold Hne].
  destruct Hst as [Hst | (rq' & Hrq' & Hpr)]; [rewrite Hp in Hold; injection Hold as ->; discriminate |].
  exists rq'. split; [| exact Hpr]. rewrite (deliver_inflight i r w rq Hi).
  apply (elem_of_delete_ne _ i rq' rq Hi Hrq'). intros ->. contradiction.
Qed.
End Deliver.

(** ** The invariant and progress *)

Lemma awaited_after_login model o : awaited (after_login model o) = o.
Proof. by destruct o. Qed.

Lemma awaited_after_countries o : awaited (after_countries o) = o.
Proof. by destruct o. Qed.

Lemma settled_cases s : settled s = true -> (exists v, s = Fulfilled v) \/ (exists e, s = Rejected e).
Proof. destruct s; naive_solver. Qed.

Section Invariant.
Context {P : Parsers} {L : ModuleLoader} {C : ClientmanagerApi} {D : Persistence}.

Lemma react_ok {A} (m : JS A) (k : A -> phase) w :
  hoare (fun _ => True) m (fun a w' => issued (awaited (k a)) w') -> boot_ok (react m k w).
Proof.
  intros H q. unfold react. destruct (run m w) as [[a|e] w'] eqn:E; [| discriminate].
  exact (H w a w' I E q).
Qed.

Lemma boot_step_ok x y : boot_step x y -> boot_ok x -> boot_ok y.
Proof.
  intros Hstep Hok. destruct Hstep.
  - intros q. unfold load. destruct (run bootstrap w) as [[[p' model]|e] w'] eqn:E; [| discriminate].
    intros [= <-]. exact (bootstrap_served w _ w' I E).
  - intros q Hq. apply served_deliver, Hok, Hq.
  - apply react_ok. eapply hoare_weaken; [apply waterfall_start_served | done |].
    intros o w'. by rewrite awaited_after_login.
  - intros ? [=].
  - apply react_ok. eapply hoare_weaken; [apply countries_received_served | done |].
    intros o w'. by rewrite awaited_after_countries.
  - intros ? [=].
  - apply react_ok, hoare_true. intros _ _ ? [=].
  - apply react_ok, hoare_true. intros _ _ ? [=].
Qed.

Lemma rtc_boot_ok x : rtc boot_step (Loading, init_world) x -> boot_ok x.
Proof.
  intros Hr. assert (H0 : boot_ok (Loading, init_world)) by (intros p [=]).
  induction Hr as [|x1 x2 x3 H12 _ IH]; [exact H0 | apply IH, (boot_step_ok x1 x2 H12 H0)].
Qed.
End Invariant.

Section Progress.
Context {P : Parsers} {L : ModuleLoader} {C : ClientmanagerApi} {D : Persistence}.

(** A phase waiting for a settled promise runs its handler. *)
Lemma awaited_step ph w p s :
  w_alive w = true -> awaited ph = Some p -> w_promises w !! p = Some s -> settled s = true ->
  exists y, boot_step (ph, w) y.
Proof.
  intros Ha Hp Hs Hset. apply settled_cases in Hset as [[v ->] | [e ->]];
    destruct ph; cbn in Hp; try discriminate; injection Hp as <-; eexists; by econstructor.
Qed.

Lemma boot_ok_progress x : boot_ok x -> boot_final x \/ exists y, boot_step x y.
Proof.
  destruct x as [ph w]. intros Hok. destruct (w_alive w) eqn:Ha; [| left; by left].
  destruct (w_inflight w) as [|rq l] eqn:Hin.
  - destruct (awaited ph) as [p|] eqn:Hp.
    + right. destruct (Hok p Hp) as [Hd | (s & Hs & [Hset | (rq & Hrq & _)])]; [cbn in Hd; congruence | |].
      * exact (awaited_step ph w p s Ha Hp Hs Hset).
      * cbn in Hrq. rewrite Hin in Hrq. by apply not_elem_of_nil in Hrq.
    + destruct ph; try discriminate; [right; exists (load w); by constructor | left; right; done ..].
  - right. exists (ph, deliver 0 (RespError JUndefined) w). apply (BootDeliver ph w 0 rq); [done | by rewrite Hin].
Qed.

(** A final state has no step. *)
Lemma boot_final_irred x : boot_final x -> forall y, ~ boot_step x y.
Proof.
  intros [Hd | [Hin Hf]] y Hy; destruct Hy as [w0 Ha | ph w0 i rq r Ha Hi | | | | | |];
    cbn in *; try congruence.
  by rewrite Hin in Hi.
Qed.

(** C11: No reachable state of the script is stuck before its end: when
    no step of the script or of the HTTP library is possible from a state
    reached from the module load, the process has crashed, or the script
    is finished, idle or failed with no request left in flight.  The
    phase waiting for the login, the country list or [addclient] always
    has either a request in flight or a settled promise whose handler
    runs. *)
Theorem boot_stuck_final x :
  rtc boot_step (Loading, init_world) x -> (forall y, ~ boot_step x y) -> boot_final x.
Proof.
  intros Hr Hirr. destruct (boot_ok_progress x (rtc_boot_ok x Hr)) as [Hf | [y Hy]]; [exact Hf |].
  by destruct (Hirr y).
Qed.

End Progress.

(** ** Examples *)

Import BootDemo DemoParsers.

(** The run of [Bootstrap.boot_run_to_countries] taken to its end: the
    country list is truthy, so the script finishes. *)
Definition boot_done : world :=
  (react (countries_received (JFun 200) (JStr refused_body)) after_countries boot_answered).2.

Lemma boot_done_phase :
  react (countries_received (JFun 200) (JStr refused_body)) after_countries boot_answered = (Finished, boot_done).
Proof. vm_compute. reflexivity. Qed.

Lemma boot_run_done : rtc boot_step (Loading, init_world) (Finished, boot_done).
Proof.
  eapply rtc_r; [exact boot_run_to_countries |]. rewrite <- boot_done_phase.
  apply (BootCountries _ _ (JStr refused_body)); vm_compute; reflexivity.
Qed.

Lemma boot_stuck_final_witness :
  rtc boot_step (Loading, init_world) (Finished, boot_done) /\
  (forall y, ~ boot_step (Finished, boot_done) y) /\ boot_final (Finished, boot_done).
Proof.
  assert (Hf : boot_final (Finished, boot_done)) by (right; split; vm_compute; reflexivity).
  assert (Hirr : forall y, ~ boot_step (Finished, boot_done) y) by apply (boot_final_irred _ Hf).
  split; [exact boot_run_done | split; [exact Hirr | exact (boot_stuck_final _ boot_run_done Hirr)]].
Defined.

